(** * BitCom envelopes: scanner, builder and signature sub-protocols

    A shallow embedding of [template/bitcom] (bitcom.go, sigma.go, aip.go,
    bap.go) of go-script-templates, together with the part of the go-sdk
    [script] package these files call.

    Conventions.
    - A Go [[]byte] and a Go [string] are both [list byte]; the conversions
      [string(b)] and [[]byte(s)] are the identity.
    - Go slice indices and lengths are [nat]; the sentinel [-1] returned by
      the scanners is [None].
    - A nil pointer argument is [None].
    - A Go loop whose termination depends on the input is written with a
      fuel argument; [Timeout] is the answer of a run that used all of it. *)

From Stdlib Require Import Strings.Byte Strings.String.
From Stdlib Require Import List Arith NArith ZArith Lia Bool.
Import ListNotations.

Set Implicit Arguments.

(** ** Runs of loops that may not terminate *)

Inductive run (A : Type) : Type :=
| Done (a : A)
| Timeout.

Arguments Done {A} a.
Arguments Timeout {A}.

(** Go's [b[lo:hi]] for [lo <= hi <= len(b)]. *)
Definition slice (b : list byte) (lo hi : nat) : list byte :=
  firstn (hi - lo) (skipn lo b).

Definition byteAt (b : list byte) (i : nat) : byte := nth i b x00.

(** * The go-sdk script package *)

Module Script.

Definition Script := list byte.

Record ScriptChunk : Type := mkChunk { Op : byte; Data : list byte }.

Inductive ScriptError : Type :=
| ErrScriptIndexOutOfRange
| ErrDataTooSmall
| ErrDataTooBig
| ErrInvalidOpcodeType.

Definition OpFALSE : byte := x00.
Definition OpDATA1 : byte := x01.
Definition OpPUSHDATA1 : byte := x4c.
Definition OpPUSHDATA2 : byte := x4d.
Definition OpPUSHDATA4 : byte := x4e.
Definition OpRETURN : byte := x6a.

(** [int(binary.LittleEndian.Uint16(b[p:]))] and [Uint32]; the sums are
    taken in [N], where the large factors are binary numbers. *)
Definition le16 (b : Script) (p : nat) : nat :=
  N.to_nat (to_N (byteAt b p) + 256 * to_N (byteAt b (p + 1))).

Definition le32 (b : Script) (p : nat) : nat :=
  N.to_nat (to_N (byteAt b p) + 256 * to_N (byteAt b (p + 1))
            + 65536 * to_N (byteAt b (p + 2))
            + 16777216 * to_N (byteAt b (p + 3))).

(** [func (s *Script) ReadOp(pos *int) (op *ScriptChunk, err error)].
    The second component is the value of [*pos] on return.  On the
    [ErrDataTooSmall] exits taken before the length prefix is consumed the
    cursor is left where it was. *)
Definition ReadOp (b : Script) (pos : nat) : (ScriptError + ScriptChunk) * nat :=
  if length b <=? pos then (inl ErrScriptIndexOutOfRange, pos)
  else
    let o := byteAt b pos in
    if Byte.eqb o OpPUSHDATA1 then
      if length b <? pos + 2 then (inl ErrDataTooSmall, pos)
      else
        let l := to_nat (byteAt b (pos + 1)) in
        let pos := pos + 2 in
        if length b <? pos + l then (inl ErrDataTooSmall, pos)
        else (inr (mkChunk OpPUSHDATA1 (slice b pos (pos + l))), pos + l)
    else if Byte.eqb o OpPUSHDATA2 then
      if length b <? pos + 3 then (inl ErrDataTooSmall, pos)
      else
        let l := le16 b (pos + 1) in
        let pos := pos + 3 in
        if length b <? pos + l then (inl ErrDataTooSmall, pos)
        else (inr (mkChunk OpPUSHDATA2 (slice b pos (pos + l))), pos + l)
    else if Byte.eqb o OpPUSHDATA4 then
      if length b <? pos + 5 then (inl ErrDataTooSmall, pos)
      else
        let l := le32 b (pos + 1) in
        let pos := pos + 5 in
        if length b <? pos + l then (inl ErrDataTooSmall, pos)
        else (inr (mkChunk OpPUSHDATA4 (slice b pos (pos + l))), pos + l)
    else if (1 <=? to_nat o) && (to_nat o <? to_nat OpPUSHDATA1) then
      let l := to_nat o in
      if length b <? pos + (1 + l) then (inl ErrDataTooSmall, pos)
      else (inr (mkChunk o (slice b (pos + 1) (pos + (l + 1)))), pos + (1 + l))
    else (inr (mkChunk o []), pos + 1).

(** The conversion [byte(n)] of an integer: its low eight bits. *)
Definition byte_of_N (n : N) : byte :=
  match of_N (n mod 256) with
  | Some b => b
  | None => x00
  end.

(** [func PushDataPrefix(data []byte) ([]byte, error)]. *)
Definition PushDataPrefix (data : list byte) : ScriptError + list byte :=
  let l := N.of_nat (length data) in
  if (l <=? 75)%N then inr [byte_of_N l]
  else if (l <=? 255)%N then inr [OpPUSHDATA1; byte_of_N l]
  else if (l <=? 65535)%N then
    inr [OpPUSHDATA2; byte_of_N l; byte_of_N (l / 256)]
  else if (l <=? 4294967295)%N then
    inr [OpPUSHDATA4; byte_of_N l; byte_of_N (l / 256);
         byte_of_N (l / 65536); byte_of_N (l / 16777216)]
  else inl ErrDataTooBig.

(** [func (s *Script) AppendPushData(d []byte) error]: the script after the
    call, and the error. *)
Definition AppendPushData (s : Script) (d : list byte) : Script * option ScriptError :=
  match PushDataPrefix d with
  | inl e => (s, Some e)
  | inr p => ((s ++ p) ++ d, None)
  end.

(** [func (s *Script) AppendOpcodes(oo ...uint8) error]: push opcodes are
    refused, anything else is appended as it is. *)
Definition AppendOpcodes (s : Script) (oo : list byte) : Script * option ScriptError :=
  if existsb (fun o => (to_nat OpDATA1 <=? to_nat o) && (to_nat o <=? to_nat OpPUSHDATA4)) oo
  then (s, Some ErrInvalidOpcodeType)
  else (s ++ oo, None).

(** [func DecodeScript(b []byte) ([]*ScriptChunk, error)], the tokenizer
    behind [Chunks], on scripts made of pushes and plain opcodes: the tokens
    read before the first incomplete push, and the error if there is one.
    It reads the token grammar of [ReadOp]; every complete token takes at
    least one byte, so the length of the input is fuel enough.  The
    functions of aip.go and bap.go that call the tokenizer take it as a
    parameter. *)
Fixpoint DecodeScript_loop (fuel : nat) (b : Script) (pos : nat)
    (ops : list ScriptChunk) : list ScriptChunk * option ScriptError :=
  match fuel with
  | O => (ops, None)
  | S fuel' =>
      if pos <? length b then
        match ReadOp b pos with
        | (inr op, pos') => DecodeScript_loop fuel' b pos' (ops ++ [op])
        | (inl e, _) => (ops, Some e)
        end
      else (ops, None)
  end.

Definition DecodeScript (b : Script) : list ScriptChunk * option ScriptError :=
  DecodeScript_loop (length b) b 0 [].

End Script.

Import Script.

(** * bitcom.go *)

Module Bitcom.

Record BitcomProtocol : Type := mkProtocol {
  Protocol : list byte;
  Script : list byte;
  Pos : nat
}.

Record Bitcom : Type := mkBitcom {
  Protocols : list BitcomProtocol;
  ScriptPrefix : list byte
}.

Definition pipe : list byte := [x7c].

(** The loop of [findReturn], from cursor [i]. *)
Fixpoint findReturn_loop (fuel : nat) (scr : Script.Script) (i : nat) : run (option nat) :=
  match fuel with
  | O => Timeout
  | S fuel' =>
      if i <? length scr then
        let startPos := i in
        match ReadOp scr i with
        | (inr op, i') =>
            if Byte.eqb (Op op) OpRETURN then Done (Some startPos)
            else findReturn_loop fuel' scr i'
        | (inl _, i') => findReturn_loop fuel' scr i'
        end
      else Done None
  end.

(** [func findReturn(scr *script.Script) int]. *)
Definition findReturn (fuel : nat) (scr : option Script.Script) : run (option nat) :=
  match scr with
  | Some s => findReturn_loop fuel s 0
  | None => Done None
  end.

(** The test of [findPipe]: [op.Op == script.OpDATA1 && op.Data[0] == '|'].
    A chunk read with opcode [OpDATA1] holds exactly one byte. *)
Definition isPipe (op : ScriptChunk) : bool :=
  Byte.eqb (Op op) OpDATA1 && Byte.eqb (byteAt (Data op) 0) x7c.

Fixpoint findPipe_loop (fuel : nat) (scr : Script.Script) (i : nat) : run (option nat) :=
  match fuel with
  | O => Timeout
  | S fuel' =>
      if i <? length scr then
        let startPos := i in
        match ReadOp scr i with
        | (inr op, i') =>
            if isPipe op then Done (Some startPos)
            else findPipe_loop fuel' scr i'
        | (inl _, i') => findPipe_loop fuel' scr i'
        end
      else Done None
  end.

(** [func findPipe(scr *script.Script, from int) int]. *)
Definition findPipe (fuel : nat) (scr : option Script.Script) (from : nat) : run (option nat) :=
  match scr with
  | Some s => findPipe_loop fuel s from
  | None => Done None
  end.

(** The [for pos < len( *scr)] loop of [Decode]; [protos] is
    [bitcom.Protocols] so far. *)
Fixpoint Decode_loop (fuel : nat) (scr : Script.Script) (pos : nat)
    (protos : list BitcomProtocol) : run (list BitcomProtocol) :=
  match fuel with
  | O => Timeout
  | S fuel' =>
      if pos <? length scr then
        match findPipe fuel (Some scr) pos with
        | Timeout => Timeout
        | Done pipePos =>
            let start := pos in
            match ReadOp scr pos with
            | (inl _, _) => Done protos
            | (inr op, pos) =>
                match pipePos with
                | None =>
                    Done (protos ++ [mkProtocol (Data op) (slice scr pos (length scr)) start])
                | Some pipePos =>
                    if pipePos <? pos then
                      Done (protos ++ [mkProtocol (Data op) [] start])
                    else
                      Decode_loop fuel' scr (pipePos + 2)
                        (protos ++ [mkProtocol (Data op) (slice scr pos pipePos) start])
                end
            end
        end
      else Done protos
  end.

(** [func Decode(scr *script.Script) (bitcom *Bitcom)]; the result [None]
    is the nil envelope. *)
Definition Decode (fuel : nat) (scr : option Script.Script) : run (option Bitcom) :=
  match scr with
  | None => Done (Some (mkBitcom [] []))
  | Some s =>
      match findReturn fuel scr with
      | Timeout => Timeout
      | Done None => Done None
      | Done (Some pos) =>
          let prefix := if 0 <? pos then slice s 0 (pos - 1) else [] in
          match Decode_loop fuel s (pos + 1) [] with
          | Timeout => Timeout
          | Done protos => Done (Some (mkBitcom protos prefix))
          end
      end
  end.

(** The [for i, p := range b.Protocols] loop of [Lock]; [n] is
    [len(b.Protocols)]. *)
Fixpoint Lock_loop (s : Script.Script) (i n : nat) (ps : list BitcomProtocol) : Script.Script :=
  match ps with
  | [] => s
  | p :: rest =>
      let s := fst (AppendPushData s (Protocol p)) in
      let s := s ++ Script p in
      let s := if i <? n - 1 then fst (AppendPushData s pipe) else s in
      Lock_loop s (S i) n rest
  end.

(** [func (b *Bitcom) Lock() *script.Script]. *)
Definition Lock (b : Bitcom) : Script.Script :=
  let s := ScriptPrefix b in
  if 0 <? length (Protocols b) then
    Lock_loop (fst (AppendOpcodes s [OpRETURN])) 0 (length (Protocols b)) (Protocols b)
  else s.

End Bitcom.

Import Bitcom.

(** * aip.go *)

Module AIP.

Record AIP : Type := mkAIP {
  BitcomIndex : nat;
  Algorithm : list byte;
  Address : list byte;
  Signature : list byte;
  FieldIndexes : option (list Z);   (* [None] is the nil slice *)
  Valid : bool
}.

Definition setValid (a : AIP) (v : bool) : AIP :=
  mkAIP (BitcomIndex a) (Algorithm a) (Address a) (Signature a) (FieldIndexes a) v.

(** [unicode.IsPrint(rune(b))] on a Latin-1 code point: the graphic
    characters and the ASCII space. *)
Definition IsPrint (b : byte) : bool :=
  let n := to_nat b in
  ((32 <=? n) && (n <=? 126)) || ((161 <=? n) && negb (n =? 173)).

(** [aip.FieldIndexes == nil || slices.Contains(aip.FieldIndexes, idx)]. *)
Definition selected (fieldIndexes : option (list Z)) (idx : nat) : bool :=
  match fieldIndexes with
  | None => true
  | Some l => existsb (Z.eqb (Z.of_nat idx)) l
  end.

(** One turn of [for _, op := range tape]: what is appended to [data]. *)
Definition appendOp (fieldIndexes : option (list Z)) (op : ScriptChunk) (idx : nat)
    (data : list byte) : list byte :=
  if ((0 <? to_nat (Op op)) || (to_nat (Op op) <=? 78)) && selected fieldIndexes idx
  then data ++ Data op
  else if (67 <? to_nat (Op op)) && IsPrint (Op op) then data ++ [Op op]
  else data.

Fixpoint tapeLoop (fieldIndexes : option (list Z)) (tape : list ScriptChunk)
    (data : list byte) (idx : nat) : list byte * nat :=
  match tape with
  | [] => (data, idx)
  | op :: rest =>
      tapeLoop fieldIndexes rest (appendOp fieldIndexes op idx data) (idx + 1)
  end.

(** [for _, p := range protos]: a payload that [DecodeScript] rejects
    takes the [continue], after the tag has been appended. *)
Fixpoint protosLoop (DecodeScript : list byte -> list ScriptChunk * option ScriptError)
    (fieldIndexes : option (list Z)) (protos : list BitcomProtocol)
    (data : list byte) (idx : nat) : list byte :=
  match protos with
  | [] => data
  | p :: rest =>
      let data := data ++ Protocol p in
      match DecodeScript (Bitcom.Script p) with
      | (_, Some _) => protosLoop DecodeScript fieldIndexes rest data idx
      | (tape, None) =>
          let '(data, idx) := tapeLoop fieldIndexes tape data idx in
          protosLoop DecodeScript fieldIndexes rest (data ++ [x7c]) idx
      end
  end.

(** The buffer [data] that [validateAip] hands to [bsm.VerifyMessage]. *)
Definition signedData (DecodeScript : list byte -> list ScriptChunk * option ScriptError)
    (aip : AIP) (protos : list BitcomProtocol) : list byte :=
  protosLoop DecodeScript (FieldIndexes aip) protos [OpRETURN] 0.

(** [func validateAip(aip *AIP, protos []*BitcomProtocol)]; [verify a s m]
    is [bsm.VerifyMessage(a, s, m) == nil]. *)
Definition validateAip (DecodeScript : list byte -> list ScriptChunk * option ScriptError)
    (verify : list byte -> list byte -> list byte -> bool)
    (aip : AIP) (protos : list BitcomProtocol) : AIP :=
  if verify (Address aip) (Signature aip) (signedData DecodeScript aip protos)
  then setValid aip true
  else aip.

End AIP.

(** * bap.go *)

Module BAP.

Definition BAPPrefix : list byte := list_byte_of_string "1BAPSuaPnfGnSBM3GLV9yhxUdYe4vGbdMT".
Definition pipeSeparator : list byte := list_byte_of_string "|".

Definition ATTEST : list byte := list_byte_of_string "ATTEST".
Definition ID : list byte := list_byte_of_string "ID".
Definition REVOKE : list byte := list_byte_of_string "REVOKE".
Definition ALIAS : list byte := list_byte_of_string "ALIAS".

Record Bap : Type := mkBap {
  BitcomIndex : nat;
  Type_ : list byte;
  IDKey : list byte;
  Address : list byte;
  Sequence : N;                      (* uint64 *)
  Algorithm : list byte;
  SignerAddr : list byte;
  Signature : list byte;
  RootAddress : list byte;
  IsSignedByID : bool;
  Profile : list byte
}.

Definition bytes_eqb (a b : list byte) : bool :=
  if list_eq_dec byte_eq_dec a b then true else false.

(** ** strconv.ParseUint(s, 10, 64) *)

Inductive NumError : Type := ErrSyntax | ErrRange.

Definition maxUint64 : N := 18446744073709551615.
Definition cutoff : N := maxUint64 / 10 + 1.

Definition isDigit (c : byte) : bool :=
  (48 <=? to_nat c) && (to_nat c <=? 57).

(** The loop [for _, c := range []byte(s)] with accumulator [n].  In base
    10 a letter is a digit value that is too large and any other byte is
    not a digit at all: both are syntax errors with value 0. *)
Fixpoint ParseUint_loop (s : list byte) (n : N) : N * option NumError :=
  match s with
  | [] => (n, None)
  | c :: rest =>
      if isDigit c then
        let d := (to_N c - 48)%N in
        if (cutoff <=? n)%N then (maxUint64, Some ErrRange)
        else
          let n := (n * 10)%N in
          let n1 := ((n + d) mod 18446744073709551616)%N in
          if (n1 <? n)%N || (maxUint64 <? n1)%N then (maxUint64, Some ErrRange)
          else ParseUint_loop rest n1
      else (0%N, Some ErrSyntax)
  end.

Definition ParseUint (s : list byte) : N * option NumError :=
  match s with
  | [] => (0%N, Some ErrSyntax)
  | _ => ParseUint_loop s 0
  end.

(** ** DecodeBAP *)

Definition chunkData (chunks : list ScriptChunk) (i : nat) : list byte :=
  Data (nth i chunks (mkChunk x00 [])).

(** [for i := 3; i < len(chunks); i++] looking for the pipe chunk;
    [None] is [pipeIdx == -1]. *)
Fixpoint findPipeIdx (chunks : list ScriptChunk) (i : nat) : option nat :=
  match chunks with
  | [] => None
  | c :: rest =>
      if (3 <=? i) && bytes_eqb (Data c) pipeSeparator then Some i
      else findPipeIdx rest (S i)
  end.

(** The block [if pipeIdx >= 0 && pipeIdx+3 < len(chunks)], shared by the
    four cases; [byID] tells the [ID] case, which also records the root
    address and sets [IsSignedByID]. *)
Definition attachSignature (byID : bool) (chunks : list ScriptChunk) (bap : Bap) : Bap :=
  match findPipeIdx chunks 0 with
  | Some pipeIdx =>
      if pipeIdx + 3 <? length chunks then
        let algorithm := chunkData chunks (pipeIdx + 2) in
        let signer := chunkData chunks (pipeIdx + 3) in
        if pipeIdx + 4 <? length chunks then
          mkBap (BitcomIndex bap) (Type_ bap) (IDKey bap) (Address bap) (Sequence bap)
            algorithm signer (chunkData chunks (pipeIdx + 4))
            (if byID then signer else RootAddress bap)
            byID (Profile bap)
        else
          mkBap (BitcomIndex bap) (Type_ bap) (IDKey bap) (Address bap) (Sequence bap)
            algorithm signer (Signature bap) (RootAddress bap) (IsSignedByID bap)
            (Profile bap)
      else bap
  | None => bap
  end.

(** The [switch bap.Type] of [DecodeBAP], on the chunks of one payload. *)
Definition decodeFields (ii : nat) (chunks : list ScriptChunk) : Bap :=
  let ty := chunkData chunks 0 in
  let bap := mkBap ii ty [] [] 0 [] [] [] [] false [] in
  if bytes_eqb ty ID then
    if 3 <=? length chunks then
      attachSignature true chunks
        (mkBap ii ty (chunkData chunks 1) (chunkData chunks 2) 0 [] [] [] [] false [])
    else bap
  else if bytes_eqb ty ATTEST || bytes_eqb ty REVOKE then
    if 3 <=? length chunks then
      attachSignature false chunks
        (mkBap ii ty (chunkData chunks 1) [] (fst (ParseUint (chunkData chunks 2)))
           [] [] [] [] false [])
    else bap
  else if bytes_eqb ty ALIAS then
    if 3 <=? length chunks then
      attachSignature false chunks
        (mkBap ii ty (chunkData chunks 1) [] 0 [] [] [] [] false (chunkData chunks 2))
    else bap
  else bap.

(** [strings.Index], [strings.SplitN] with a separator that is not empty. *)
Fixpoint hasPrefix (s prefix : list byte) : bool :=
  match prefix, s with
  | [], _ => true
  | p :: ps, c :: cs => Byte.eqb p c && hasPrefix cs ps
  | _ :: _, [] => false
  end.

Fixpoint Index (s substr : list byte) : option nat :=
  match s with
  | [] => if hasPrefix [] substr then Some 0 else None
  | _ :: rest =>
      if hasPrefix s substr then Some 0 else option_map S (Index rest substr)
  end.

Fixpoint SplitN (n : nat) (s sep : list byte) : list (list byte) :=
  match n with
  | O => []
  | S O => [s]
  | S n' =>
      match Index s sep with
      | None => [s]
      | Some i => slice s 0 i :: SplitN n' (skipn (i + length sep) s) sep
      end
  end.

Definition space : list byte := [x20].

(** The second tier of [DecodeBAP], taken when the payload does not
    tokenize into two chunks or more: a search for "ID", then for "ATTEST",
    in the raw payload.  [None] is its [continue].  [TrimSpace] is
    [strings.TrimSpace], which knows the Unicode white space; it is a
    parameter of the model. *)
Definition fallback (TrimSpace : list byte -> list byte) (ii : nat)
    (scriptStr : list byte) : option Bap :=
  match Index scriptStr ID with
  | Some _ =>
      let parts := SplitN 2 scriptStr ID in
      if 1 <? length parts then
        let remainingParts := SplitN 3 (nth 1 parts []) space in
        if 2 <=? length remainingParts then
          Some (mkBap ii ID (TrimSpace (nth 0 remainingParts []))
                  (TrimSpace (nth 1 remainingParts [])) 0 [] [] [] [] false [])
        else None
      else None
  | None =>
      match Index scriptStr ATTEST with
      | Some _ =>
          let parts := SplitN 2 scriptStr ATTEST in
          if 1 <? length parts then
            let remainingParts := SplitN 3 (nth 1 parts []) space in
            if 2 <=? length remainingParts then
              Some (mkBap ii ATTEST (TrimSpace (nth 0 remainingParts [])) []
                      (fst (ParseUint (nth 1 remainingParts [])))
                      [] [] [] [] false [])
            else None
          else None
      | None => None
      end
  end.

(** [for ii, proto := range b.Protocols].  [Chunks] is the tokenizer
    [scr.Chunks()], that is [DecodeScript] on the payload. *)
Fixpoint protosLoop (Chunks : list byte -> list ScriptChunk * option ScriptError)
    (TrimSpace : list byte -> list byte)
    (protos : list BitcomProtocol) (ii : nat) : option Bap :=
  match protos with
  | [] => None
  | proto :: rest =>
      if bytes_eqb (Protocol proto) BAPPrefix then
        match Chunks (Bitcom.Script proto) with
        | (chunks, err) =>
            if (match err with Some _ => true | None => false end)
               || (length chunks <? 2)
            then
              match fallback TrimSpace ii (Bitcom.Script proto) with
              | Some bap => Some bap
              | None => protosLoop Chunks TrimSpace rest (S ii)
              end
            else Some (decodeFields ii chunks)
        end
      else protosLoop Chunks TrimSpace rest (S ii)
  end.

(** [func DecodeBAP(b *Bitcom) *Bap]. *)
Definition DecodeBAP (Chunks : list byte -> list ScriptChunk * option ScriptError)
    (TrimSpace : list byte -> list byte) (b : option Bitcom) : option Bap :=
  match b with
  | None => None
  | Some b => protosLoop Chunks TrimSpace (Protocols b) 0
  end.

End BAP.

(** * encoding/base64, the standard encoding with padding *)

Module Base64.

Definition alphabet : list byte :=
  list_byte_of_string "ABCDEFGHIJKLMNOPQRSTUVWXYZabcdefghijklmnopqrstuvwxyz0123456789+/".

Definition padChar : byte := x3d.

Definition encodeChar (v : N) : byte := nth (N.to_nat (v mod 64)) alphabet x00.

(** [StdEncoding.EncodeToString]. *)
Fixpoint EncodeToString (src : list byte) : list byte :=
  match src with
  | [] => []
  | [a] =>
      let v := (to_N a * 65536)%N in
      [encodeChar (v / 262144); encodeChar (v / 4096); padChar; padChar]
  | [a; b] =>
      let v := (to_N a * 65536 + to_N b * 256)%N in
      [encodeChar (v / 262144); encodeChar (v / 4096); encodeChar (v / 64); padChar]
  | a :: b :: c :: rest =>
      let v := (to_N a * 65536 + to_N b * 256 + to_N c)%N in
      encodeChar (v / 262144) :: encodeChar (v / 4096) :: encodeChar (v / 64)
        :: encodeChar v :: EncodeToString rest
  end.

Fixpoint indexOf (c : byte) (l : list byte) (i : N) : option N :=
  match l with
  | [] => None
  | x :: rest => if Byte.eqb x c then Some i else indexOf c rest (i + 1)%N
  end.

Definition decodeChar (c : byte) : option N := indexOf c alphabet 0.

Definition isNewline (c : byte) : bool := Byte.eqb c x0a || Byte.eqb c x0d.

Definition isNil (l : list byte) : bool :=
  match l with [] => true | _ => false end.

(** One quantum of four characters at a time, on input without line
    breaks: three bytes, or one or two before the padding that must end
    the input. *)
Fixpoint decodeQuanta (fuel : nat) (src : list byte) : option (list byte) :=
  match fuel with
  | O => match src with [] => Some [] | _ => None end
  | S fuel' =>
      match src with
      | [] => Some []
      | c0 :: c1 :: c2 :: c3 :: rest =>
          match decodeChar c0, decodeChar c1 with
          | Some v0, Some v1 =>
              if Byte.eqb c2 padChar then
                if Byte.eqb c3 padChar && isNil rest
                then Some [byte_of_N (v0 * 4 + v1 / 16)]
                else None
              else
                match decodeChar c2 with
                | Some v2 =>
                    if Byte.eqb c3 padChar then
                      if isNil rest
                      then Some [byte_of_N (v0 * 4 + v1 / 16);
                                 byte_of_N (v1 * 16 + v2 / 4)]
                      else None
                    else
                      match decodeChar c3, decodeQuanta fuel' rest with
                      | Some v3, Some out =>
                          Some (byte_of_N (v0 * 4 + v1 / 16)
                                :: byte_of_N (v1 * 16 + v2 / 4)
                                :: byte_of_N (v2 * 64 + v3) :: out)
                      | _, _ => None
                      end
                | None => None
                end
          | _, _ => None
          end
      | _ => None
      end
  end.

(** [StdEncoding.DecodeString]: carriage returns and line feeds are
    skipped wherever they stand; [None] is a [CorruptInputError]. *)
Definition DecodeString (s : list byte) : option (list byte) :=
  let src := filter (fun c => negb (isNewline c)) s in
  decodeQuanta (length src) src.

End Base64.

(** * sigma.go *)

Module Sigma.

Inductive SigmaError : Type :=
| ErrInsufficientData
| ErrMissingMessageData
| ErrMissingTransactionData
| ErrFailedToGenerateMessageHash
| ErrUnsupportedSignatureAlgorithm
| ErrDecodeSignature          (* "failed to decode base64 signature" *)
| ErrVerificationFailed.      (* the wrapped error of [bsm.VerifyMessage] *)

(** A Go run-time panic (an index out of range). *)
Inductive outcome (A : Type) : Type :=
| Ret (a : A)
| Panic.
Arguments Ret {A} a.
Arguments Panic {A}.

Definition SIGMAPrefix : list byte := list_byte_of_string "SIGMA".
Definition AlgoECDSA : list byte := list_byte_of_string "ECDSA".
Definition AlgoSHA256ECDSA : list byte := list_byte_of_string "SHA256-ECDSA".
Definition AlgoBSM : list byte := list_byte_of_string "BSM".

(** The fields of [transaction.Transaction] that sigma.go reads.
    [SourceTXID] holds the 32 bytes of the [chainhash.Hash] in the order
    [CloneBytes] returns them, the reverse of the order in which a
    transaction id is written. *)
Record TransactionInput : Type := mkInput {
  SourceTXID : option (list byte);
  SourceTxOutIndex : N               (* uint32 *)
}.

Record TransactionOutput : Type := mkOutput {
  LockingScript : option Script.Script
}.

Record Transaction : Type := mkTx {
  Inputs : list (option TransactionInput);
  Outputs : list TransactionOutput
}.

Record Sigma : Type := mkSigma {
  Algorithm : list byte;
  SignerAddress : list byte;
  SignatureValue : list byte;
  Message : list byte;
  Nonce : list byte;
  VIN : Z;
  Valid : bool;
  Transaction_ : option Transaction;
  TargetOutput : Z;
  TargetInput : Z;
  SigmaInstance : Z
}.

Definition setValid (s : Sigma) (v : bool) : Sigma :=
  mkSigma (Algorithm s) (SignerAddress s) (SignatureValue s) (Message s) (Nonce s)
    (VIN s) v (Transaction_ s) (TargetOutput s) (TargetInput s) (SigmaInstance s).

Definition bytes_eqb (a b : list byte) : bool :=
  if list_eq_dec byte_eq_dec a b then true else false.

Definition isNil (l : list byte) : bool :=
  match l with [] => true | _ => false end.

(** [func (s *Sigma) GetSignatureBytes() ([]byte, error)]. *)
Definition GetSignatureBytes (s : Sigma) : option (list byte) * option SigmaError :=
  if isNil (SignatureValue s) then (None, None)
  else
    match Base64.DecodeString (SignatureValue s) with
    | Some decoded => (Some decoded, None)
    | None => (None, Some ErrDecodeSignature)
    end.

Definition bytesOrNil (o : option (list byte)) : list byte :=
  match o with Some b => b | None => [] end.

Definition testAddress : list byte :=
  list_byte_of_string "1EXhSbGFiEAZCE5eeBvUxT6cBVHhrpPWXz".
Definition testMessage : list byte := list_byte_of_string "Hello, World!".
Definition testSignature : list byte :=
  list_byte_of_string
    "H89DSY12iMmrF16T4aDPwFcqrtuGxyoT69yTBH4GqXyzNZ+POVhxV5FLAvHdwKmJ0IhQT/w7JQpTg0XBZ5zeJ+c=".

Section Capabilities.

(** [verify a s m] is [bsm.VerifyMessage(a, s, m) == nil]; [sha256] is
    [sha256.Sum256]. *)
Variable verify : list byte -> list byte -> list byte -> bool.
Variable sha256 : list byte -> list byte.

(** [func (s *Sigma) VerifyMessageSignature() error]: the receiver after
    the call, and the error. *)
Definition VerifyMessageSignature (s : Sigma) : Sigma * option SigmaError :=
  if isNil (SignerAddress s) || isNil (SignatureValue s) || isNil (Message s)
  then (s, Some ErrMissingMessageData)
  else
    match GetSignatureBytes s with
    | (_, Some err) => (s, Some err)
    | (sigBytes, None) =>
        if bytes_eqb (Algorithm s) AlgoBSM then
          if verify (SignerAddress s) (bytesOrNil sigBytes) (Message s)
          then (setValid s true, None)
          else if bytes_eqb (SignerAddress s) testAddress
                  && bytes_eqb (Message s) testMessage
                  && bytes_eqb (SignatureValue s) testSignature
          then (setValid s true, None)
          else (s, Some ErrVerificationFailed)
        else if bytes_eqb (Algorithm s) AlgoECDSA
                || bytes_eqb (Algorithm s) AlgoSHA256ECDSA then
          if verify (SignerAddress s) (bytesOrNil sigBytes) (Message s)
          then (setValid s true, None)
          else (s, Some ErrVerificationFailed)
        else (s, Some ErrUnsupportedSignatureAlgorithm)
    end.

(** [binary.LittleEndian.PutUint32]. *)
Definition PutUint32 (v : N) : list byte :=
  [byte_of_N v; byte_of_N (v / 256); byte_of_N (v / 65536); byte_of_N (v / 16777216)].

(** [func (s *Sigma) getInputHash() []byte]; [Ret None] is nil. *)
Definition getInputHash (s : Sigma) : outcome (option (list byte)) :=
  match Transaction_ s with
  | None => Ret None
  | Some tx =>
      if length (Inputs tx) =? 0 then Ret None
      else
        let vin := VIN s in
        let vin :=
          if (vin <? 0)%Z || (Z.of_nat (length (Inputs tx)) <=? vin)%Z
          then TargetOutput s else vin in
        if (vin <? 0)%Z || (Z.of_nat (length (Inputs tx)) <=? vin)%Z then Panic
        else
          match nth (Z.to_nat vin) (Inputs tx) None with
          | None => Ret None
          | Some input =>
              match SourceTXID input with
              | None => Ret None
              | Some txidBytes =>
                  let voutBytes := PutUint32 (SourceTxOutIndex input) in
                  let outpointBytes := txidBytes ++ voutBytes in
                  Ret (Some (sha256 outpointBytes))
              end
          end
  end.

(** The test that opens a SIGMA occurrence in [getDataHash]:
    [op.Op == OpRETURN || (op.Op == OpPUSHDATA1 && len(op.Data) == 1 &&
    op.Data[0] == '|')]. *)
Definition isMarker (op : ScriptChunk) : bool :=
  Byte.eqb (Op op) OpRETURN
  || (Byte.eqb (Op op) OpPUSHDATA1 && (length (Data op) =? 1)
      && Byte.eqb (byteAt (Data op) 0) x7c).

(** The loop [for pos := 0; pos < len(scriptBytes);] of [getDataHash]:
    the bytes that are hashed.  Every turn that does not leave the loop
    has read a complete token, so the cursor moves on and the length of
    the script is fuel enough. *)
Fixpoint dataLoop (fuel : nat) (scriptBytes : Script.Script) (instance : Z)
    (pos prevPos : nat) (occurrences : Z) : list byte :=
  match fuel with
  | O => scriptBytes
  | S fuel' =>
      if pos <? length scriptBytes then
        match ReadOp scriptBytes pos with
        | (inl _, _) => scriptBytes
        | (inr op, pos) =>
            if isMarker op then
              match ReadOp scriptBytes pos with
              | (inl _, _) => scriptBytes
              | (inr nextOp, pos) =>
                  if bytes_eqb (Data nextOp) SIGMAPrefix then
                    if (occurrences =? instance)%Z
                    then slice scriptBytes 0 prevPos
                    else dataLoop fuel' scriptBytes instance pos pos (occurrences + 1)
                  else dataLoop fuel' scriptBytes instance pos pos occurrences
              end
            else dataLoop fuel' scriptBytes instance pos pos occurrences
        end
      else scriptBytes
  end.

(** [func (s *Sigma) getDataHash() []byte]. *)
Definition getDataHash (s : Sigma) : outcome (option (list byte)) :=
  match Transaction_ s with
  | None => Ret None
  | Some tx =>
      if (Z.of_nat (length (Outputs tx)) <=? TargetOutput s)%Z then Ret None
      else if (TargetOutput s <? 0)%Z then Panic
      else
        match LockingScript (nth (Z.to_nat (TargetOutput s)) (Outputs tx) (mkOutput None)) with
        | None => Ret None
        | Some scriptBytes =>
            Ret (Some (sha256 (dataLoop (length scriptBytes) scriptBytes
                                 (SigmaInstance s) 0 0 0)))
        end
  end.

(** [func (s *Sigma) getMessageHash() []byte]. *)
Definition getMessageHash (s : Sigma) : outcome (option (list byte)) :=
  match getInputHash s with
  | Panic => Panic
  | Ret inputHash =>
      match getDataHash s with
      | Panic => Panic
      | Ret dataHash =>
          match inputHash, dataHash with
          | Some inputHash, Some dataHash =>
              let combinedBytes := inputHash ++ dataHash in
              let firstHash := sha256 combinedBytes in
              let secondHash := sha256 firstHash in
              Ret (Some secondHash)
          | _, _ => Ret None
          end
      end
  end.

(** [func (s *Sigma) VerifyTransactionSignature() error]. *)
Definition VerifyTransactionSignature (s : Sigma) : outcome (Sigma * option SigmaError) :=
  if isNil (SignerAddress s) || isNil (SignatureValue s)
     || (match Transaction_ s with None => true | Some _ => false end)
  then Ret (s, Some ErrMissingTransactionData)
  else
    match GetSignatureBytes s with
    | (_, Some err) => Ret (s, Some err)
    | (sigBytes, None) =>
        match getMessageHash s with
        | Panic => Panic
        | Ret None => Ret (s, Some ErrFailedToGenerateMessageHash)
        | Ret (Some msgHash) =>
            if bytes_eqb (Algorithm s) AlgoBSM
               || bytes_eqb (Algorithm s) AlgoECDSA
               || bytes_eqb (Algorithm s) AlgoSHA256ECDSA then
              if verify (SignerAddress s) (bytesOrNil sigBytes) msgHash
              then Ret (setValid s true, None)
              else Ret (s, Some ErrVerificationFailed)
            else Ret (s, Some ErrUnsupportedSignatureAlgorithm)
        end
    end.

(** The body of [if proto.Protocol == SIGMAPrefix] in [DecodeSIGMA], up
    to the validation: the record read from one payload, [None] where
    the code takes [continue]. *)
Definition readFields (payload : list byte) : option Sigma :=
  match ReadOp payload 0 with
  | (inl _, _) => None
  | (inr op1, pos) =>
      let algorithm :=
        if (1 <? length (Data op1)) && Byte.eqb (byteAt (Data op1) 0) x03
        then skipn 1 (Data op1) else Data op1 in
      match ReadOp payload pos with
      | (inl _, _) => None
      | (inr op2, pos) =>
          let signer :=
            if (1 <? length (Data op2)) && Byte.eqb (byteAt (Data op2) 0) x22
            then slice (Data op2) 1 (length (Data op2) - 1) else Data op2 in
          match ReadOp payload pos with
          | (inl _, _) => None
          | (inr op3, pos) =>
              let signature := Base64.EncodeToString (Data op3) in
              let sigma := mkSigma algorithm signer signature [] [] 0 false None 0 0 0 in
              match ReadOp payload pos with
              | (inl _, _) => Some sigma
              | (inr op4, pos) =>
                  if (length (Data op4) =? 1)
                     && (48 <=? to_nat (byteAt (Data op4) 0))
                     && (to_nat (byteAt (Data op4) 0) <=? 57)
                  then
                    Some (mkSigma algorithm signer signature [] []
                            (Z.of_nat (to_nat (byteAt (Data op4) 0) - 48))
                            false None 0 0 0)
                  else
                    match ReadOp payload pos with
                    | (inr op5, _) =>
                        Some (mkSigma algorithm signer signature (Data op4) (Data op5)
                                0 false None 0 0 0)
                    | (inl _, _) =>
                        Some (mkSigma algorithm signer signature (Data op4) []
                                0 false None 0 0 0)
                    end
              end
          end
      end
  end.

(** "Validate the signature if we have the necessary data". *)
Definition validate (sigma : Sigma) : outcome Sigma :=
  if negb (isNil (SignerAddress sigma)) && negb (isNil (SignatureValue sigma)) then
    if negb (isNil (Message sigma)) then Ret (fst (VerifyMessageSignature sigma))
    else
      match Transaction_ sigma with
      | Some _ =>
          match VerifyTransactionSignature sigma with
          | Ret (sigma, _) => Ret sigma
          | Panic => Panic
          end
      | None => Ret (setValid sigma true)
      end
  else Ret sigma.

(** [for _, proto := range b.Protocols]. *)
Fixpoint protosLoop (protos : list BitcomProtocol) (signatures : list Sigma)
    : outcome (list Sigma) :=
  match protos with
  | [] => Ret signatures
  | proto :: rest =>
      if bytes_eqb (Protocol proto) SIGMAPrefix then
        match readFields (Bitcom.Script proto) with
        | None => protosLoop rest signatures
        | Some sigma =>
            match validate sigma with
            | Ret sigma => protosLoop rest (signatures ++ [sigma])
            | Panic => Panic
            end
        end
      else protosLoop rest signatures
  end.

(** [func DecodeSIGMA(b *Bitcom) []*Sigma]. *)
Definition DecodeSIGMA (b : option Bitcom) : outcome (list Sigma) :=
  match b with
  | None => Ret []
  | Some b => protosLoop (Protocols b) []
  end.

(** [func (s *Sigma) Verify() error]. *)
Definition Verify (s : Sigma) : outcome (Sigma * option SigmaError) :=
  if negb (isNil (Message s)) then Ret (VerifyMessageSignature s)
  else
    match Transaction_ s with
    | Some _ => VerifyTransactionSignature s
    | None => Ret (s, Some ErrInsufficientData)
    end.

(** The three assignments of [DecodeFromTransaction] that give a record its
    transaction context. *)
Definition setContext (tx : Transaction) (outputIdx instanceIdx : nat) (s : Sigma) : Sigma :=
  mkSigma (Algorithm s) (SignerAddress s) (SignatureValue s) (Message s) (Nonce s)
    (VIN s) (Valid s) (Some tx) (Z.of_nat outputIdx) (TargetInput s)
    (Z.of_nat instanceIdx).

(** [for instanceIdx, sigma := range signatures]: the records after the
    loop has written to them. *)
Fixpoint contextLoop (tx : Transaction) (outputIdx : nat) (signatures : list Sigma)
    (instanceIdx : nat) : outcome (list Sigma) :=
  match signatures with
  | [] => Ret []
  | sigma :: rest =>
      match VerifyTransactionSignature (setContext tx outputIdx instanceIdx sigma) with
      | Panic => Panic
      | Ret (sigma, _) =>
          match contextLoop tx outputIdx rest (S instanceIdx) with
          | Panic => Panic
          | Ret rest => Ret (sigma :: rest)
          end
      end
  end.

(** [for outputIdx, output := range tx.Outputs]. *)
Fixpoint outputsLoop (fuel : nat) (tx : Transaction) (outputs : list TransactionOutput)
    (outputIdx : nat) (allSignatures : list Sigma) : run (outcome (list Sigma)) :=
  match outputs with
  | [] => Done (Ret allSignatures)
  | output :: rest =>
      match LockingScript output with
      | None => outputsLoop fuel tx rest (S outputIdx) allSignatures
      | Some scr =>
          match Decode fuel (Some scr) with
          | Timeout => Timeout
          | Done None => outputsLoop fuel tx rest (S outputIdx) allSignatures
          | Done (Some b) =>
              match DecodeSIGMA (Some b) with
              | Panic => Done Panic
              | Ret signatures =>
                  if length signatures =? 0
                  then outputsLoop fuel tx rest (S outputIdx) allSignatures
                  else
                    match contextLoop tx outputIdx signatures 0 with
                    | Panic => Done Panic
                    | Ret signatures =>
                        outputsLoop fuel tx rest (S outputIdx)
                          (allSignatures ++ signatures)
                    end
              end
          end
      end
  end.

(** [func DecodeFromTransaction(tx *transaction.Transaction) []*Sigma]. *)
Definition DecodeFromTransaction (fuel : nat) (tx : option Transaction)
    : run (outcome (list Sigma)) :=
  match tx with
  | None => Done (Ret [])
  | Some tx => outputsLoop fuel tx (Outputs tx) 0 []
  end.

End Capabilities.

End Sigma.

(** * strconv.Atoi, on a 64-bit platform *)

Module Strconv.

(** [strconv.ParseInt(s, 10, 0)]: the sign is taken off, [ParseUint] reads
    the rest, and the result must fit an [int64]. *)
Definition ParseInt (s : list byte) : Z * option BAP.NumError :=
  match s with
  | [] => (0%Z, Some BAP.ErrSyntax)
  | c :: rest =>
      let neg := Byte.eqb c x2d in
      let s := if Byte.eqb c x2b || Byte.eqb c x2d then rest else s in
      match BAP.ParseUint s with
      | (_, Some BAP.ErrSyntax) => (0%Z, Some BAP.ErrSyntax)
      | (un, _) =>
          let cutoff := 9223372036854775808%N in
          if negb neg && (cutoff <=? un)%N
          then (Z.of_N (cutoff - 1), Some BAP.ErrRange)
          else if neg && (cutoff <? un)%N
          then ((- Z.of_N cutoff)%Z, Some BAP.ErrRange)
          else ((if neg then - Z.of_N un else Z.of_N un)%Z, None)
      end
  end.

(** The loop of the fast path: [ch -= '0'] is taken in a byte, so that a
    byte below '0' wraps above 9. *)
Fixpoint atoiLoop (s : list byte) (n : Z) : option Z :=
  match s with
  | [] => Some n
  | ch :: rest =>
      let ch := ((to_N ch + 256 - 48) mod 256)%N in
      if (9 <? ch)%N then None
      else atoiLoop rest (n * 10 + Z.of_N ch)%Z
  end.

(** [func Atoi(s string) (int, error)]. *)
Definition Atoi (s : list byte) : Z * option BAP.NumError :=
  if (0 <? length s) && (length s <? 19) then
    let s0 := s in
    let signed := Byte.eqb (byteAt s 0) x2d || Byte.eqb (byteAt s 0) x2b in
    let s := if signed then skipn 1 s else s in
    if signed && (length s <? 1) then (0%Z, Some BAP.ErrSyntax)
    else
      match atoiLoop s 0 with
      | None => (0%Z, Some BAP.ErrSyntax)
      | Some n => ((if Byte.eqb (byteAt s0 0) x2d then - n else n)%Z, None)
      end
  else ParseInt s.

End Strconv.

(** * aip.go: DecodeAIP *)

Module AIPDecoder.

Definition AIPPrefix : list byte :=
  list_byte_of_string "15PciHG22SNLQJXMoSUaWVi7WSqc7hCfva".

(** [for i := 3; i < len(chunks); i++] on the chunks from the fourth on:
    the loop stops at the first chunk that [Atoi] refuses. *)
Fixpoint fieldIndexesLoop (chunks : list ScriptChunk) (fieldIndexes : option (list Z))
    : option (list Z) :=
  match chunks with
  | [] => fieldIndexes
  | c :: rest =>
      match Strconv.Atoi (Data c) with
      | (_, Some _) => fieldIndexes
      | (index, None) =>
          fieldIndexesLoop rest
            (Some (match fieldIndexes with Some l => l | None => [] end ++ [index]))
      end
  end.

Section Capabilities.

Variable Chunks : list byte -> list ScriptChunk * option ScriptError.
Variable verify : list byte -> list byte -> list byte -> bool.

(** [for protoIdx, proto := range b.Protocols]; [all] is [b.Protocols],
    [protos] what is left of it from [protoIdx] on.  The tokenizer that
    [validateAip] calls is the one behind [Chunks]. *)
Fixpoint protosLoop (all protos : list BitcomProtocol) (protoIdx : nat)
    (aips : list AIP.AIP) : list AIP.AIP :=
  match protos with
  | [] => aips
  | proto :: rest =>
      if BAP.bytes_eqb (Protocol proto) AIPPrefix then
        match Chunks (Bitcom.Script proto) with
        | (chunks, err) =>
            if (match err with Some _ => true | None => false end)
               || (length chunks <? 3)
            then protosLoop all rest (S protoIdx) aips
            else
              let aip :=
                AIP.mkAIP protoIdx (BAP.chunkData chunks 0) (BAP.chunkData chunks 1)
                  (BAP.chunkData chunks 2) (fieldIndexesLoop (skipn 3 chunks) None)
                  false in
              let aip := AIP.validateAip Chunks verify aip (firstn protoIdx all) in
              protosLoop all rest (S protoIdx) (aips ++ [aip])
        end
      else protosLoop all rest (S protoIdx) aips
  end.

(** [func DecodeAIP(b *Bitcom) []*AIP]. *)
Definition DecodeAIP (b : option Bitcom) : list AIP.AIP :=
  match b with
  | None => []
  | Some b => protosLoop (Protocols b) (Protocols b) 0 []
  end.

End Capabilities.

End AIPDecoder.

(** * pow20: uint64ToBytes *)

Module Pow20.

(** [binary.BigEndian.AppendUint64([]byte{}, v)]. *)
Definition AppendUint64 (v : N) : list byte :=
  [byte_of_N (v / 72057594037927936); byte_of_N (v / 281474976710656);
   byte_of_N (v / 1099511627776); byte_of_N (v / 4294967296);
   byte_of_N (v / 16777216); byte_of_N (v / 65536); byte_of_N (v / 256);
   byte_of_N v].

(** [for i, b := range bigEndianBytes]; [rest] is [bigEndianBytes[i:]]. *)
Fixpoint stripLoop (bigEndianBytes rest : list byte) (i : nat) (val : list byte)
    : list byte :=
  match rest with
  | [] => val
  | b :: rest' =>
      if (i <? length bigEndianBytes - 1) && Byte.eqb b x00
         && (N.land (to_N (byteAt bigEndianBytes (i + 1))) 128 =? 0)%N
         && (length val =? 0)
      then stripLoop bigEndianBytes rest' (i + 1) val
      else stripLoop bigEndianBytes rest' (i + 1) (val ++ [b])
  end.

(** [func uint64ToBytes(v uint64) []byte]; [util.ReverseBytes] is [rev]. *)
Definition uint64ToBytes (v : N) : list byte :=
  let bigEndianBytes := AppendUint64 v in
  rev (stripLoop bigEndianBytes bigEndianBytes 0 []).

End Pow20.

(** * Vocabulary of the statements *)

Module Spec.

(** [tokens P s]: read from its first byte, [s] is a sequence of complete
    tokens that all satisfy [P], with nothing left over. *)
Fixpoint tokens_loop (fuel : nat) (P : ScriptChunk -> bool) (s : list byte) (pos : nat) : bool :=
  match fuel with
  | O => length s <=? pos
  | S fuel' =>
      if pos <? length s then
        match ReadOp s pos with
        | (inr op, pos') => P op && tokens_loop fuel' P s pos'
        | (inl _, _) => false
        end
      else true
  end.

Definition tokens (P : ScriptChunk -> bool) (s : list byte) : bool :=
  tokens_loop (length s) P s 0.

Definition notReturn (op : ScriptChunk) : bool := negb (Byte.eqb (Op op) OpRETURN).
Definition notPipe (op : ScriptChunk) : bool := negb (isPipe op).

(** The same, as a derivation: [tok] is the encoding of one chunk. *)
Inductive Tokens (P : ScriptChunk -> bool) : list byte -> Prop :=
| Tokens_nil : Tokens P []
| Tokens_cons tok op rest :
    ReadOp tok 0 = (inr op, length tok) ->
    P op = true ->
    Tokens P rest ->
    Tokens P (tok ++ rest).

(** An entry the builder can carry: its tag is not the delimiter and fits
    a push, and its payload is a sequence of complete tokens none of which
    is the delimiter token. *)
Definition entryOk (p : BitcomProtocol) : bool :=
  negb (BAP.bytes_eqb (Protocol p) pipe)
  && (N.of_nat (length (Protocol p)) <=? 4294967295)%N
  && tokens notPipe (Bitcom.Script p).

Definition entryPair (p : BitcomProtocol) : list byte * list byte :=
  (Protocol p, Bitcom.Script p).

(** What [Lock] writes after the marker. *)
Fixpoint encodeEntries (ps : list BitcomProtocol) : list byte :=
  match ps with
  | [] => []
  | p :: rest =>
      fst (AppendPushData [] (Protocol p)) ++ Bitcom.Script p
      ++ match rest with
         | [] => []
         | _ :: _ => fst (AppendPushData [] pipe) ++ encodeEntries rest
         end
  end.

(** The loop shared by [findReturn] and [findPipe]: the start of the
    first token, read from cursor [i] on, that satisfies [hit]. *)
Fixpoint scan (hit : ScriptChunk -> bool) (fuel : nat) (scr : list byte) (i : nat)
    : run (option nat) :=
  match fuel with
  | O => Timeout
  | S fuel' =>
      if i <? length scr then
        match ReadOp scr i with
        | (inr op, i') => if hit op then Done (Some i) else scan hit fuel' scr i'
        | (inl _, i') => scan hit fuel' scr i'
        end
      else Done None
  end.

Definition isReturn (op : ScriptChunk) : bool := Byte.eqb (Op op) OpRETURN.

(** The cursor positions of a scan that looks for a token satisfying
    [hit]: [Cursor hit scr i q] when the scan started at [i] reaches [q]
    having passed only tokens (or failed reads) that are not hits. *)
Definition isHit (hit : ScriptChunk -> bool) (r : ScriptError + ScriptChunk) : bool :=
  match r with
  | inr op => hit op
  | inl _ => false
  end.

Inductive Cursor (hit : ScriptChunk -> bool) (scr : list byte) : nat -> nat -> Prop :=
| Cursor_here i : Cursor hit scr i i
| Cursor_step i r i' q :
    i < length scr ->
    ReadOp scr i = (r, i') ->
    isHit hit r = false ->
    Cursor hit scr i' q ->
    Cursor hit scr i q.

(** A decimal number: one digit or more and nothing else. *)
Definition isDecimal (s : list byte) : bool :=
  match s with
  | [] => false
  | _ => forallb BAP.isDigit s
  end.

(** The digits a token starts with, and the number they spell after the
    digits already read have given [n]. *)
Fixpoint leadingDigits (s : list byte) : list byte :=
  match s with
  | [] => []
  | c :: rest => if BAP.isDigit c then c :: leadingDigits rest else []
  end.

Fixpoint decimalValue (n : N) (digits : list byte) : N :=
  match digits with
  | [] => n
  | c :: rest => decimalValue (n * 10 + (to_N c - 48)) rest
  end.

(** An envelope entry of the attestation protocol is decoded from the
    first entry that carries its tag. *)
Definition noBAP (protos : list BitcomProtocol) : bool :=
  forallb (fun p => negb (BAP.bytes_eqb (Protocol p) BAP.BAPPrefix)) protos.

(** A record of DecodeSIGMA that was given no transaction, and is marked
    valid if it has an address and a signature and no message. *)
Definition trusted (s : Sigma.Sigma) : Prop :=
  Sigma.Transaction_ s = None
  /\ (Sigma.SignerAddress s <> [] -> Sigma.SignatureValue s <> [] ->
      Sigma.Message s = [] -> Sigma.Valid s = true).

(** Any token at all. *)
Definition anyOp (op : ScriptChunk) : bool := true.

(** The entries as Decode cuts them out of [scr] from offset [pos] on.
    There is none when no tag can be read at [pos].  Otherwise the first
    entry has its Pos at [pos] and the data of the token read there as its
    tag, and the scan for the delimiter that starts at that token decides
    the rest: if it comes to the end of the script without meeting the push
    01 7C, the payload is all that follows the tag token and the entry is
    the last; if the first push 01 7C it meets is at [e], the payload is the
    slice from the end of the tag token to [e] (empty, and the entry the
    last, when the tag token is itself that push), and the entries that
    follow are those cut out from [e + 2] on. *)
Fixpoint entriesFrom (scr : list byte) (pos : nat) (protos : list BitcomProtocol)
    : Prop :=
  match protos with
  | [] => length scr <= pos \/ exists err pos', ReadOp scr pos = (inl err, pos')
  | p :: rest =>
      Pos p = pos
      /\ exists op pos',
           ReadOp scr pos = (inr op, pos')
           /\ Protocol p = Data op
           /\ ((Cursor isPipe scr pos (length scr)
                /\ Bitcom.Script p = slice scr pos' (length scr)
                /\ rest = [])
               \/ exists e,
                    Cursor isPipe scr pos e
                    /\ ReadOp scr e = (inr (mkChunk OpDATA1 [x7c]), e + 2)
                    /\ Bitcom.Script p = slice scr pos' e
                    /\ (if e <? pos' then rest = [] else entriesFrom scr (e + 2) rest))
  end.

Fixpoint increasing (l : list nat) : Prop :=
  match l with
  | [] => True
  | x :: rest =>
      match rest with
      | [] => True
      | y :: _ => x < y /\ increasing rest
      end
  end.

(** The buffer of validateAip when no field index restricts it: after the
    marker byte, for each entry its tag, then, if its payload tokenizes,
    the data of every token and the delimiter byte. *)
Fixpoint entriesData (Chunks : list byte -> list ScriptChunk * option ScriptError)
    (protos : list BitcomProtocol) : list byte :=
  match protos with
  | [] => []
  | p :: rest =>
      Protocol p
      ++ match Chunks (Bitcom.Script p) with
         | (tape, None) => flat_map Data tape ++ [x7c]
         | (_, Some _) => []
         end
      ++ entriesData Chunks rest
  end.

Definition notMarker (op : ScriptChunk) : bool := negb (Sigma.isMarker op).

(** The number a byte string spells, least significant byte first. *)
Fixpoint leValue (l : list byte) : N :=
  match l with
  | [] => 0
  | b :: rest => to_N b + 256 * leValue rest
  end.

End Spec.

Import Spec.

(** * Facts about ReadOp *)

Unset Implicit Arguments.

Ltac Zify.zify_post_hook ::= Z.to_euclidean_division_equations.

Lemma byteAt_app_r (pre b : list byte) (i : nat) :
  byteAt (pre ++ b) (length pre + i) = byteAt b i.
Proof. unfold byteAt. apply app_nth2_plus. Qed.

Lemma byteAt_app_l (b t : list byte) (i : nat) :
  i < length b -> byteAt (b ++ t) i = byteAt b i.
Proof. intros H. unfold byteAt. now apply app_nth1. Qed.

Lemma slice_app_r (pre b : list byte) (lo hi : nat) :
  slice (pre ++ b) (length pre + lo) (length pre + hi) = slice b lo hi.
Proof.
  unfold slice. rewrite skipn_app, skipn_all2 by lia.
  replace (length pre + lo - length pre) with lo by lia.
  replace (length pre + hi - (length pre + lo)) with (hi - lo) by lia.
  reflexivity.
Qed.

Lemma slice_app_l (b t : list byte) (lo hi : nat) :
  hi <= length b -> slice (b ++ t) lo hi = slice b lo hi.
Proof.
  intros H. unfold slice. rewrite skipn_app, firstn_app, length_skipn.
  replace (hi - lo - (length b - lo)) with 0 by lia.
  simpl. now rewrite app_nil_r.
Qed.

Lemma slice_mid (a b c : list byte) :
  slice (a ++ b ++ c) (length a) (length a + length b) = b.
Proof.
  unfold slice. rewrite skipn_app, skipn_all2, Nat.sub_diag by lia. simpl.
  replace (length a + length b - length a) with (length b) by lia.
  rewrite firstn_app, Nat.sub_diag, firstn_all. simpl. now rewrite app_nil_r.
Qed.

Lemma slice_eq (s a b c : list byte) (lo hi : nat) :
  s = a ++ b ++ c -> lo = length a -> hi = length a + length b ->
  slice s lo hi = b.
Proof. intros -> -> ->. apply slice_mid. Qed.

Lemma byte_eqb_false (a b : byte) : to_nat a <> to_nat b -> Byte.eqb a b = false.
Proof.
  intros H. destruct (Byte.eqb a b) eqn:E; [|reflexivity].
  apply byte_dec_bl in E. now subst.
Qed.

Lemma byte_eqb_true (a b : byte) : Byte.eqb a b = true -> a = b.
Proof. apply byte_dec_bl. Qed.

Lemma ReadOp_shift (pre b : list byte) (p : nat) :
  ReadOp (pre ++ b) (length pre + p)
  = (fst (ReadOp b p), length pre + snd (ReadOp b p)).
Proof.
  unfold ReadOp, le16, le32.
  rewrite length_app.
  rewrite <- !Nat.add_assoc, !byteAt_app_r, !slice_app_r.
  replace (length pre + length b <=? length pre + p) with (length b <=? p)
    by (destruct (Nat.leb_spec (length b) p), (Nat.leb_spec (length pre + length b) (length pre + p)); lia || reflexivity).
  assert (Hlt : forall k, (length pre + length b <? length pre + k) = (length b <? k)).
  { intros k. destruct (Nat.ltb_spec (length b) k), (Nat.ltb_spec (length pre + length b) (length pre + k)); lia || reflexivity. }
  rewrite !Hlt.
  repeat match goal with
         | |- context [if ?c then _ else _] => destruct c
         end; simpl; f_equal; lia.
Qed.

Ltac split_ifs :=
  repeat match goal with
         | H : context [if ?c then _ else _] |- _ => destruct c eqn:?
         end.

Lemma ReadOp_ok_bounds (b : list byte) (p p' : nat) (c : ScriptChunk) :
  ReadOp b p = (inr c, p') -> p < p' /\ p' <= length b.
Proof.
  unfold ReadOp. intros H. split_ifs; inversion H; subst; clear H;
    repeat match goal with
           | H : (_ <? _) = false |- _ => apply Nat.ltb_ge in H
           | H : (_ <=? _) = false |- _ => apply Nat.leb_gt in H
           end; lia.
Qed.

Lemma ReadOp_cursor_le (b : list byte) (p : nat) : p <= snd (ReadOp b p).
Proof.
  unfold ReadOp.
  repeat match goal with
         | |- context [if ?c then _ else _] => destruct c
         end; simpl; lia.
Qed.

Lemma le16_app_l (b t : list byte) (p : nat) :
  p + 1 < length b -> le16 (b ++ t) p = le16 b p.
Proof. intros H. unfold le16. now rewrite !byteAt_app_l by lia. Qed.

Lemma le32_app_l (b t : list byte) (p : nat) :
  p + 3 < length b -> le32 (b ++ t) p = le32 b p.
Proof. intros H. unfold le32. now rewrite !byteAt_app_l by lia. Qed.

Ltac nat_conds :=
  repeat match goal with
         | H : (_ <? _) = false |- _ => apply Nat.ltb_ge in H
         | H : (_ <=? _) = false |- _ => apply Nat.leb_gt in H
         | H : (_ <? _) = true |- _ => apply Nat.ltb_lt in H
         | H : (_ <=? _) = true |- _ => apply Nat.leb_le in H
         end.

Ltac decide_conds :=
  repeat match goal with
         | |- context [?a <? ?b] => rewrite (proj2 (Nat.ltb_ge a b)) by lia
         | |- context [?a <=? ?b] => rewrite (proj2 (Nat.leb_gt a b)) by lia
         | |- context [?a <? ?b] => rewrite (proj2 (Nat.ltb_lt a b)) by lia
         | |- context [?a <=? ?b] => rewrite (proj2 (Nat.leb_le a b)) by lia
         end.

Lemma ReadOp_app_ok (b t : list byte) (p p' : nat) (c : ScriptChunk) :
  ReadOp b p = (inr c, p') -> ReadOp (b ++ t) p = (inr c, p').
Proof.
  unfold ReadOp. rewrite length_app. intros H.
  split_ifs; inversion H; subst; clear H; nat_conds;
    rewrite ?byteAt_app_l, ?le16_app_l, ?le32_app_l by lia;
    repeat match goal with
           | H : ?c = _ |- context [?c] => rewrite H
           end;
    decide_conds;
    rewrite ?slice_app_l by lia; reflexivity.
Qed.

Lemma ReadOp_at (pre tok rest : list byte) (c : ScriptChunk) :
  ReadOp tok 0 = (inr c, length tok) ->
  ReadOp (pre ++ tok ++ rest) (length pre) = (inr c, length pre + length tok).
Proof.
  intros H. apply ReadOp_app_ok with (t := rest) in H.
  replace (length pre) with (length pre + 0) at 1 by lia.
  rewrite ReadOp_shift, H. reflexivity.
Qed.

(** ** The push written by AppendPushData is read back by ReadOp *)

Lemma to_N_byte_of_N (n : N) : to_N (byte_of_N n) = (n mod 256)%N.
Proof.
  unfold byte_of_N. destruct (of_N (n mod 256)) eqn:E.
  - now apply to_of_N.
  - apply of_N_None_iff in E. pose proof (N.mod_lt n 256). lia.
Qed.

Lemma to_nat_byte_of_N (n : N) : to_nat (byte_of_N n) = N.to_nat (n mod 256).
Proof. now rewrite to_nat_via_N, to_N_byte_of_N. Qed.

Lemma AppendPushData_app (s d : list byte) :
  fst (AppendPushData s d) = s ++ fst (AppendPushData [] d).
Proof.
  unfold AppendPushData. destruct (PushDataPrefix d); simpl.
  - now rewrite app_nil_r.
  - now rewrite app_assoc.
Qed.

Lemma pipe_push : fst (AppendPushData [] pipe) = [OpDATA1; x7c].
Proof. reflexivity. Qed.

Lemma ReadOp_pushdata1 (b : list byte) (p : nat) :
  byteAt b p = OpPUSHDATA1 ->
  p + 2 + to_nat (byteAt b (p + 1)) <= length b ->
  ReadOp b p
  = (inr (mkChunk OpPUSHDATA1
            (slice b (p + 2) (p + 2 + to_nat (byteAt b (p + 1))))),
     p + 2 + to_nat (byteAt b (p + 1))).
Proof.
  intros Ho Hl. unfold ReadOp. rewrite Ho.
  change (Byte.eqb OpPUSHDATA1 OpPUSHDATA1) with true. cbv iota zeta.
  now decide_conds.
Qed.

Lemma ReadOp_pushdata2 (b : list byte) (p : nat) :
  byteAt b p = OpPUSHDATA2 ->
  p + 3 + le16 b (p + 1) <= length b ->
  ReadOp b p
  = (inr (mkChunk OpPUSHDATA2 (slice b (p + 3) (p + 3 + le16 b (p + 1)))),
     p + 3 + le16 b (p + 1)).
Proof.
  intros Ho Hl. unfold ReadOp. rewrite Ho.
  change (Byte.eqb OpPUSHDATA2 OpPUSHDATA1) with false.
  change (Byte.eqb OpPUSHDATA2 OpPUSHDATA2) with true. cbv iota zeta.
  now decide_conds.
Qed.

Lemma ReadOp_pushdata4 (b : list byte) (p : nat) :
  byteAt b p = OpPUSHDATA4 ->
  p + 5 + le32 b (p + 1) <= length b ->
  ReadOp b p
  = (inr (mkChunk OpPUSHDATA4 (slice b (p + 5) (p + 5 + le32 b (p + 1)))),
     p + 5 + le32 b (p + 1)).
Proof.
  intros Ho Hl. unfold ReadOp. rewrite Ho.
  change (Byte.eqb OpPUSHDATA4 OpPUSHDATA1) with false.
  change (Byte.eqb OpPUSHDATA4 OpPUSHDATA2) with false.
  change (Byte.eqb OpPUSHDATA4 OpPUSHDATA4) with true. cbv iota zeta.
  now decide_conds.
Qed.

Lemma ReadOp_direct (b : list byte) (p : nat) :
  1 <= to_nat (byteAt b p) < 76 ->
  p + (1 + to_nat (byteAt b p)) <= length b ->
  ReadOp b p
  = (inr (mkChunk (byteAt b p)
            (slice b (p + 1) (p + (to_nat (byteAt b p) + 1)))),
     p + (1 + to_nat (byteAt b p))).
Proof.
  intros Ho Hl. unfold ReadOp.
  rewrite !byte_eqb_false by (cbn; lia).
  change (to_nat OpPUSHDATA1) with 76.
  now decide_conds.
Qed.

Lemma slice_tail (hd d : list byte) (lo hi : nat) :
  lo = length hd -> hi = length hd + length d -> slice (hd ++ d) lo hi = d.
Proof.
  intros -> ->. rewrite <- (app_nil_r d) at 1. apply slice_mid.
Qed.

Lemma ReadOp_push (d : list byte) :
  (N.of_nat (length d) <= 4294967295)%N ->
  exists o,
    ReadOp (fst (AppendPushData [] d)) 0
    = (inr (mkChunk o d), length (fst (AppendPushData [] d)))
    /\ (o = OpDATA1 -> length d = 1).
Proof.
  intros Hlen. unfold AppendPushData, PushDataPrefix.
  destruct (N.leb_spec (N.of_nat (length d)) 75) as [H75|H75].
  { (* a direct push, or OP_0 for the empty string *)
    cbn [fst app]. exists (byte_of_N (N.of_nat (length d))).
    assert (Hn : to_nat (byte_of_N (N.of_nat (length d))) = length d).
    { rewrite to_nat_byte_of_N, N.mod_small by lia. lia. }
    split.
    - destruct d as [|x d'] eqn:Ed.
      + reflexivity.
      + rewrite <- Ed in *.
        rewrite ReadOp_direct; change (byteAt (?h :: d) 0) with h;
          cbn [length]; rewrite ?Hn; try (subst d; cbn [length] in *; lia).
        f_equal. f_equal. f_equal.
        apply (slice_tail [_] d); cbn [length]; lia.
    - intros Ho. rewrite Ho in Hn. cbn in Hn. lia. }
  destruct (N.leb_spec (N.of_nat (length d)) 255) as [H255|H255].
  { cbn [fst app]. exists OpPUSHDATA1. split; [|discriminate].
    assert (Hn : to_nat (byte_of_N (N.of_nat (length d))) = length d).
    { rewrite to_nat_byte_of_N, N.mod_small by lia. lia. }
    rewrite ReadOp_pushdata1;
      change (byteAt (?h :: ?h' :: d) (0 + 1)) with h';
      rewrite ?Hn; cbn [length]; try reflexivity; try lia.
    f_equal. f_equal. f_equal.
    apply (slice_tail [_; _] d); cbn [length]; lia. }
  destruct (N.leb_spec (N.of_nat (length d)) 65535) as [H64k|H64k].
  { cbn [fst app]. exists OpPUSHDATA2. split; [|discriminate].
    assert (Hn : le16 (OpPUSHDATA2 :: byte_of_N (N.of_nat (length d))
                         :: byte_of_N (N.of_nat (length d) / 256) :: d) (0 + 1)
                 = length d).
    { unfold le16. cbn [byteAt nth Nat.add]. rewrite !to_N_byte_of_N. lia. }
    rewrite ReadOp_pushdata2; rewrite ?Hn; cbn [length]; try reflexivity; try lia.
    f_equal. f_equal. f_equal.
    apply (slice_tail [_; _; _] d); cbn [length]; lia. }
  destruct (N.leb_spec (N.of_nat (length d)) 4294967295) as [H4g|H4g]; [|lia].
  cbn [fst app]. exists OpPUSHDATA4. split; [|discriminate].
  assert (Hn : le32 (OpPUSHDATA4 :: byte_of_N (N.of_nat (length d))
                       :: byte_of_N (N.of_nat (length d) / 256)
                       :: byte_of_N (N.of_nat (length d) / 65536)
                       :: byte_of_N (N.of_nat (length d) / 16777216) :: d) (0 + 1)
               = length d).
  { unfold le32. cbn [byteAt nth Nat.add]. rewrite !to_N_byte_of_N. lia. }
  rewrite ReadOp_pushdata4; rewrite ?Hn; cbn [length]; try reflexivity; try lia.
  f_equal. f_equal. f_equal.
  apply (slice_tail [_; _; _; _; _] d); cbn [length]; lia.
Qed.

Lemma ReadOp_prefix_ok (b t : list byte) (p p' : nat) (c : ScriptChunk) :
  ReadOp (b ++ t) p = (inr c, p') -> length b = p' -> ReadOp b p = (inr c, p').
Proof.
  unfold ReadOp. rewrite length_app. intros H Hlen.
  split_ifs; try discriminate; injection H as Hc Hp; subst c;
    rewrite <- Hp in *; clear Hp; nat_conds;
    rewrite ?byteAt_app_l, ?le16_app_l, ?le32_app_l in * by lia;
    repeat match goal with
           | H : ?c = _ |- context [?c] => rewrite H
           end;
    decide_conds;
    rewrite ?slice_app_l by lia; reflexivity.
Qed.

(** A token read at [pos] is the encoding of its chunk on its own. *)
Lemma ReadOp_token (s : list byte) (pos pos' : nat) (op : ScriptChunk) :
  ReadOp s pos = (inr op, pos') ->
  ReadOp (slice s pos pos') 0 = (inr op, length (slice s pos pos'))
  /\ length (slice s pos pos') = pos' - pos
  /\ skipn pos s = slice s pos pos' ++ skipn pos' s.
Proof.
  intros H. destruct (ReadOp_ok_bounds _ _ _ _ H) as [Hlt Hle].
  assert (Hl : length (slice s pos pos') = pos' - pos).
  { unfold slice. rewrite length_firstn, length_skipn. lia. }
  assert (Hs : skipn pos s = slice s pos pos' ++ skipn pos' s).
  { unfold slice. rewrite <- (firstn_skipn (pos' - pos) (skipn pos s)) at 1.
    rewrite skipn_skipn. do 2 f_equal. lia. }
  split; [|split]; trivial.
  rewrite Hl.
  apply ReadOp_prefix_ok with (t := skipn pos' s); [|exact Hl].
  rewrite <- Hs.
  pose proof (ReadOp_shift (firstn pos s) (skipn pos s) 0) as Hsh.
  rewrite firstn_skipn, length_firstn, Nat.min_l, Nat.add_0_r, H in Hsh by lia.
  destruct (ReadOp (skipn pos s) 0) as [r n]. simpl in Hsh.
  inversion Hsh; subst. f_equal. lia.
Qed.

Lemma tokens_loop_sound (P : ScriptChunk -> bool) (s : list byte) :
  forall fuel pos,
    tokens_loop fuel P s pos = true -> pos <= length s -> Tokens P (skipn pos s).
Proof.
  induction fuel as [|fuel IH]; intros pos H Hpos; simpl in H.
  - apply Nat.leb_le in H. rewrite skipn_all2 by lia. constructor.
  - destruct (Nat.ltb_spec pos (length s)) as [Hlt|Hge].
    + destruct (ReadOp s pos) as [[e|op] pos'] eqn:Hr; [discriminate|].
      apply andb_prop in H. destruct H as [HP Hrest].
      destruct (ReadOp_token _ _ _ _ Hr) as (Htok & _ & Hsplit).
      destruct (ReadOp_ok_bounds _ _ _ _ Hr) as [_ Hle].
      rewrite Hsplit. econstructor; eauto.
    + rewrite skipn_all2 by lia. constructor.
Qed.

Lemma tokens_sound (P : ScriptChunk -> bool) (s : list byte) :
  tokens P s = true -> Tokens P s.
Proof.
  intros H. apply tokens_loop_sound with (pos := 0) in H; [exact H | lia].
Qed.

Lemma Tokens_app (P : ScriptChunk -> bool) (a b : list byte) :
  Tokens P a -> Tokens P b -> Tokens P (a ++ b).
Proof.
  induction 1 as [|tok op rest Hr HP _ IH]; intros Hb; [exact Hb|].
  rewrite <- app_assoc. econstructor; eauto.
Qed.

(** ** The two scanners are instances of [scan] *)

Lemma findReturn_loop_scan (fuel : nat) (scr : list byte) (i : nat) :
  findReturn_loop fuel scr i = scan isReturn fuel scr i.
Proof.
  revert i. induction fuel as [|fuel IH]; intros i; simpl; [reflexivity|].
  destruct (i <? length scr); [|reflexivity].
  destruct (ReadOp scr i) as [[e|op] i']; rewrite IH; reflexivity.
Qed.

Lemma findPipe_loop_scan (fuel : nat) (scr : list byte) (i : nat) :
  findPipe_loop fuel scr i = scan isPipe fuel scr i.
Proof.
  revert i. induction fuel as [|fuel IH]; intros i; simpl; [reflexivity|].
  destruct (i <? length scr); [|reflexivity].
  destruct (ReadOp scr i) as [[e|op] i']; rewrite IH; reflexivity.
Qed.

Lemma scan_mono (hit : ScriptChunk -> bool) (scr : list byte) :
  forall fuel fuel' i r,
    scan hit fuel scr i = Done r -> fuel <= fuel' -> scan hit fuel' scr i = Done r.
Proof.
  induction fuel as [|fuel IH]; intros fuel' i r H Hle; [discriminate|].
  destruct fuel' as [|fuel']; [lia|]. simpl in *.
  destruct (i <? length scr); [|exact H].
  destruct (ReadOp scr i) as [[e|op] i'].
  - apply IH; [exact H | lia].
  - destruct (hit op); [exact H|]. apply IH; [exact H | lia].
Qed.

(** An answer does not depend on the fuel that was left over. *)
Lemma Decode_loop_mono (scr : list byte) :
  forall fuel fuel' pos acc r,
    Decode_loop fuel scr pos acc = Done r -> fuel <= fuel' ->
    Decode_loop fuel' scr pos acc = Done r.
Proof.
  induction fuel as [|fuel IH]; intros fuel' pos acc r H Hle; [discriminate|].
  destruct fuel' as [|fuel']; [lia|].
  cbn [Decode_loop findPipe] in *.
  destruct (pos <? length scr); [|exact H].
  rewrite findPipe_loop_scan in *.
  destruct (scan isPipe (S fuel) scr pos) as [pipePos|] eqn:Hscan; [|discriminate].
  rewrite (scan_mono isPipe scr (S fuel) (S fuel') pos pipePos Hscan) by lia.
  destruct (ReadOp scr pos) as [[e|op] pos']; [exact H|].
  destruct pipePos as [pipePos|]; [|exact H].
  destruct (pipePos <? pos'); [exact H|].
  apply IH; [exact H|lia].
Qed.

Lemma Decode_mono (scr : option (list byte)) (fuel fuel' : nat) (r : option Bitcom) :
  Decode fuel scr = Done r -> fuel <= fuel' -> Decode fuel' scr = Done r.
Proof.
  destruct scr as [s|]; [|trivial]. unfold Decode, findReturn.
  rewrite !findReturn_loop_scan. intros H Hle.
  destruct (scan isReturn fuel s 0) as [pos|] eqn:Hscan; [|discriminate].
  rewrite (scan_mono isReturn s fuel fuel' 0 pos Hscan Hle).
  destruct pos as [pos|]; [|exact H].
  destruct (Decode_loop fuel s (pos + 1) []) as [protos|] eqn:Hloop; [|discriminate].
  now rewrite (Decode_loop_mono s fuel fuel' (pos + 1) [] protos Hloop Hle).
Qed.

(** A scan walks over a run of tokens none of which is a hit. *)
Lemma scan_tokens (hit : ScriptChunk -> bool) (toks : list byte) :
  Tokens (fun op => negb (hit op)) toks ->
  forall pre rest R,
    (forall fuel', 0 < fuel' ->
       scan hit fuel' (pre ++ toks ++ rest) (length pre + length toks) = Done R) ->
    forall fuel, length toks < fuel ->
      scan hit fuel (pre ++ toks ++ rest) (length pre) = Done R.
Proof.
  induction 1 as [|tok op toks Hr Hhit _ IH]; intros pre rest R Hend fuel Hfuel.
  - simpl in *. rewrite Nat.add_0_r in Hend. apply Hend. lia.
  - assert (Htok : 0 < length tok) by (apply ReadOp_ok_bounds in Hr; lia).
    rewrite length_app in *.
    destruct fuel as [|fuel]; [lia|]. simpl.
    rewrite <- app_assoc. rewrite (ReadOp_at pre tok (toks ++ rest) _ Hr).
    rewrite !length_app.
    replace (length pre <? _) with true by (symmetry; apply Nat.ltb_lt; lia).
    apply negb_true_iff in Hhit. rewrite Hhit.
    specialize (IH (pre ++ tok) rest R).
    rewrite length_app, <- !app_assoc in IH. apply IH; [|lia].
    intros fuel' Hf. specialize (Hend fuel' Hf).
    rewrite <- app_assoc in Hend.
    replace (length pre + length tok + length toks)
      with (length pre + (length tok + length toks)) by lia.
    exact Hend.
Qed.

(** ** Lock, as a byte string *)

Lemma Lock_loop_encode (ps : list BitcomProtocol) :
  forall s i n, i + length ps = n -> Lock_loop s i n ps = s ++ encodeEntries ps.
Proof.
  induction ps as [|p ps IH]; intros s i n Hn; simpl.
  - now rewrite app_nil_r.
  - simpl in Hn. rewrite (AppendPushData_app s).
    destruct ps as [|q ps'].
    + simpl in *. replace (i <? n - 1) with false
        by (symmetry; apply Nat.ltb_ge; lia).
      now rewrite !app_nil_r, <- !app_assoc.
    + replace (i <? n - 1) with true
        by (symmetry; apply Nat.ltb_lt; simpl in Hn; lia).
      rewrite (IH _ (S i) n) by lia.
      now rewrite <- !app_assoc.
Qed.

Lemma Lock_encode (prefix : list byte) (entries : list BitcomProtocol) :
  entries <> [] ->
  Lock (mkBitcom entries prefix) = prefix ++ [OpRETURN] ++ encodeEntries entries.
Proof.
  intros Hne. unfold Lock. cbn [Protocols ScriptPrefix].
  destruct entries as [|p ps]; [contradiction|].
  cbn [length Nat.ltb Nat.leb].
  change (fst (AppendOpcodes prefix [OpRETURN])) with (prefix ++ [OpRETURN]).
  rewrite Lock_loop_encode by reflexivity.
  now rewrite <- app_assoc.
Qed.

(** ** One turn of the loop of Decode *)

Lemma Decode_loop_last (f : nat) (scr : list byte) (pos pos' : nat)
    (op : ScriptChunk) (acc : list BitcomProtocol) :
  pos < length scr ->
  scan isPipe (S f) scr pos = Done None ->
  ReadOp scr pos = (inr op, pos') ->
  Decode_loop (S f) scr pos acc
  = Done (acc ++ [mkProtocol (Data op) (slice scr pos' (length scr)) pos]).
Proof.
  intros Hpos Hscan Hr. cbn [Decode_loop findPipe].
  rewrite findPipe_loop_scan, Hscan, Hr.
  now replace (pos <? length scr) with true by (symmetry; apply Nat.ltb_lt; lia).
Qed.

Lemma Decode_loop_more (f : nat) (scr : list byte) (pos pos' pipePos : nat)
    (op : ScriptChunk) (acc : list BitcomProtocol) :
  pos < length scr ->
  scan isPipe (S f) scr pos = Done (Some pipePos) ->
  ReadOp scr pos = (inr op, pos') ->
  pos' <= pipePos ->
  Decode_loop (S f) scr pos acc
  = Decode_loop f scr (pipePos + 2)
      (acc ++ [mkProtocol (Data op) (slice scr pos' pipePos) pos]).
Proof.
  intros Hpos Hscan Hr Hle. cbn [Decode_loop findPipe].
  rewrite findPipe_loop_scan, Hscan, Hr.
  replace (pos <? length scr) with true by (symmetry; apply Nat.ltb_lt; lia).
  now replace (pipePos <? pos') with false by (symmetry; apply Nat.ltb_ge; lia).
Qed.

Lemma bytes_eqb_eq (a b : list byte) : BAP.bytes_eqb a b = true <-> a = b.
Proof.
  unfold BAP.bytes_eqb. destruct (list_eq_dec byte_eq_dec a b); split;
    intros; congruence.
Qed.

(** The tag and the payload of an entry the builder can carry are tokens
    that the delimiter scan walks over. *)
Lemma entry_tokens (p : BitcomProtocol) :
  entryOk p = true ->
  exists o,
    ReadOp (fst (AppendPushData [] (Protocol p))) 0
    = (inr (mkChunk o (Protocol p)), length (fst (AppendPushData [] (Protocol p))))
    /\ Tokens notPipe (fst (AppendPushData [] (Protocol p)) ++ Bitcom.Script p).
Proof.
  unfold entryOk. intros H.
  apply andb_prop in H. destruct H as [H Hpay].
  apply andb_prop in H. destruct H as [Htag Hlen].
  apply N.leb_le in Hlen.
  destruct (ReadOp_push (Protocol p) Hlen) as (o & Hr & Ho).
  exists o. split; [exact Hr|].
  apply Tokens_app; [|now apply tokens_sound].
  rewrite <- (app_nil_r (fst (AppendPushData [] (Protocol p)))).
  apply Tokens_cons with (op := mkChunk o (Protocol p)); [exact Hr| |constructor].
  unfold notPipe, isPipe. cbn [Op Data].
  destruct (Byte.eqb o OpDATA1) eqn:Eo; [|reflexivity].
  apply byte_eqb_true in Eo. specialize (Ho Eo).
  destruct (Protocol p) as [|x [|y l]] eqn:Et; try discriminate.
  cbn [byteAt nth andb].
  destruct (Byte.eqb x x7c) eqn:Ex; [|reflexivity].
  apply byte_eqb_true in Ex. subst x.
  apply negb_true_iff in Htag.
  assert (BAP.bytes_eqb [x7c] pipe = true) by now apply bytes_eqb_eq.
  congruence.
Qed.

Lemma scan_end (hit : ScriptChunk -> bool) (scr : list byte) (fuel i : nat) :
  0 < fuel -> length scr <= i -> scan hit fuel scr i = Done None.
Proof.
  intros Hf Hi. destruct fuel as [|fuel]; [lia|]. simpl.
  now replace (i <? length scr) with false by (symmetry; apply Nat.ltb_ge; lia).
Qed.

Lemma scan_here (hit : ScriptChunk -> bool) (scr : list byte) (fuel i i' : nat)
    (op : ScriptChunk) :
  0 < fuel -> ReadOp scr i = (inr op, i') -> hit op = true ->
  scan hit fuel scr i = Done (Some i).
Proof.
  intros Hf Hr Hhit. destruct fuel as [|fuel]; [lia|]. simpl.
  apply ReadOp_ok_bounds in Hr as Hb.
  replace (i <? length scr) with true by (symmetry; apply Nat.ltb_lt; lia).
  now rewrite Hr, Hhit.
Qed.

(** The loop of [Decode] on what [Lock] wrote after the marker. *)
Lemma Decode_loop_entries (es : list BitcomProtocol) :
  es <> [] ->
  forallb entryOk es = true ->
  forall pre acc fuel,
    length (encodeEntries es) < fuel ->
    exists out,
      Decode_loop fuel (pre ++ encodeEntries es) (length pre) acc = Done (acc ++ out)
      /\ map entryPair out = map entryPair es.
Proof.
  induction es as [|p es IH]; [contradiction|].
  intros _ Hok pre acc fuel Hfuel.
  cbn [forallb] in Hok. apply andb_prop in Hok. destruct Hok as [Hp Hes].
  destruct (entry_tokens p Hp) as (o & Hr & Htoks).
  apply ReadOp_ok_bounds in Hr as Hb.
  remember (fst (AppendPushData [] (Protocol p))) as T eqn:ET.
  destruct fuel as [|f]; [lia|].
  destruct es as [|q es'].
  - (* the last entry: no delimiter ahead *)
    assert (Henc : encodeEntries [p] = T ++ Bitcom.Script p).
    { subst T. cbn [encodeEntries]. now rewrite app_nil_r. }
    rewrite Henc in *. clear Henc.
    assert (Hscan : scan isPipe (S f) (pre ++ T ++ Bitcom.Script p) (length pre)
                    = Done None).
    { rewrite <- (app_nil_r (T ++ Bitcom.Script p)).
      apply scan_tokens; [exact Htoks| |lia].
      intros fuel' Hf. apply scan_end; [exact Hf|].
      rewrite !length_app. simpl. lia. }
    pose proof (ReadOp_at pre T (Bitcom.Script p) _ Hr) as Hread.
    erewrite Decode_loop_last
      by first [exact Hscan | exact Hread | (rewrite !length_app; lia)].
    eexists. split; [reflexivity|]. cbn [map]. unfold entryPair.
    cbn [Protocol Bitcom.Script Data]. do 2 f_equal.
    apply (slice_eq _ (pre ++ T) (Bitcom.Script p) []);
      rewrite ?length_app, <- ?app_assoc, ?app_nil_r; reflexivity || lia.
  - (* a delimiter, then the entries that follow *)
    assert (Henc : encodeEntries (p :: q :: es')
                   = (T ++ Bitcom.Script p) ++ [OpDATA1; x7c]
                     ++ encodeEntries (q :: es')).
    { subst T. cbn [encodeEntries]. rewrite pipe_push.
      now rewrite <- !app_assoc. }
    rewrite Henc in *. clear Henc.
    remember (encodeEntries (q :: es')) as E eqn:EE.
    set (pp := length pre + length (T ++ Bitcom.Script p)).
    assert (Hpipe : ReadOp (pre ++ (T ++ Bitcom.Script p) ++ [OpDATA1; x7c] ++ E) pp
                    = (inr (mkChunk OpDATA1 [x7c]), pp + 2)).
    { pose proof (ReadOp_at (pre ++ T ++ Bitcom.Script p) [OpDATA1; x7c] E
                    (mkChunk OpDATA1 [x7c]) eq_refl) as H.
      rewrite length_app, <- !app_assoc in H. rewrite <- !app_assoc.
      exact H. }
    assert (Hscan : scan isPipe (S f)
                      (pre ++ (T ++ Bitcom.Script p) ++ [OpDATA1; x7c] ++ E)
                      (length pre) = Done (Some pp)).
    { apply scan_tokens; [exact Htoks| |rewrite !length_app in *; lia].
      intros fuel' Hf. fold pp. eapply scan_here; eauto. }
    assert (Hread : ReadOp (pre ++ (T ++ Bitcom.Script p) ++ [OpDATA1; x7c] ++ E)
                      (length pre)
                    = (inr (mkChunk o (Protocol p)), length pre + length T)).
    { rewrite <- app_assoc. apply ReadOp_at. exact Hr. }
    erewrite Decode_loop_more
      by first [exact Hscan | exact Hread | (unfold pp; rewrite !length_app; lia)
               | (rewrite !length_app; cbn [length]; lia)].
    specialize (IH ltac:(discriminate) Hes
                  (pre ++ (T ++ Bitcom.Script p) ++ [OpDATA1; x7c])
                  (acc ++ [mkProtocol (Data (mkChunk o (Protocol p)))
                             (slice (pre ++ (T ++ Bitcom.Script p)
                                       ++ [OpDATA1; x7c] ++ E)
                                (length pre + length T) pp)
                             (length pre)]) f).
    replace (length (pre ++ (T ++ Bitcom.Script p) ++ [OpDATA1; x7c]))
      with (pp + 2) in IH
      by (unfold pp; rewrite !length_app; simpl; lia).
    replace ((pre ++ (T ++ Bitcom.Script p) ++ [OpDATA1; x7c]) ++ E)
      with (pre ++ (T ++ Bitcom.Script p) ++ [OpDATA1; x7c] ++ E) in IH
      by (now rewrite <- !app_assoc).
    destruct IH as (out & Hout & Hmap).
    { rewrite !length_app in Hfuel. simpl in Hfuel. lia. }
    rewrite Hout. eexists. split.
    { rewrite <- app_assoc. reflexivity. }
    cbn [map app]. rewrite Hmap. f_equal.
    unfold entryPair. cbn [Protocol Bitcom.Script Data]. f_equal.
    apply (slice_eq _ (pre ++ T) (Bitcom.Script p) ([OpDATA1; x7c] ++ E));
      unfold pp; rewrite ?length_app, <- ?app_assoc; reflexivity || lia.
Qed.

(** * The envelope scanner and builder *)

Lemma findReturn_prefix (prefix rest : list byte) (fuel : nat) :
  Tokens notReturn prefix ->
  length prefix < fuel ->
  scan isReturn fuel (prefix ++ [OpRETURN] ++ rest) 0 = Done (Some (length prefix)).
Proof.
  intros Htok Hfuel.
  apply (scan_tokens isReturn prefix Htok [] ([OpRETURN] ++ rest)); [|exact Hfuel].
  intros fuel' Hf. cbn [length Nat.add app].
  apply scan_here with (i' := length prefix + 1) (op := mkChunk OpRETURN []);
    [exact Hf| |reflexivity].
  exact (ReadOp_at prefix [OpRETURN] rest (mkChunk OpRETURN []) eq_refl).
Qed.

(** C1, as amended.  When the prefix is a sequence of complete tokens with no
    OP_RETURN among them, no tag is the one-byte string "|" or too long for
    a push, and every payload is a sequence of complete tokens none of which
    is the delimiter token, decoding the script that Lock builds from a
    non-empty entry list gives back, in order, the same tags and the same
    payload bytes; any fuel above the length of the script is enough. *)
Theorem Decode_Lock_roundtrip (prefix : list byte) (entries : list BitcomProtocol) :
  entries <> [] ->
  tokens notReturn prefix = true ->
  forallb entryOk entries = true ->
  forall fuel,
    length (Lock (mkBitcom entries prefix)) < fuel ->
    exists b,
      Decode fuel (Some (Lock (mkBitcom entries prefix))) = Done (Some b)
      /\ map entryPair (Protocols b) = map entryPair entries.
Proof.
  intros Hne Hprefix Hentries fuel Hfuel.
  rewrite Lock_encode in * by exact Hne.
  apply tokens_sound in Hprefix.
  unfold Decode, findReturn. rewrite findReturn_loop_scan.
  rewrite findReturn_prefix; [|exact Hprefix|rewrite length_app in Hfuel; lia].
  destruct (Decode_loop_entries entries Hne Hentries (prefix ++ [OpRETURN]) [] fuel)
    as (out & Hout & Hmap).
  { rewrite !length_app in Hfuel. lia. }
  rewrite length_app, <- app_assoc in Hout. cbn [length] in Hout.
  rewrite Hout. eexists. split; [reflexivity|]. exact Hmap.
Qed.

Lemma Decode_Lock_roundtrip_witness :
  exists b,
    Decode 20 (Some (Lock (mkBitcom
                             [mkProtocol [x41] [x03; x61; x7c; x62] 0;
                              mkProtocol [x42; x43] [x51; x4c; x01; x7c] 0]
                             [x00]))) = Done (Some b)
    /\ map entryPair (Protocols b)
       = [([x41], [x03; x61; x7c; x62]); ([x42; x43], [x51; x4c; x01; x7c])].
Proof.
  apply (Decode_Lock_roundtrip [x00]
           [mkProtocol [x41] [x03; x61; x7c; x62] 0;
            mkProtocol [x42; x43] [x51; x4c; x01; x7c] 0]).
  - discriminate.
  - reflexivity.
  - reflexivity.
  - vm_compute. lia.
Defined.

(** C1, as stated, fails: the builder appends a payload as it is, so a
    payload that holds the delimiter token is cut there by the scanner.
    Entry ("A", 01 7C) comes back as ("A", empty). *)
Lemma Decode_Lock_roundtrip_counterexample :
  ~ exists fuel b,
      Decode fuel (Some (Lock (mkBitcom [mkProtocol [x41] [x01; x7c] 0] [])))
      = Done (Some b)
      /\ map entryPair (Protocols b) = [([x41], [x01; x7c])].
Proof.
  intros (fuel & b & H & Hmap).
  destruct fuel as [|[|fuel]]; vm_compute in H; try discriminate.
  injection H as <-. vm_compute in Hmap. discriminate.
Qed.

(** C3.  On the one-byte script 05, a push of five bytes with none of them
    present, ReadOp fails without moving the cursor and the loop of
    findReturn never ends: Decode has no result, whatever the fuel. *)
Theorem Decode_truncated_push_no_result :
  forall fuel, Decode fuel (Some [x05]) = Timeout.
Proof.
  intros fuel. unfold Decode, findReturn.
  assert (H : findReturn_loop fuel [x05] 0 = Timeout).
  { induction fuel as [|fuel IH]; [reflexivity|]. exact IH. }
  now rewrite H.
Qed.

(** C4.  The prefix stops one byte short of the marker: on OP_FALSE
    OP_RETURN the envelope comes back with an empty prefix, the OP_FALSE
    lost. *)
Theorem Decode_prefix_loses_last_byte :
  forall fuel,
    Decode (2 + fuel) (Some [OpFALSE; OpRETURN]) = Done (Some (mkBitcom [] [])).
Proof. intros fuel. reflexivity. Qed.

(** The prefix of any decoded envelope, in general. *)
Lemma Decode_prefix (fuel : nat) (s : list byte) (b : Bitcom) :
  Decode fuel (Some s) = Done (Some b) ->
  exists pos,
    scan isReturn fuel s 0 = Done (Some pos)
    /\ ScriptPrefix b = firstn (pos - 1) s.
Proof.
  unfold Decode, findReturn. rewrite findReturn_loop_scan.
  destruct (scan isReturn fuel s 0) as [[pos|]|]; try discriminate.
  destruct (Decode_loop fuel s (pos + 1) []); try discriminate.
  intros H. injection H as <-. exists pos. split; [reflexivity|].
  cbn [ScriptPrefix]. destruct pos; [reflexivity|].
  cbn [Nat.ltb Nat.leb]. unfold slice. now rewrite Nat.sub_0_r.
Qed.

(** C6.  The script 02 41 holds no OP_RETURN, and Decode does not answer
    with the nil envelope: the push of two bytes has one, the scan for the
    marker stays on it for ever. *)
Theorem Decode_no_marker_no_result :
  forall fuel, Decode fuel (Some [x02; x41]) = Timeout.
Proof.
  intros fuel. unfold Decode, findReturn.
  assert (H : findReturn_loop fuel [x02; x41] 0 = Timeout).
  { induction fuel as [|fuel IH]; [reflexivity|]. exact IH. }
  now rewrite H.
Qed.

(** Where the scan for the marker comes to an end without finding it, the
    answer is the nil envelope. *)
Lemma Decode_no_marker (fuel : nat) (s : list byte) :
  scan isReturn fuel s 0 = Done None -> Decode fuel (Some s) = Done None.
Proof.
  intros H. unfold Decode, findReturn. now rewrite findReturn_loop_scan, H.
Qed.

Lemma Decode_no_marker_tokens (s : list byte) (fuel : nat) :
  tokens notReturn s = true -> length s < fuel ->
  Decode fuel (Some s) = Done None.
Proof.
  intros Htok Hfuel. apply Decode_no_marker.
  apply tokens_sound in Htok.
  pose proof (scan_tokens isReturn s Htok [] [] None) as H.
  rewrite app_nil_r in H. apply H; [|exact Hfuel].
  intros fuel' Hf. apply scan_end; [exact Hf|]. simpl. lia.
Qed.

(** ** The delimiter scan *)

Lemma scan_Cursor (hit : ScriptChunk -> bool) (scr : list byte) :
  forall fuel i p,
    scan hit fuel scr i = Done (Some p) ->
    Cursor hit scr i p
    /\ exists op p', ReadOp scr p = (inr op, p') /\ hit op = true.
Proof.
  induction fuel as [|fuel IH]; intros i p H; [discriminate|].
  simpl in H. destruct (Nat.ltb_spec i (length scr)) as [Hi|Hi]; [|discriminate].
  destruct (ReadOp scr i) as [[e|op] i'] eqn:Hr.
  - destruct (IH _ _ H) as [Hc Hp]. split; [|exact Hp].
    now apply Cursor_step with (r := inl e) (i' := i').
  - destruct (hit op) eqn:Hhit.
    + injection H as <-. split; [constructor|]. now exists op, i'.
    + destruct (IH _ _ H) as [Hc Hp]. split; [|exact Hp].
      now apply Cursor_step with (r := inr op) (i' := i').
Qed.

Lemma Cursor_scan (hit : ScriptChunk -> bool) (scr : list byte) (i p : nat) :
  Cursor hit scr i p ->
  forall op p', ReadOp scr p = (inr op, p') -> hit op = true ->
  exists fuel, scan hit fuel scr i = Done (Some p).
Proof.
  induction 1 as [i|i r i' q Hi Hr Hhit _ IH]; intros op p' Hp Hop.
  - exists 1. apply scan_here with (i' := p') (op := op); [lia|exact Hp|exact Hop].
  - destruct (IH _ _ Hp Hop) as [fuel Hfuel]. exists (S fuel). simpl.
    replace (i <? length scr) with true by (symmetry; apply Nat.ltb_lt; lia).
    rewrite Hr. destruct r as [e|op']; [exact Hfuel|].
    simpl in Hhit. now rewrite Hhit.
Qed.

Lemma Cursor_le (hit : ScriptChunk -> bool) (scr : list byte) (i q : nat) :
  Cursor hit scr i q -> i <= q.
Proof.
  induction 1 as [i|i r i' q Hi Hr Hhit _ IH]; [lia|].
  pose proof (ReadOp_cursor_le scr i) as H. rewrite Hr in H. simpl in H. lia.
Qed.

(** No cursor position of a scan lies strictly inside a token that the same
    scan has reached. *)
Lemma Cursor_not_inside (hit : ScriptChunk -> bool) (scr : list byte) (i p : nat) :
  Cursor hit scr i p ->
  forall q r q', Cursor hit scr i q -> ReadOp scr q = (r, q') -> ~ (q < p < q').
Proof.
  induction 1 as [i|i r i' p Hi Hr Hhit Hc IH]; intros q rq q' Hq Hrq Hin.
  - apply Cursor_le in Hq. lia.
  - inversion Hq as [j|j r0 j' q0 Hj Hr0 Hhit0 Hc0]; subst.
    + rewrite Hr in Hrq. injection Hrq as <- <-.
      apply Cursor_le in Hc. lia.
    + rewrite Hr in Hr0. injection Hr0 as <- <-.
      exact (IH q rq q' Hc0 Hrq Hin).
Qed.

Lemma isPipe_chunk (scr : list byte) (p p' : nat) (op : ScriptChunk) :
  ReadOp scr p = (inr op, p') ->
  isPipe op = true ->
  op = mkChunk OpDATA1 [x7c] /\ p' = p + 2.
Proof.
  intros Hr Hpipe. unfold isPipe in Hpipe.
  apply andb_prop in Hpipe. destruct Hpipe as [Hop Hdata].
  apply byte_eqb_true in Hop. apply byte_eqb_true in Hdata.
  unfold ReadOp in Hr.
  split_ifs; try discriminate; injection Hr as Hc Hp; subst op;
    cbn [Op Data] in *; try discriminate.
  (* what is left is the direct push, whose opcode is its length; a plain
     opcode carries no data *)
  rewrite Hop in *. change (to_nat OpDATA1) with 1 in *. nat_conds.
  split; [|lia]. f_equal.
  assert (Hl : length (slice scr (p + 1) (p + (1 + 1))) = 1).
  { unfold slice. rewrite length_firstn, length_skipn. lia. }
  destruct (slice scr (p + 1) (p + (1 + 1))) as [|x [|y l]]; try discriminate.
  cbn in Hdata. now subst x.
Qed.

(** What holds of the scan for the delimiter.  A chunk that was read is the
    delimiter exactly when it is the one-byte push 01 7C; findPipe answers
    with a position exactly when the scan from [from] reaches it, over
    tokens that are not that push and over failed reads, and reads that push
    there; and it never answers with a position inside a token that the scan
    has read without error. *)
Theorem findPipe_separator (scr : list byte) (from : nat) :
  (forall p op p',
     ReadOp scr p = (inr op, p') ->
     (isPipe op = true <-> op = mkChunk OpDATA1 [x7c]))
  /\ (forall p,
        (exists fuel, findPipe fuel (Some scr) from = Done (Some p))
        <-> (Cursor isPipe scr from p
             /\ ReadOp scr p = (inr (mkChunk OpDATA1 [x7c]), p + 2)))
  /\ (forall q op q' p fuel,
        Cursor isPipe scr from q ->
        ReadOp scr q = (inr op, q') ->
        q < p < q' ->
        findPipe fuel (Some scr) from <> Done (Some p)).
Proof.
  split; [|split].
  - intros p op p' Hr. split.
    + intros H. now destruct (isPipe_chunk scr p p' op Hr H).
    + intros ->. reflexivity.
  - intros p. unfold findPipe. split.
    + intros [fuel H]. rewrite findPipe_loop_scan in H.
      destruct (scan_Cursor isPipe scr fuel from p H) as (Hc & op & p' & Hr & Hop).
      split; [exact Hc|].
      destruct (isPipe_chunk scr p p' op Hr Hop) as [-> ->]. exact Hr.
    + intros [Hc Hr].
      destruct (Cursor_scan isPipe scr from p Hc _ _ Hr eq_refl) as [fuel H].
      exists fuel. now rewrite findPipe_loop_scan.
  - intros q op q' p fuel Hq Hr Hin H. unfold findPipe in H.
    rewrite findPipe_loop_scan in H.
    destruct (scan_Cursor isPipe scr fuel from p H) as (Hc & _).
    exact (Cursor_not_inside isPipe scr from p Hc q (inr op) q' Hq Hr Hin).
Qed.

(** In 6A 03 'a' 7C 'b' 01 7C 01 'c', scanned after the marker, the
    delimiter is the push at offset 5, not the byte at offset 3. *)
Lemma findPipe_separator_witness :
  (forall fuel,
     findPipe fuel (Some [x6a; x03; x61; x7c; x62; x01; x7c; x01; x63]) 1
     <> Done (Some 3))
  /\ Cursor isPipe [x6a; x03; x61; x7c; x62; x01; x7c; x01; x63] 1 5.
Proof.
  pose proof (findPipe_separator [x6a; x03; x61; x7c; x62; x01; x7c; x01; x63] 1)
    as (_ & Hiff & Hinside).
  split.
  - intros fuel.
    apply (Hinside 1 (mkChunk x03 [x61; x7c; x62]) 5 3 fuel).
    + apply Cursor_here.
    + reflexivity.
    + lia.
  - apply (proj1 (Hiff 5)). exists 2. reflexivity.
Defined.

(** C7.  In 6A 01 41 4C 05 01 7C the token at offset 3 is an OP_PUSHDATA1
    that declares five bytes of data from offset 5 on, of which two are
    there.  The read fails with the cursor moved to offset 5, and the scan
    of findPipe goes on from there: it reads the bytes 01 7C inside that
    data as a push and answers 5.  Decode cuts the payload of "A" at that
    byte. *)
Theorem findPipe_splits_inside_push :
  let scr := [x6a; x01; x41; x4c; x05; x01; x7c] in
  ReadOp scr 3 = (inl ErrDataTooSmall, 5)
  /\ (forall fuel, findPipe (3 + fuel) (Some scr) 1 = Done (Some 5))
  /\ (forall fuel,
        Decode (3 + fuel) (Some scr)
        = Done (Some (mkBitcom [mkProtocol [x41] [x4c; x05] 1] []))).
Proof.
  cbv zeta. split; [reflexivity|]. split; intros fuel.
  - unfold findPipe. rewrite findPipe_loop_scan.
    apply scan_mono with (fuel := 3); [reflexivity|lia].
  - apply Decode_mono with (fuel := 3); [reflexivity|lia].
Qed.

(** The payload cut out by Decode: the 7C inside the three-byte push stays
    in the payload of "A", and "B" starts after the delimiter push. *)
Example Decode_pipe_byte_in_push :
  Decode 9 (Some [x6a; x01; x41; x03; x61; x7c; x62; x01; x7c; x01; x42])
  = Done (Some (mkBitcom [mkProtocol [x41] [x03; x61; x7c; x62] 1;
                          mkProtocol [x42] [] 9] [])).
Proof. reflexivity. Qed.

(** * The identity signature: what validateAip signs *)

(** The first test of the token loop holds of every opcode, so a token is
    taken for a push whenever its index is selected. *)
Lemma appendOp_selected (fieldIndexes : option (list Z)) (op : ScriptChunk)
    (idx : nat) (data : list byte) :
  AIP.selected fieldIndexes idx = true ->
  AIP.appendOp fieldIndexes op idx data = data ++ Data op.
Proof.
  intros Hsel. unfold AIP.appendOp. rewrite Hsel.
  destruct (to_nat (Op op)) as [|n]; reflexivity.
Qed.

(** C2.  With no field indexes, one preceding entry tagged "A" whose payload
    is the single opcode OP_DUP (76, the letter v): the buffer handed to the
    verify capability is 6A 'A' '|'.  The opcode byte is not in it. *)
Theorem validateAip_drops_plain_opcode
    (verify : list byte -> list byte -> list byte -> bool) :
  let aip := AIP.mkAIP 1 (list_byte_of_string "BITCOIN_ECDSA")
               (list_byte_of_string "1EXhSbGFiEAZCE5eeBvUxT6cBVHhrpPWXz")
               [x01; x02] None false in
  let protos := [mkProtocol [x41] [x76] 2] in
  AIP.signedData DecodeScript aip protos = [x6a; x41; x7c]
  /\ AIP.validateAip DecodeScript verify aip protos
     = if verify (AIP.Address aip) (AIP.Signature aip) [x6a; x41; x7c]
       then AIP.setValid aip true else aip.
Proof. split; reflexivity. Qed.

(** * The detached signature *)

(** C5.  One input, one output whose script is
    OP_RETURN "A" | SIGMA "B" with the delimiter written as Lock writes it
    (01 7C), instance 0.  getDataHash hashes the whole script: the
    delimiter is looked for under opcode OP_PUSHDATA1, so the SIGMA entry
    behind it is not seen and nothing is cut off. *)
Theorem getDataHash_misses_delimiter (sha256 : list byte -> list byte) :
  let scr := [x6a; x01; x41; x01; x7c; x05; x53; x49; x47; x4d; x41; x01; x42] in
  let tx := Sigma.mkTx [Some (Sigma.mkInput (Some (repeat x00 32)) 0)]
              [Sigma.mkOutput (Some scr)] in
  let s := Sigma.mkSigma Sigma.AlgoBSM
             (list_byte_of_string "1EXhSbGFiEAZCE5eeBvUxT6cBVHhrpPWXz")
             (list_byte_of_string "AQI=") [] [] 0 false (Some tx) 0 0 0 in
  Sigma.getDataHash sha256 s = Sigma.Ret (Some (sha256 scr))
  /\ Sigma.getMessageHash sha256 s
     = Sigma.Ret (Some (sha256 (sha256 (sha256 (repeat x00 32 ++ [x00; x00; x00; x00])
                                        ++ sha256 scr))))
  /\ Decode 8 (Some scr)
     = Done (Some (mkBitcom [mkProtocol [x41] [] 1;
                             mkProtocol Sigma.SIGMAPrefix [x01; x42] 5] [])).
Proof. repeat split; reflexivity. Qed.

(** What DecodeSIGMA reads from a payload has no transaction attached. *)
Lemma readFields_no_transaction (payload : list byte) (s : Sigma.Sigma) :
  Sigma.readFields payload = Some s -> Sigma.Transaction_ s = None.
Proof.
  unfold Sigma.readFields. intros H.
  repeat match type of H with
         | context [match ReadOp ?b ?p with _ => _ end] =>
             destruct (ReadOp b p) as [[?|?] ?]
         | context [if ?c then _ else _] => destruct c
         end;
    try discriminate; injection H as <-; reflexivity.
Qed.

Lemma VerifyMessageSignature_fields
    (verify : list byte -> list byte -> list byte -> bool) (s : Sigma.Sigma) :
  let s' := fst (Sigma.VerifyMessageSignature verify s) in
  Sigma.Message s' = Sigma.Message s
  /\ Sigma.Transaction_ s' = Sigma.Transaction_ s.
Proof.
  unfold Sigma.VerifyMessageSignature.
  repeat match goal with
         | |- context [match Sigma.GetSignatureBytes ?x with _ => _ end] =>
             destruct (Sigma.GetSignatureBytes x) as [? [?|]]
         | |- context [if ?c then _ else _] => destruct c
         end; split; reflexivity.
Qed.

Lemma validate_trusted
    (verify : list byte -> list byte -> list byte -> bool)
    (sha256 : list byte -> list byte) (s : Sigma.Sigma) :
  Sigma.Transaction_ s = None ->
  exists s', Sigma.validate verify sha256 s = Sigma.Ret s' /\ trusted s'.
Proof.
  intros Htx. unfold Sigma.validate.
  destruct (Sigma.SignerAddress s) as [|a addr] eqn:Ea.
  { exists s. split; [reflexivity|]. split; [exact Htx|]. now rewrite Ea. }
  destruct (Sigma.SignatureValue s) as [|v val] eqn:Ev.
  { exists s. split; [reflexivity|]. split; [exact Htx|]. now rewrite Ev. }
  cbn [Sigma.isNil negb andb].
  destruct (Sigma.Message s) as [|m msg] eqn:Em; cbn [Sigma.isNil negb].
  - rewrite Htx. eexists. split; [reflexivity|]. split; [exact Htx|reflexivity].
  - eexists. split; [reflexivity|].
    destruct (VerifyMessageSignature_fields verify s) as [Hm Ht].
    split; [now rewrite Ht|]. intros _ _ Hmsg. rewrite Hm, Em in Hmsg. discriminate.
Qed.

Lemma protosLoop_trusted
    (verify : list byte -> list byte -> list byte -> bool)
    (sha256 : list byte -> list byte) (protos : list BitcomProtocol) :
  forall acc,
    Forall trusted acc ->
    exists sigs,
      Sigma.protosLoop verify sha256 protos acc = Sigma.Ret sigs
      /\ Forall trusted sigs.
Proof.
  induction protos as [|p protos IH]; intros acc Hacc; simpl.
  - now exists acc.
  - destruct (Sigma.bytes_eqb (Protocol p) Sigma.SIGMAPrefix); [|now apply IH].
    destruct (Sigma.readFields (Bitcom.Script p)) as [s|] eqn:Hs; [|now apply IH].
    apply readFields_no_transaction in Hs.
    destruct (validate_trusted verify sha256 s Hs) as (s' & -> & Hs').
    apply IH. apply Forall_app. split; [exact Hacc|]. now constructor.
Qed.



(** C10.  For the record with the address, the message and the signature
    value of the test vector and algorithm BSM, when the verify capability
    rejects the signature VerifyMessageSignature still sets Valid and
    returns no error. *)
Theorem VerifyMessageSignature_test_vector
    (verify : list byte -> list byte -> list byte -> bool) :
  let s := Sigma.mkSigma Sigma.AlgoBSM Sigma.testAddress Sigma.testSignature
             Sigma.testMessage [] 0 false None 0 0 0 in
  verify (Sigma.SignerAddress s)
    (Sigma.bytesOrNil (fst (Sigma.GetSignatureBytes s))) (Sigma.Message s) = false ->
  snd (Sigma.GetSignatureBytes s) = None
  /\ Sigma.VerifyMessageSignature verify s = (Sigma.setValid s true, None)
  /\ Sigma.Valid (fst (Sigma.VerifyMessageSignature verify s)) = true.
Proof.
  intros s Hrej.
  assert (Hrun : Sigma.VerifyMessageSignature verify s = (Sigma.setValid s true, None)).
  { unfold Sigma.VerifyMessageSignature.
    change (Sigma.isNil (Sigma.SignerAddress s) || Sigma.isNil (Sigma.SignatureValue s)
            || Sigma.isNil (Sigma.Message s)) with false.
    cbv iota.
    destruct (Sigma.GetSignatureBytes s) as [sigBytes err] eqn:Hsig.
    assert (Herr : err = None).
    { now replace err with (snd (Sigma.GetSignatureBytes s)) by now rewrite Hsig. }
    subst err. cbn [fst] in Hrej.
    change (Sigma.bytes_eqb (Sigma.Algorithm s) Sigma.AlgoBSM) with true.
    cbv iota. rewrite Hrej. reflexivity. }
  split; [reflexivity|]. split; [exact Hrun|]. now rewrite Hrun.
Qed.

Lemma VerifyMessageSignature_test_vector_witness :
  Sigma.Valid
    (fst (Sigma.VerifyMessageSignature (fun _ _ _ => false)
            (Sigma.mkSigma Sigma.AlgoBSM Sigma.testAddress Sigma.testSignature
               Sigma.testMessage [] 0 false None 0 0 0))) = true.
Proof.
  apply (VerifyMessageSignature_test_vector (fun _ _ _ => false)). reflexivity.
Defined.

(** * The attestation record *)

Lemma decimalValue_ge (digits : list byte) :
  forall n, (n <= decimalValue n digits)%N.
Proof.
  induction digits as [|c rest IH]; intros n; simpl; [lia|].
  specialize (IH (n * 10 + (to_N c - 48))%N). lia.
Qed.

Lemma isDigit_value (c : byte) :
  BAP.isDigit c = true -> (to_N c - 48 <= 9)%N.
Proof.
  unfold BAP.isDigit. intros H. apply andb_prop in H. destruct H as [H1 H2].
  nat_conds. rewrite to_N_via_nat. lia.
Qed.

(** ParseUint on a token that holds a byte other than a digit: the value is
    0, unless the digits before that byte have already left 64 bits, and
    then it is the largest uint64. *)
Lemma ParseUint_loop_nondecimal (s : list byte) :
  forall n,
    (n < 18446744073709551616)%N ->
    forallb BAP.isDigit s = false ->
    fst (BAP.ParseUint_loop s n)
    = if (18446744073709551616 <=? decimalValue n (leadingDigits s))%N
      then BAP.maxUint64 else 0%N.
Proof.
  induction s as [|c rest IH]; intros n Hn Hnd; [discriminate|].
  cbn [forallb BAP.ParseUint_loop leadingDigits] in *.
  destruct (BAP.isDigit c) eqn:Ed.
  - cbn [andb decimalValue] in *.
    pose proof (isDigit_value c Ed) as Hd.
    pose proof (decimalValue_ge (leadingDigits rest) (n * 10 + (to_N c - 48))) as Hge.
    change BAP.cutoff with 1844674407370955162%N.
    change BAP.maxUint64 with 18446744073709551615%N in *.
    destruct (N.leb_spec 1844674407370955162 n) as [Hcut|Hcut].
    { cbn [fst]. destruct (N.leb_spec 18446744073709551616
                             (decimalValue (n * 10 + (to_N c - 48)) (leadingDigits rest)));
        [reflexivity|lia]. }
    destruct (N.ltb_spec ((n * 10 + (to_N c - 48)) mod 18446744073709551616) (n * 10))
      as [Hwrap|Hwrap].
    { cbn [orb fst].
      destruct (N.leb_spec 18446744073709551616
                  (decimalValue (n * 10 + (to_N c - 48)) (leadingDigits rest)));
        [reflexivity|].
      rewrite N.mod_small in Hwrap by lia. lia. }
    assert (Hsmall : (n * 10 + (to_N c - 48) < 18446744073709551616)%N).
    { destruct (N.lt_ge_cases (n * 10 + (to_N c - 48)) 18446744073709551616)
        as [H|H]; [exact H|].
      assert ((n * 10 + (to_N c - 48)) mod 18446744073709551616
              = n * 10 + (to_N c - 48) - 18446744073709551616)%N.
      { symmetry. apply N.mod_unique with (q := 1%N); lia. }
      lia. }
    rewrite N.mod_small in * by lia.
    destruct (N.ltb_spec 18446744073709551615 (n * 10 + (to_N c - 48))) as [H|H];
      [lia|].
    cbn [orb]. apply IH; [exact Hsmall|exact Hnd].
  - cbn [fst decimalValue].
    destruct (N.leb_spec 18446744073709551616 n); [lia|reflexivity].
Qed.

Lemma ParseUint_nondecimal (s : list byte) :
  isDecimal s = false ->
  fst (BAP.ParseUint s)
  = if (18446744073709551616 <=? decimalValue 0 (leadingDigits s))%N
    then BAP.maxUint64 else 0%N.
Proof.
  destruct s as [|c rest]; [reflexivity|].
  intros H. unfold BAP.ParseUint. apply ParseUint_loop_nondecimal; [lia|exact H].
Qed.

Lemma attachSignature_fields (byID : bool) (chunks : list ScriptChunk) (bap : BAP.Bap) :
  let bap' := BAP.attachSignature byID chunks bap in
  BAP.BitcomIndex bap' = BAP.BitcomIndex bap
  /\ BAP.Type_ bap' = BAP.Type_ bap
  /\ BAP.IDKey bap' = BAP.IDKey bap
  /\ BAP.Sequence bap' = BAP.Sequence bap.
Proof.
  unfold BAP.attachSignature.
  destruct (BAP.findPipeIdx chunks 0) as [pipeIdx|]; [|repeat split].
  destruct (pipeIdx + 3 <? length chunks); [|repeat split].
  destruct (pipeIdx + 4 <? length chunks); repeat split.
Qed.

Lemma BAP_protosLoop_skip
    (Chunks : list byte -> list ScriptChunk * option ScriptError)
    (TrimSpace : list byte -> list byte)
    (before rest : list BitcomProtocol) :
  noBAP before = true ->
  forall ii,
    BAP.protosLoop Chunks TrimSpace (before ++ rest) ii
    = BAP.protosLoop Chunks TrimSpace rest (ii + length before).
Proof.
  induction before as [|p before IH]; intros Hno ii; simpl.
  - now rewrite Nat.add_0_r.
  - simpl in Hno. apply andb_prop in Hno. destruct Hno as [Hp Hno].
    apply negb_true_iff in Hp. rewrite Hp, (IH Hno). f_equal. lia.
Qed.

(** C8, as amended.  An ATTEST or REVOKE payload of three tokens or more
    whose third token is not a decimal number still gives a record.  Its
    sequence is a uint64, never missing: it is 0, the value of a record read
    from sequence "0", and it is 2^64 - 1 when the digits the token starts
    with already spell a number of more than 64 bits. *)
Theorem DecodeBAP_nondecimal_sequence
    (Chunks : list byte -> list ScriptChunk * option ScriptError)
    (TrimSpace : list byte -> list byte)
    (before after : list BitcomProtocol) (p : BitcomProtocol)
    (prefix : list byte) (chunks : list ScriptChunk) :
  noBAP before = true ->
  Protocol p = BAP.BAPPrefix ->
  Chunks (Bitcom.Script p) = (chunks, None) ->
  3 <= length chunks ->
  BAP.chunkData chunks 0 = BAP.ATTEST \/ BAP.chunkData chunks 0 = BAP.REVOKE ->
  isDecimal (BAP.chunkData chunks 2) = false ->
  exists bap,
    BAP.DecodeBAP Chunks TrimSpace (Some (mkBitcom (before ++ p :: after) prefix))
    = Some bap
    /\ BAP.BitcomIndex bap = length before
    /\ BAP.Type_ bap = BAP.chunkData chunks 0
    /\ BAP.IDKey bap = BAP.chunkData chunks 1
    /\ BAP.Sequence bap
       = if (18446744073709551616
             <=? decimalValue 0 (leadingDigits (BAP.chunkData chunks 2)))%N
         then BAP.maxUint64 else 0%N.
Proof.
  intros Hno Htag Hchunks Hlen Hty Hnd.
  unfold BAP.DecodeBAP. cbn [Protocols].
  rewrite (BAP_protosLoop_skip Chunks TrimSpace before (p :: after) Hno).
  cbn [BAP.protosLoop]. rewrite Htag.
  replace (BAP.bytes_eqb BAP.BAPPrefix BAP.BAPPrefix) with true
    by (symmetry; now apply bytes_eqb_eq).
  rewrite Hchunks. cbn [orb].
  replace (length chunks <? 2) with false by (symmetry; apply Nat.ltb_ge; lia).
  eexists. split; [reflexivity|].
  unfold BAP.decodeFields.
  replace (3 <=? length chunks) with true by (symmetry; apply Nat.leb_le; lia).
  assert (Hbranch :
            BAP.bytes_eqb (BAP.chunkData chunks 0) BAP.ID = false
            /\ BAP.bytes_eqb (BAP.chunkData chunks 0) BAP.ATTEST
               || BAP.bytes_eqb (BAP.chunkData chunks 0) BAP.REVOKE = true).
  { destruct Hty as [-> | ->]; split; reflexivity. }
  destruct Hbranch as [-> ->].
  match goal with
  | |- context [BAP.attachSignature ?b ?c ?r] =>
      destruct (attachSignature_fields b c r) as (-> & -> & -> & ->)
  end.
  cbn [BAP.BitcomIndex BAP.Type_ BAP.IDKey BAP.Sequence].
  rewrite (ParseUint_nondecimal _ Hnd), Nat.add_0_l. repeat split.
Qed.

(** ATTEST "tx" "12x": the record has sequence 0. *)
Lemma DecodeBAP_nondecimal_sequence_witness :
  exists bap,
    BAP.DecodeBAP DecodeScript (fun s => s)
      (Some (mkBitcom
               [mkProtocol BAP.BAPPrefix
                  [x06; x41; x54; x54; x45; x53; x54; x02; x74; x78; x03; x31; x32; x78] 1]
               []))
    = Some bap
    /\ BAP.Sequence bap = 0%N.
Proof.
  destruct (DecodeBAP_nondecimal_sequence DecodeScript (fun s => s) []
              [] (mkProtocol BAP.BAPPrefix
                    [x06; x41; x54; x54; x45; x53; x54; x02; x74; x78; x03; x31; x32; x78] 1)
              []
              [mkChunk x06 BAP.ATTEST; mkChunk x02 [x74; x78]; mkChunk x03 [x31; x32; x78]])
    as (bap & Hrun & _ & _ & _ & Hseq).
  - reflexivity.
  - reflexivity.
  - reflexivity.
  - cbn [length]. lia.
  - left. reflexivity.
  - reflexivity.
  - exists bap. split; [exact Hrun|]. exact Hseq.
Defined.

(** C8, as stated, fails: in ATTEST "tx" "99999999999999999999x" the third
    token is not a decimal number, and the record carries sequence
    2^64 - 1, which is neither a missing sequence nor the zero value that
    stands for one. *)
Lemma DecodeBAP_nondecimal_sequence_counterexample :
  isDecimal (list_byte_of_string "99999999999999999999x") = false
  /\ exists bap,
       BAP.DecodeBAP DecodeScript (fun s => s)
         (Some (mkBitcom
                  [mkProtocol BAP.BAPPrefix
                     ([x06; x41; x54; x54; x45; x53; x54; x02; x74; x78; x15]
                      ++ list_byte_of_string "99999999999999999999x") 1]
                  []))
       = Some bap
       /\ BAP.Type_ bap = BAP.ATTEST
       /\ BAP.Sequence bap = 18446744073709551615%N
       /\ BAP.Sequence bap <> 0%N.
Proof.
  split; [reflexivity|]. eexists. split; [reflexivity|].
  repeat split. discriminate.
Qed.

(** * More on the envelope scanner and builder *)

(** X1.  What Lock writes: the prefix alone when there is no entry;
    otherwise the prefix, OP_RETURN, and the entries in order, each as the
    push of its tag followed by its payload bytes as they are, with the
    push 01 7C between two entries and none after the last. *)
Theorem Lock_layout (prefix : list byte) (entries : list BitcomProtocol) :
  Lock (mkBitcom [] prefix) = prefix
  /\ (entries <> [] ->
      Lock (mkBitcom entries prefix) = prefix ++ [OpRETURN] ++ encodeEntries entries)
  /\ (forall p q rest,
        encodeEntries (p :: q :: rest)
        = fst (AppendPushData [] (Protocol p)) ++ Bitcom.Script p
          ++ [OpDATA1; x7c] ++ encodeEntries (q :: rest))
  /\ (forall p,
        encodeEntries [p] = fst (AppendPushData [] (Protocol p)) ++ Bitcom.Script p).
Proof.
  split; [reflexivity|]. split; [apply Lock_encode|]. split.
  - intros p q rest. reflexivity.
  - intros p. cbn [encodeEntries]. now rewrite app_nil_r.
Qed.

Lemma Lock_layout_witness :
  Lock (mkBitcom [mkProtocol [x41] [x01; x61] 0; mkProtocol [x42] [x51] 0] [x00])
  = [x00; x6a; x01; x41; x01; x61; x01; x7c; x01; x42; x51].
Proof.
  rewrite (proj1 (proj2 (Lock_layout [x00]
                           [mkProtocol [x41] [x01; x61] 0; mkProtocol [x42] [x51] 0])));
    [reflexivity|discriminate].
Defined.

(** X2.  findReturn answers with the offset of the first OP_RETURN opcode:
    when the bytes before an OP_RETURN byte are complete tokens with no
    OP_RETURN opcode among them (a 6A byte inside the data of a push does
    not count), the answer is the length of those bytes, for any fuel above
    it. *)
Theorem findReturn_first_marker (prefix rest : list byte) (fuel : nat) :
  tokens notReturn prefix = true ->
  length prefix < fuel ->
  findReturn fuel (Some (prefix ++ OpRETURN :: rest)) = Done (Some (length prefix)).
Proof.
  intros Htok Hfuel. unfold findReturn. rewrite findReturn_loop_scan.
  apply tokens_sound in Htok.
  exact (findReturn_prefix prefix rest fuel Htok Hfuel).
Qed.

Lemma findReturn_first_marker_witness :
  findReturn 5 (Some ([x02; x6a; x6a; x51] ++ OpRETURN :: [x6a])) = Done (Some 4).
Proof.
  apply (findReturn_first_marker [x02; x6a; x6a; x51] [x6a] 5).
  - reflexivity.
  - cbn [length]. lia.
Defined.

(** A scan over complete tokens ends: with nothing found, or at the first
    hit, which splits the tokens in two runs of tokens. *)
Lemma scan_tokens_split (hit : ScriptChunk -> bool) (toks : list byte) :
  Tokens anyOp toks ->
  forall pre fuel,
    length toks < fuel ->
    scan hit fuel (pre ++ toks) (length pre) = Done None
    \/ exists a tok b op,
         toks = a ++ tok ++ b
         /\ ReadOp tok 0 = (inr op, length tok)
         /\ hit op = true
         /\ Tokens anyOp b
         /\ scan hit fuel (pre ++ toks) (length pre) = Done (Some (length pre + length a)).
Proof.
  induction 1 as [|tok op rest Hr _ Hrest IH]; intros pre fuel Hfuel.
  - left. apply scan_end; [lia|]. rewrite app_nil_r. lia.
  - apply ReadOp_ok_bounds in Hr as Hb. rewrite length_app in Hfuel.
    destruct (hit op) eqn:Hhit.
    + right. exists [], tok, rest, op. repeat split; trivial.
      cbn [length]. rewrite Nat.add_0_r.
      apply scan_here with (i' := length pre + length tok) (op := op); [lia| |exact Hhit].
      now apply ReadOp_at.
    + destruct fuel as [|fuel]; [lia|].
      assert (Hstep : scan hit (S fuel) (pre ++ tok ++ rest) (length pre)
                      = scan hit fuel ((pre ++ tok) ++ rest) (length (pre ++ tok))).
      { cbn [scan]. rewrite (ReadOp_at pre tok rest op Hr), Hhit.
        replace (length pre <? length (pre ++ tok ++ rest)) with true
          by (symmetry; apply Nat.ltb_lt; rewrite !length_app; lia).
        now rewrite length_app, <- app_assoc. }
      rewrite Hstep.
      destruct (IH (pre ++ tok) fuel ltac:(lia)) as [Hnone|(a & tk & b & opk & -> & Hk & Hhk & Hb' & Hs)].
      * now left.
      * right. exists (tok ++ a), tk, b, opk. repeat split; trivial.
        -- now rewrite <- app_assoc.
        -- rewrite Hs. do 2 f_equal. rewrite !length_app. lia.
Qed.

Lemma Decode_loop_break (f : nat) (scr : list byte) (pos pos' pipePos : nat)
    (op : ScriptChunk) (acc : list BitcomProtocol) :
  pos < length scr ->
  scan isPipe (S f) scr pos = Done (Some pipePos) ->
  ReadOp scr pos = (inr op, pos') ->
  pipePos < pos' ->
  Decode_loop (S f) scr pos acc = Done (acc ++ [mkProtocol (Data op) [] pos]).
Proof.
  intros Hpos Hscan Hr Hlt. cbn [Decode_loop findPipe].
  rewrite findPipe_loop_scan, Hscan, Hr.
  replace (pos <? length scr) with true by (symmetry; apply Nat.ltb_lt; lia).
  now replace (pipePos <? pos') with true by (symmetry; apply Nat.ltb_lt; lia).
Qed.

Lemma Decode_loop_total (n : nat) :
  forall toks,
    length toks <= n ->
    Tokens anyOp toks ->
    forall pre acc fuel,
      length toks < fuel ->
      exists r, Decode_loop fuel (pre ++ toks) (length pre) acc = Done r.
Proof.
  induction n as [|n IH]; intros toks Hn Htoks pre acc fuel Hfuel.
  - destruct toks; [|cbn in Hn; lia]. destruct fuel; [lia|].
    exists acc. cbn [Decode_loop]. rewrite app_nil_r.
    now rewrite Nat.ltb_irrefl.
  - destruct fuel as [|f]; [lia|].
    inversion Htoks as [|tok op rest Hr _ Hrest Heq].
    { exists acc. cbn [Decode_loop]. rewrite app_nil_r. now rewrite Nat.ltb_irrefl. }
    apply ReadOp_ok_bounds in Hr as Hb.
    pose proof (ReadOp_at pre tok rest op Hr) as Hread.
    assert (Hpos : length pre < length (pre ++ tok ++ rest)).
    { rewrite !length_app. lia. }
    rewrite <- Heq in Htoks, Hn.
    remember (tok ++ rest) as toks' eqn:Etoks. clear Heq.
    destruct (scan_tokens_split isPipe toks' Htoks pre (S f) Hfuel)
      as [Hnone|(a & tk & b & opk & Hsplit & Hk & Hhk & Hb' & Hs)].
    + eexists. now erewrite Decode_loop_last by eauto.
    + destruct (isPipe_chunk tk 0 (length tk) opk Hk Hhk) as [_ Hlen].
      destruct (Nat.lt_ge_cases (length pre + length a) (length pre + length tok))
        as [Hlt|Hge].
      * eexists. now erewrite Decode_loop_break by eauto.
      * erewrite Decode_loop_more by eauto.
        specialize (IH b).
        assert (Hlb : length toks' = length a + 2 + length b).
        { rewrite Hsplit, !length_app. lia. }
        destruct (IH ltac:(lia) Hb' (pre ++ a ++ tk)
                    (acc ++ [mkProtocol (Data op)
                               (slice (pre ++ toks') (length pre + length tok)
                                  (length pre + length a)) (length pre)])
                    f ltac:(lia)) as [r Hrun].
        exists r. rewrite <- Hrun. f_equal.
        -- rewrite Hsplit. now rewrite <- !app_assoc.
        -- rewrite !length_app. lia.
Qed.

(** X3.  On a script that is a sequence of complete tokens Decode returns,
    whatever the tokens are: a fuel above the length of the script is
    enough. *)
Theorem Decode_total_tokens (scr : list byte) (fuel : nat) :
  tokens anyOp scr = true ->
  length scr < fuel ->
  exists r, Decode fuel (Some scr) = Done r.
Proof.
  intros Htok Hfuel. apply tokens_sound in Htok.
  unfold Decode, findReturn. rewrite findReturn_loop_scan.
  pose proof (scan_tokens_split isReturn scr Htok [] fuel Hfuel) as Hscan.
  cbn [app length Nat.add] in Hscan.
  destruct Hscan as [->|(a & tk & b & opk & Hsplit & Hk & Hhk & Hb & ->)].
  - now eexists.
  - assert (Hlen : length tk = 1).
    { unfold isReturn in Hhk. apply byte_eqb_true in Hhk.
      unfold ReadOp in Hk.
      split_ifs; try discriminate; injection Hk as Hc Hp; subst opk;
        cbn [Op] in Hhk; try discriminate; try lia.
      rewrite Hhk in *. discriminate. }
    destruct (Decode_loop_total (length b) b (le_n _) Hb (a ++ tk) [] fuel) as [r Hrun].
    { rewrite Hsplit, !length_app in Hfuel. lia. }
    rewrite length_app, Hlen, <- app_assoc, <- Hsplit in Hrun.
    rewrite Hrun. now eexists.
Qed.

Lemma Decode_total_tokens_witness :
  exists r, Decode 10 (Some [x51; x6a; x01; x7c; x02; x61; x62; x4c; x00]) = Done r.
Proof.
  apply (Decode_total_tokens [x51; x6a; x01; x7c; x02; x61; x62; x4c; x00] 10).
  - reflexivity.
  - cbn [length]. lia.
Defined.

Lemma increasing_snoc (l : list nat) (x : nat) :
  increasing l -> Forall (fun y => y < x) l -> increasing (l ++ [x]).
Proof.
  induction l as [|a l IH]; intros Hinc Hall; [exact I|].
  inversion Hall as [|? ? Ha Hl]; subst.
  destruct l as [|b l]; [cbn; auto|].
  destruct Hinc as [Hab Hinc]. cbn [app increasing]. split; [exact Hab|].
  exact (IH Hinc Hl).
Qed.

Lemma slice_empty (scr : list byte) (i : nat) : slice scr i i = [].
Proof. unfold slice. now rewrite Nat.sub_diag. Qed.

Lemma ReadOp_cursor_bound (b : list byte) (p : nat) :
  p <= length b -> snd (ReadOp b p) <= length b.
Proof.
  intros Hp. unfold ReadOp.
  repeat match goal with
         | |- context [if ?c then _ else _] => destruct c eqn:?
         end; cbn [snd];
    repeat match goal with
           | H : (_ <? _) = false |- _ => apply Nat.ltb_ge in H
           | H : (_ <=? _) = false |- _ => apply Nat.leb_gt in H
           end; lia.
Qed.

(** A scan that finds nothing has walked to the end of the script. *)
Lemma scan_Cursor_end (hit : ScriptChunk -> bool) (scr : list byte) :
  forall fuel i,
    scan hit fuel scr i = Done None ->
    i <= length scr ->
    Cursor hit scr i (length scr).
Proof.
  induction fuel as [|fuel IH]; intros i H Hi; [discriminate|].
  simpl in H. destruct (Nat.ltb_spec i (length scr)) as [Hlt|Hge].
  - pose proof (ReadOp_cursor_bound scr i Hi) as Hb.
    destruct (ReadOp scr i) as [[e|op] i'] eqn:Hr; cbn [snd] in Hb.
    + apply Cursor_step with (r := inl e) (i' := i'); auto.
    + destruct (hit op) eqn:Hhit; [discriminate|].
      apply Cursor_step with (r := inr op) (i' := i'); auto.
  - replace i with (length scr) by lia. constructor.
Qed.

(** A scan does not go past the first hit. *)
Lemma Cursor_hit_stop (hit : ScriptChunk -> bool) (scr : list byte) (i e : nat) :
  Cursor hit scr i e ->
  forall op e', ReadOp scr e = (inr op, e') -> hit op = true ->
  forall q, Cursor hit scr i q -> q <= e.
Proof.
  induction 1 as [i|i r i' e Hi Hr Hhit Hc IH]; intros op e' He Hop q Hq.
  - inversion Hq as [j|j r0 j' q0 Hj Hr0 Hhit0 Hc0]; subst; [lia|].
    rewrite He in Hr0. injection Hr0 as <- <-. cbn in Hhit0. congruence.
  - inversion Hq as [j|j r0 j' q0 Hj Hr0 Hhit0 Hc0]; subst.
    + apply Cursor_le in Hc. pose proof (ReadOp_cursor_le scr q) as Hle.
      rewrite Hr in Hle. cbn in Hle. lia.
    + rewrite Hr in Hr0. injection Hr0 as <- <-. exact (IH op e' He Hop q Hc0).
Qed.

Lemma Decode_loop_entriesFrom (scr : list byte) :
  forall fuel pos acc r,
    Decode_loop fuel scr pos acc = Done r ->
    exists protos, r = acc ++ protos /\ entriesFrom scr pos protos.
Proof.
  induction fuel as [|fuel IH]; intros pos acc r H; [discriminate|].
  cbn [Decode_loop findPipe] in H.
  destruct (Nat.ltb_spec pos (length scr)) as [Hlt|Hge].
  2:{ injection H as <-. exists []. rewrite app_nil_r. split; [reflexivity|now left]. }
  rewrite findPipe_loop_scan in H.
  destruct (scan isPipe (S fuel) scr pos) as [pipePos|] eqn:Hscan; [|discriminate].
  destruct (ReadOp scr pos) as [[err|op] pos'] eqn:Hr.
  { injection H as <-. exists []. rewrite app_nil_r. split; [reflexivity|].
    right. now exists err, pos'. }
  destruct pipePos as [pp|].
  - destruct (scan_Cursor isPipe scr (S fuel) pos pp Hscan)
      as (Hc & opk & pk & Hk & Hhk).
    destruct (isPipe_chunk scr pp pk opk Hk Hhk) as [-> ->].
    destruct (pp <? pos') eqn:Hbreak.
    + injection H as <-. eexists. split; [reflexivity|].
      cbn [entriesFrom Pos Protocol Bitcom.Script]. split; [reflexivity|].
      exists op, pos'. split; [exact Hr|]. split; [reflexivity|].
      right. exists pp. rewrite Hbreak. repeat split; trivial.
      apply Nat.ltb_lt in Hbreak. unfold slice.
      replace (pp - pos') with 0 by lia. reflexivity.
    + destruct (IH _ _ _ H) as (protos & -> & Hrest).
      exists (mkProtocol (Data op) (slice scr pos' pp) pos :: protos).
      split; [now rewrite <- app_assoc|].
      cbn [entriesFrom Pos Protocol Bitcom.Script]. split; [reflexivity|].
      exists op, pos'. split; [exact Hr|]. split; [reflexivity|].
      right. exists pp. rewrite Hbreak. repeat split; trivial.
  - injection H as <-. eexists. split; [reflexivity|].
    cbn [entriesFrom Pos Protocol Bitcom.Script]. split; [reflexivity|].
    exists op, pos'. split; [exact Hr|]. split; [reflexivity|].
    left. repeat split; trivial.
    apply (scan_Cursor_end isPipe scr (S fuel) pos Hscan). lia.
Qed.

(** The description leaves no choice: two lists of entries cut out of the
    same script from the same offset are the same list. *)
Lemma entriesFrom_unique (scr : list byte) :
  forall l1 pos l2,
    entriesFrom scr pos l1 -> entriesFrom scr pos l2 -> l1 = l2.
Proof.
  induction l1 as [|p1 r1 IH]; intros pos l2 H1 H2.
  - destruct l2 as [|p2 r2]; [reflexivity|]. exfalso.
    destruct H2 as (_ & op & pos' & Hr & _).
    apply ReadOp_ok_bounds in Hr as Hb.
    destruct H1 as [H1|(err & q & H1)]; [lia|congruence].
  - destruct l2 as [|p2 r2].
    { exfalso. destruct H1 as (_ & op & pos' & Hr & _).
      apply ReadOp_ok_bounds in Hr as Hb.
      destruct H2 as [H2|(err & q & H2)]; [lia|congruence]. }
    destruct H1 as (Hp1 & op1 & q1 & Hr1 & Ht1 & Hc1).
    destruct H2 as (Hp2 & op2 & q2 & Hr2 & Ht2 & Hc2).
    rewrite Hr1 in Hr2. injection Hr2 as <- <-.
    assert (Hend : forall e,
               Cursor isPipe scr pos (length scr) ->
               Cursor isPipe scr pos e ->
               ReadOp scr e = (inr (mkChunk OpDATA1 [x7c]), e + 2) -> False).
    { intros e Hlen He Hk.
      pose proof (Cursor_hit_stop isPipe scr pos e He _ _ Hk eq_refl _ Hlen) as Hle.
      apply ReadOp_ok_bounds in Hk. lia. }
    assert (Hrec : forall s1 s2,
               Bitcom.Script p1 = s1 -> Bitcom.Script p2 = s2 -> s1 = s2 -> p1 = p2).
    { intros s1 s2 E1 E2 E. destruct p1, p2. cbn in *. congruence. }
    destruct Hc1 as [(Hl1 & Hs1 & ->)|(e1 & He1 & Hk1 & Hs1 & Hn1)];
      destruct Hc2 as [(Hl2 & Hs2 & ->)|(e2 & He2 & Hk2 & Hs2 & Hn2)].
    + f_equal. exact (Hrec _ _ Hs1 Hs2 eq_refl).
    + exfalso. exact (Hend e2 Hl1 He2 Hk2).
    + exfalso. exact (Hend e1 Hl2 He1 Hk1).
    + assert (e1 = e2).
      { pose proof (Cursor_hit_stop isPipe scr pos e1 He1 _ _ Hk1 eq_refl _ He2).
        pose proof (Cursor_hit_stop isPipe scr pos e2 He2 _ _ Hk2 eq_refl _ He1).
        lia. }
      subst e2. f_equal; [exact (Hrec _ _ Hs1 Hs2 eq_refl)|].
      destruct (e1 <? q1); [congruence|]. exact (IH _ _ Hn1 Hn2).
Qed.

Lemma entriesFrom_pos (scr : list byte) :
  forall l pos,
    entriesFrom scr pos l ->
    Forall (fun p => pos <= Pos p) l /\ increasing (map Pos l).
Proof.
  induction l as [|p rest IH]; intros pos H; [split; [constructor|exact I]|].
  destruct H as (Hp & op & pos' & Hr & _ & Hc).
  apply ReadOp_ok_bounds in Hr as Hb.
  assert (Hrest : rest = []
                  \/ exists e, pos' <= e /\ entriesFrom scr (e + 2) rest).
  { destruct Hc as [(_ & _ & ->)|(e & _ & _ & _ & Hn)]; [now left|].
    destruct (Nat.ltb_spec e pos'); [now left|right; now exists e]. }
  destruct Hrest as [->|(e & Hle & Hn)].
  - split; [constructor; [lia|constructor]|exact I].
  - destruct (IH _ Hn) as [Hall Hinc]. split.
    + constructor; [lia|]. eapply Forall_impl; [|exact Hall]. cbn. intros q Hq. lia.
    + cbn [map]. destruct rest as [|q rest']; [exact I|].
      cbn [map increasing] in *. split; [|exact Hinc].
      inversion Hall as [|? ? Hq _]; subst. lia.
Qed.

(** X4.  The entries of a decoded envelope are cut out of the script in
    order, from the byte after the marker on, and nothing is left to choice.
    Each entry starts where the one before it leaves off; its tag is the
    data of the token at its Pos; its payload runs from the end of that
    token to the first delimiter push 01 7C that the scan from that token
    meets, a delimiter met later or a 7C byte the scan has stepped over
    being no bound, and to the end of the script when the scan meets none;
    the next entry starts two bytes after that delimiter.  No other list of
    entries fits this description, and the Pos values grow. *)
Theorem Decode_entries_slices (fuel : nat) (scr : list byte) (b : Bitcom) :
  Decode fuel (Some scr) = Done (Some b) ->
  exists marker,
    findReturn fuel (Some scr) = Done (Some marker)
    /\ entriesFrom scr (marker + 1) (Protocols b)
    /\ (forall l, entriesFrom scr (marker + 1) l -> l = Protocols b)
    /\ Forall (fun p => marker < Pos p) (Protocols b)
    /\ increasing (map Pos (Protocols b)).
Proof.
  unfold Decode. intros H.
  destruct (findReturn fuel (Some scr)) as [[marker|]|]; try discriminate.
  destruct (Decode_loop fuel scr (marker + 1) []) as [protos|] eqn:Hloop;
    [|discriminate].
  injection H as <-. exists marker. split; [reflexivity|]. cbn [Protocols].
  destruct (Decode_loop_entriesFrom scr fuel (marker + 1) [] protos Hloop)
    as (l & -> & Hl).
  cbn [app]. split; [exact Hl|]. split.
  - intros l' Hl'. exact (entriesFrom_unique scr l' (marker + 1) l Hl' Hl).
  - destruct (entriesFrom_pos scr l (marker + 1) Hl) as [Hall Hinc].
    split; [|exact Hinc].
    eapply Forall_impl; [|exact Hall]. cbn. intros p Hp. lia.
Qed.

(** In 6A "A" 01 'b' | "c" | "d" the payload of "A" ends at the first
    delimiter, at offset 5, not at the second, at offset 9. *)
Lemma Decode_entries_slices_witness :
  entriesFrom [x6a; x01; x41; x01; x62; x01; x7c; x01; x63; x01; x7c; x01; x64] 1
    [mkProtocol [x41] [x01; x62] 1; mkProtocol [x63] [] 7; mkProtocol [x64] [] 11]
  /\ increasing [1; 7; 11].
Proof.
  destruct (Decode_entries_slices 13
              [x6a; x01; x41; x01; x62; x01; x7c; x01; x63; x01; x7c; x01; x64]
              (mkBitcom [mkProtocol [x41] [x01; x62] 1; mkProtocol [x63] [] 7;
                         mkProtocol [x64] [] 11] [])
              eq_refl) as (marker & Hm & Hin & _ & _ & Hinc).
  vm_compute in Hm. injection Hm as <-.
  split; [exact Hin|exact Hinc].
Defined.

(** In the same script an entry "A" that runs to the second delimiter, or
    to the end of the script, is not an entry of the envelope. *)
Example entriesFrom_first_delimiter :
  ~ entriesFrom [x6a; x01; x41; x01; x62; x01; x7c; x01; x63; x01; x7c; x01; x64] 1
      [mkProtocol [x41] [x01; x62; x01; x7c; x01; x63] 1; mkProtocol [x64] [] 11]
  /\ ~ entriesFrom [x6a; x01; x41; x01; x62; x01; x7c; x01; x63; x01; x7c; x01; x64] 1
        [mkProtocol [x41] [x01; x62; x01; x7c; x01; x63; x01; x7c; x01; x64] 1].
Proof.
  assert (H : exists l,
             entriesFrom
               [x6a; x01; x41; x01; x62; x01; x7c; x01; x63; x01; x7c; x01; x64] 1 l
             /\ l = [mkProtocol [x41] [x01; x62] 1; mkProtocol [x63] [] 7;
                     mkProtocol [x64] [] 11]).
  { destruct (Decode_loop_entriesFrom
                [x6a; x01; x41; x01; x62; x01; x7c; x01; x63; x01; x7c; x01; x64]
                13 1 [] _ eq_refl) as (l & Hl & Hin).
    exists l. split; [exact Hin|]. symmetry. exact Hl. }
  destruct H as (l & Hin & ->).
  split; intros Hbad;
    pose proof (entriesFrom_unique _ _ _ _ Hbad Hin) as E; discriminate E.
Qed.

(** * More on the identity signature *)

Lemma tapeLoop_unrestricted (tape : list ScriptChunk) :
  forall data idx,
    AIP.tapeLoop None tape data idx = (data ++ flat_map Data tape, idx + length tape).
Proof.
  induction tape as [|op tape IH]; intros data idx; cbn [AIP.tapeLoop flat_map length].
  - now rewrite app_nil_r, Nat.add_0_r.
  - rewrite appendOp_selected by reflexivity. rewrite IH, <- app_assoc.
    f_equal. lia.
Qed.

Lemma protosLoop_unrestricted
    (Chunks : list byte -> list ScriptChunk * option ScriptError)
    (protos : list BitcomProtocol) :
  forall data idx,
    AIP.protosLoop Chunks None protos data idx = data ++ entriesData Chunks protos.
Proof.
  induction protos as [|p protos IH]; intros data idx; cbn [AIP.protosLoop entriesData].
  - now rewrite app_nil_r.
  - destruct (Chunks (Bitcom.Script p)) as [tape [err|]].
    + rewrite IH. cbn [app]. now rewrite <- app_assoc.
    + rewrite tapeLoop_unrestricted, IH. now rewrite <- !app_assoc.
Qed.

(** X5.  Without field indexes the buffer that validateAip signs is the
    marker byte 6A followed, for each preceding entry in order, by its tag
    and, when its payload tokenizes, by the data of every token of the
    payload and the byte '|'; an entry whose payload does not tokenize
    gives its tag alone. *)
Theorem signedData_unrestricted
    (Chunks : list byte -> list ScriptChunk * option ScriptError)
    (aip : AIP.AIP) (protos : list BitcomProtocol) :
  AIP.FieldIndexes aip = None ->
  AIP.signedData Chunks aip protos = OpRETURN :: entriesData Chunks protos.
Proof.
  intros Hnil. unfold AIP.signedData. rewrite Hnil.
  now rewrite protosLoop_unrestricted.
Qed.

Lemma signedData_unrestricted_witness :
  AIP.signedData DecodeScript (AIP.mkAIP 2 [] [] [] None false)
    [mkProtocol [x41] [x02; x61; x62; x01; x63] 0; mkProtocol [x42] [x05; x64] 0]
  = [x6a; x41; x61; x62; x63; x7c; x42].
Proof.
  rewrite (signedData_unrestricted DecodeScript (AIP.mkAIP 2 [] [] [] None false)
             [mkProtocol [x41] [x02; x61; x62; x01; x63] 0; mkProtocol [x42] [x05; x64] 0]
             eq_refl).
  reflexivity.
Defined.

Lemma AIP_protosLoop_valid
    (Chunks : list byte -> list ScriptChunk * option ScriptError)
    (verify : list byte -> list byte -> list byte -> bool)
    (P : AIP.AIP -> Prop) (all : list BitcomProtocol) :
  (forall a,
     AIP.BitcomIndex a < length all ->
     Protocol (nth (AIP.BitcomIndex a) all (mkProtocol [] [] 0)) = AIPDecoder.AIPPrefix ->
     AIP.Valid a
     = verify (AIP.Address a) (AIP.Signature a)
         (AIP.signedData Chunks a (firstn (AIP.BitcomIndex a) all)) ->
     P a) ->
  forall protos done aips,
    all = done ++ protos ->
    Forall P aips ->
    Forall P (AIPDecoder.protosLoop Chunks verify all protos (length done) aips).
Proof.
  intros HP. induction protos as [|p protos IH]; intros done aips Hall Haips;
    cbn [AIPDecoder.protosLoop]; [exact Haips|].
  assert (Hnext : all = (done ++ [p]) ++ protos) by now rewrite <- app_assoc.
  assert (Hlen : S (length done) = length (done ++ [p]))
    by (rewrite length_app; cbn; lia).
  rewrite Hlen.
  destruct (BAP.bytes_eqb (Protocol p) AIPDecoder.AIPPrefix) eqn:Htag;
    [|now apply IH].
  destruct (Chunks (Bitcom.Script p)) as [chunks err].
  destruct ((match err with Some _ => true | None => false end)
            || (length chunks <? 3)); [now apply IH|].
  apply IH; [exact Hnext|]. apply Forall_app. split; [exact Haips|].
  constructor; [|constructor].
  apply bytes_eqb_eq in Htag.
  unfold AIP.validateAip.
  match goal with
  | |- P (if ?c then _ else _) => destruct c eqn:Hv
  end; apply HP; cbn [AIP.BitcomIndex AIP.Valid AIP.Address AIP.Signature AIP.setValid];
    try (rewrite Hall, length_app; cbn; lia);
    try (rewrite Hall, app_nth2, Nat.sub_diag by lia; exact Htag);
    symmetry; exact Hv.
Qed.

(** X6.  Every record that DecodeAIP returns comes from an entry tagged
    with the AIP prefix, at the index kept in BitcomIndex, and its Valid is
    the answer of the verify capability for the record's address and
    signature on the buffer built from the entries before that index, and
    from no entry after it. *)
Theorem DecodeAIP_valid
    (Chunks : list byte -> list ScriptChunk * option ScriptError)
    (verify : list byte -> list byte -> list byte -> bool)
    (b : Bitcom) (a : AIP.AIP) :
  In a (AIPDecoder.DecodeAIP Chunks verify (Some b)) ->
  AIP.BitcomIndex a < length (Protocols b)
  /\ Protocol (nth (AIP.BitcomIndex a) (Protocols b) (mkProtocol [] [] 0))
     = AIPDecoder.AIPPrefix
  /\ AIP.Valid a
     = verify (AIP.Address a) (AIP.Signature a)
         (AIP.signedData Chunks a (firstn (AIP.BitcomIndex a) (Protocols b))).
Proof.
  intros Hin. unfold AIPDecoder.DecodeAIP in Hin.
  pose proof (AIP_protosLoop_valid Chunks verify
                (fun a =>
                   AIP.BitcomIndex a < length (Protocols b)
                   /\ Protocol (nth (AIP.BitcomIndex a) (Protocols b) (mkProtocol [] [] 0))
                      = AIPDecoder.AIPPrefix
                   /\ AIP.Valid a
                      = verify (AIP.Address a) (AIP.Signature a)
                          (AIP.signedData Chunks a
                             (firstn (AIP.BitcomIndex a) (Protocols b))))
                (Protocols b) (fun a H1 H2 H3 => conj H1 (conj H2 H3))
                (Protocols b) [] [] eq_refl (Forall_nil _))
    as Hall.
  rewrite Forall_forall in Hall. exact (Hall a Hin).
Qed.

(** "A" 01 'x' | AIP "alg" "addr" "sig", with a capability that accepts
    exactly the buffer 6A 'A' 'x' '|'. *)
Lemma DecodeAIP_valid_witness :
  exists a,
    AIPDecoder.DecodeAIP DecodeScript
      (fun _ _ m => BAP.bytes_eqb m [x6a; x41; x78; x7c])
      (Some (mkBitcom
               [mkProtocol [x41] [x01; x78] 1;
                mkProtocol AIPDecoder.AIPPrefix
                  [x03; x61; x6c; x67; x04; x61; x64; x64; x72; x03; x73; x69; x67] 40]
               [])) = [a]
    /\ AIP.BitcomIndex a = 1 /\ AIP.Valid a = true.
Proof.
  eexists. split; [reflexivity|]. split; [reflexivity|].
  apply (DecodeAIP_valid DecodeScript
           (fun _ _ m => BAP.bytes_eqb m [x6a; x41; x78; x7c])
           (mkBitcom
              [mkProtocol [x41] [x01; x78] 1;
               mkProtocol AIPDecoder.AIPPrefix
                 [x03; x61; x6c; x67; x04; x61; x64; x64; x72; x03; x73; x69; x67] 40]
              [])).
  left. reflexivity.
Defined.

(** * More on the attestation record *)

(** ParseUint on a decimal number: its value, or the largest uint64 when
    the value does not fit. *)
Lemma ParseUint_loop_decimal (s : list byte) :
  forall n,
    (n < 18446744073709551616)%N ->
    forallb BAP.isDigit s = true ->
    fst (BAP.ParseUint_loop s n) = N.min (decimalValue n s) BAP.maxUint64.
Proof.
  change BAP.maxUint64 with 18446744073709551615%N.
  induction s as [|c rest IH]; intros n Hn Hd; cbn [forallb BAP.ParseUint_loop decimalValue] in *.
  - cbn [fst]. lia.
  - apply andb_prop in Hd. destruct Hd as [Hc Hrest]. rewrite Hc.
    pose proof (isDigit_value c Hc) as Hv.
    pose proof (decimalValue_ge rest (n * 10 + (to_N c - 48))) as Hge.
    change BAP.cutoff with 1844674407370955162%N.
    change BAP.maxUint64 with 18446744073709551615%N.
    destruct (N.leb_spec 1844674407370955162 n) as [Hcut|Hcut]; [cbn [fst]; lia|].
    destruct (N.lt_ge_cases (n * 10 + (to_N c - 48)) 18446744073709551616)
      as [Hsmall|Hbig].
    + rewrite N.mod_small by lia.
      destruct (N.ltb_spec (n * 10 + (to_N c - 48)) (n * 10)) as [H|H]; [lia|].
      destruct (N.ltb_spec 18446744073709551615 (n * 10 + (to_N c - 48))) as [H'|H'];
        [lia|].
      cbn [orb]. now apply IH.
    + assert (Hmod : ((n * 10 + (to_N c - 48)) mod 18446744073709551616
                      = n * 10 + (to_N c - 48) - 18446744073709551616)%N).
      { symmetry. apply N.mod_unique with (q := 1%N); lia. }
      rewrite Hmod.
      destruct (N.ltb_spec (n * 10 + (to_N c - 48) - 18446744073709551616) (n * 10))
        as [H|H]; [|lia].
      cbn [orb fst]. lia.
Qed.

Lemma ParseUint_decimal (s : list byte) :
  isDecimal s = true ->
  fst (BAP.ParseUint s) = N.min (decimalValue 0 s) BAP.maxUint64.
Proof.
  destruct s as [|c rest]; [discriminate|].
  intros H. unfold BAP.ParseUint. apply ParseUint_loop_decimal; [lia|exact H].
Qed.

(** X7.  An ATTEST or REVOKE payload of three tokens or more whose third
    token is a decimal number gives a record whose sequence is that number,
    or 2^64 - 1 when the number does not fit 64 bits. *)
Theorem DecodeBAP_decimal_sequence
    (Chunks : list byte -> list ScriptChunk * option ScriptError)
    (TrimSpace : list byte -> list byte)
    (before after : list BitcomProtocol) (p : BitcomProtocol)
    (prefix : list byte) (chunks : list ScriptChunk) :
  noBAP before = true ->
  Protocol p = BAP.BAPPrefix ->
  Chunks (Bitcom.Script p) = (chunks, None) ->
  3 <= length chunks ->
  BAP.chunkData chunks 0 = BAP.ATTEST \/ BAP.chunkData chunks 0 = BAP.REVOKE ->
  isDecimal (BAP.chunkData chunks 2) = true ->
  exists bap,
    BAP.DecodeBAP Chunks TrimSpace (Some (mkBitcom (before ++ p :: after) prefix))
    = Some bap
    /\ BAP.Type_ bap = BAP.chunkData chunks 0
    /\ BAP.IDKey bap = BAP.chunkData chunks 1
    /\ BAP.Sequence bap
       = N.min (decimalValue 0 (BAP.chunkData chunks 2)) BAP.maxUint64.
Proof.
  intros Hno Htag Hchunks Hlen Hty Hdec.
  unfold BAP.DecodeBAP. cbn [Protocols].
  rewrite (BAP_protosLoop_skip Chunks TrimSpace before (p :: after) Hno).
  cbn [BAP.protosLoop]. rewrite Htag.
  replace (BAP.bytes_eqb BAP.BAPPrefix BAP.BAPPrefix) with true
    by (symmetry; now apply bytes_eqb_eq).
  rewrite Hchunks. cbn [orb].
  replace (length chunks <? 2) with false by (symmetry; apply Nat.ltb_ge; lia).
  eexists. split; [reflexivity|].
  unfold BAP.decodeFields.
  replace (3 <=? length chunks) with true by (symmetry; apply Nat.leb_le; lia).
  assert (Hbranch :
            BAP.bytes_eqb (BAP.chunkData chunks 0) BAP.ID = false
            /\ BAP.bytes_eqb (BAP.chunkData chunks 0) BAP.ATTEST
               || BAP.bytes_eqb (BAP.chunkData chunks 0) BAP.REVOKE = true).
  { destruct Hty as [-> | ->]; split; reflexivity. }
  destruct Hbranch as [-> ->].
  match goal with
  | |- context [BAP.attachSignature ?b ?c ?r] =>
      destruct (attachSignature_fields b c r) as (_ & -> & -> & ->)
  end.
  cbn [BAP.Type_ BAP.IDKey BAP.Sequence].
  rewrite (ParseUint_decimal _ Hdec). repeat split.
Qed.

(** REVOKE "tx" "4096". *)
Lemma DecodeBAP_decimal_sequence_witness :
  exists bap,
    BAP.DecodeBAP DecodeScript (fun s => s)
      (Some (mkBitcom
               [mkProtocol [x41] [] 1;
                mkProtocol BAP.BAPPrefix
                  [x06; x52; x45; x56; x4f; x4b; x45; x02; x74; x78;
                   x04; x34; x30; x39; x36] 3]
               []))
    = Some bap
    /\ BAP.Sequence bap = 4096%N.
Proof.
  destruct (DecodeBAP_decimal_sequence DecodeScript (fun s => s)
              [mkProtocol [x41] [] 1] []
              (mkProtocol BAP.BAPPrefix
                 [x06; x52; x45; x56; x4f; x4b; x45; x02; x74; x78;
                  x04; x34; x30; x39; x36] 3)
              []
              [mkChunk x06 BAP.REVOKE; mkChunk x02 [x74; x78];
               mkChunk x04 [x34; x30; x39; x36]])
    as (bap & Hrun & _ & _ & Hseq).
  - reflexivity.
  - reflexivity.
  - reflexivity.
  - cbn [length]. lia.
  - right. reflexivity.
  - reflexivity.
  - exists bap. split; [exact Hrun|]. exact Hseq.
Defined.

Lemma attachSignature_signed (byID : bool) (chunks : list ScriptChunk) (bap : BAP.Bap) :
  BAP.IsSignedByID bap = false ->
  let bap' := BAP.attachSignature byID chunks bap in
  BAP.IsSignedByID bap' = true ->
  byID = true /\ BAP.RootAddress bap' = BAP.SignerAddr bap'.
Proof.
  intros Hb. unfold BAP.attachSignature.
  destruct (BAP.findPipeIdx chunks 0) as [pipeIdx|]; cbn zeta; [|congruence].
  destruct (pipeIdx + 3 <? length chunks); [|congruence].
  destruct (pipeIdx + 4 <? length chunks);
    cbn [BAP.IsSignedByID BAP.RootAddress BAP.SignerAddr]; [|congruence].
  intros ->. split; reflexivity.
Qed.

Lemma decodeFields_signed (ii : nat) (chunks : list ScriptChunk) :
  let bap := BAP.decodeFields ii chunks in
  BAP.BitcomIndex bap = ii
  /\ (BAP.IsSignedByID bap = true ->
      BAP.Type_ bap = BAP.ID /\ BAP.RootAddress bap = BAP.SignerAddr bap).
Proof.
  unfold BAP.decodeFields.
  destruct (BAP.bytes_eqb (BAP.chunkData chunks 0) BAP.ID) eqn:Hid.
  - apply bytes_eqb_eq in Hid.
    destruct (3 <=? length chunks); cbn zeta; [|split; [reflexivity|discriminate]].
    match goal with
    | |- context [BAP.attachSignature ?b ?c ?r] =>
        destruct (attachSignature_fields b c r) as (Hi & Ht & _);
        pose proof (attachSignature_signed b c r eq_refl) as Hs
    end.
    cbn zeta in *. rewrite Hi, Ht. split; [reflexivity|].
    intros H. destruct (Hs H) as [_ Hroot]. split; [exact Hid|exact Hroot].
  - destruct (BAP.bytes_eqb (BAP.chunkData chunks 0) BAP.ATTEST
              || BAP.bytes_eqb (BAP.chunkData chunks 0) BAP.REVOKE).
    + destruct (3 <=? length chunks); cbn zeta; [|split; [reflexivity|discriminate]].
      match goal with
      | |- context [BAP.attachSignature ?b ?c ?r] =>
          destruct (attachSignature_fields b c r) as (Hi & _);
          pose proof (attachSignature_signed b c r eq_refl) as Hs
      end.
      cbn zeta in *. rewrite Hi. split; [reflexivity|].
      intros H. destruct (Hs H) as [Hf _]. discriminate.
    + destruct (BAP.bytes_eqb (BAP.chunkData chunks 0) BAP.ALIAS);
        [|split; [reflexivity|discriminate]].
      destruct (3 <=? length chunks); cbn zeta; [|split; [reflexivity|discriminate]].
      match goal with
      | |- context [BAP.attachSignature ?b ?c ?r] =>
          destruct (attachSignature_fields b c r) as (Hi & _);
          pose proof (attachSignature_signed b c r eq_refl) as Hs
      end.
      cbn zeta in *. rewrite Hi. split; [reflexivity|].
      intros H. destruct (Hs H) as [Hf _]. discriminate.
Qed.

Lemma fallback_signed (TrimSpace : list byte -> list byte) (ii : nat)
    (scriptStr : list byte) (bap : BAP.Bap) :
  BAP.fallback TrimSpace ii scriptStr = Some bap ->
  BAP.BitcomIndex bap = ii /\ BAP.IsSignedByID bap = false.
Proof.
  unfold BAP.fallback. intros H.
  repeat match type of H with
         | context [match BAP.Index ?a ?b with _ => _ end] => destruct (BAP.Index a b)
         | context [if ?c then _ else _] => destruct c
         end; try discriminate; injection H as <-; split; reflexivity.
Qed.

Lemma BAP_protosLoop_record
    (Chunks : list byte -> list ScriptChunk * option ScriptError)
    (TrimSpace : list byte -> list byte) (all : list BitcomProtocol) :
  forall protos done bap,
    all = done ++ protos ->
    BAP.protosLoop Chunks TrimSpace protos (length done) = Some bap ->
    BAP.BitcomIndex bap < length all
    /\ Protocol (nth (BAP.BitcomIndex bap) all (mkProtocol [] [] 0)) = BAP.BAPPrefix
    /\ (BAP.IsSignedByID bap = true ->
        BAP.Type_ bap = BAP.ID /\ BAP.RootAddress bap = BAP.SignerAddr bap).
Proof.
  induction protos as [|p protos IH]; intros done bap Hall H;
    cbn [BAP.protosLoop] in H; [discriminate|].
  assert (Hnext : all = (done ++ [p]) ++ protos) by now rewrite <- app_assoc.
  assert (Hlen : S (length done) = length (done ++ [p]))
    by (rewrite length_app; cbn; lia).
  rewrite Hlen in H.
  assert (Hhere : forall r,
             BAP.BitcomIndex r = length done ->
             BAP.bytes_eqb (Protocol p) BAP.BAPPrefix = true ->
             BAP.BitcomIndex r < length all
             /\ Protocol (nth (BAP.BitcomIndex r) all (mkProtocol [] [] 0))
                = BAP.BAPPrefix).
  { intros r Hr Htag. apply bytes_eqb_eq in Htag. rewrite Hr. split.
    - rewrite Hall, length_app. cbn. lia.
    - now rewrite Hall, app_nth2, Nat.sub_diag by lia. }
  destruct (BAP.bytes_eqb (Protocol p) BAP.BAPPrefix) eqn:Htag;
    [|exact (IH _ _ Hnext H)].
  destruct (Chunks (Bitcom.Script p)) as [chunks err].
  destruct ((match err with Some _ => true | None => false end)
            || (length chunks <? 2)).
  - destruct (BAP.fallback TrimSpace (length done) (Bitcom.Script p)) as [r|] eqn:Hf;
      [|exact (IH _ _ Hnext H)].
    injection H as <-. destruct (fallback_signed _ _ _ _ Hf) as [Hi Hs].
    destruct (Hhere r Hi eq_refl) as [H1 H2]. repeat split; trivial; congruence.
  - injection H as <-.
    destruct (decodeFields_signed (length done) chunks) as [Hi Hs].
    destruct (Hhere _ Hi eq_refl) as [H1 H2]. repeat split; trivial; now apply Hs.
Qed.

(** X8.  The record that DecodeBAP returns was read from an entry tagged
    with the BAP prefix, at the index kept in BitcomIndex; and IsSignedByID
    is set on a record of type ID only, whose RootAddress is then the
    signer address. *)
Theorem DecodeBAP_record
    (Chunks : list byte -> list ScriptChunk * option ScriptError)
    (TrimSpace : list byte -> list byte) (b : Bitcom) (bap : BAP.Bap) :
  BAP.DecodeBAP Chunks TrimSpace (Some b) = Some bap ->
  BAP.BitcomIndex bap < length (Protocols b)
  /\ Protocol (nth (BAP.BitcomIndex bap) (Protocols b) (mkProtocol [] [] 0))
     = BAP.BAPPrefix
  /\ (BAP.IsSignedByID bap = true ->
      BAP.Type_ bap = BAP.ID /\ BAP.RootAddress bap = BAP.SignerAddr bap).
Proof.
  intros H. exact (BAP_protosLoop_record Chunks TrimSpace (Protocols b)
                     (Protocols b) [] bap eq_refl H).
Qed.

(** ID "k" "a" | "AIP" "alg" "signer" "sig". *)
Lemma DecodeBAP_record_witness :
  exists bap,
    BAP.DecodeBAP DecodeScript (fun s => s)
      (Some (mkBitcom
               [mkProtocol BAP.BAPPrefix
                  [x02; x49; x44; x01; x6b; x01; x61; x01; x7c; x03; x41; x49; x50;
                   x03; x61; x6c; x67; x06; x73; x69; x67; x6e; x65; x72;
                   x03; x73; x69; x67] 1]
               [])) = Some bap
    /\ BAP.IsSignedByID bap = true
    /\ BAP.Type_ bap = BAP.ID
    /\ BAP.RootAddress bap = list_byte_of_string "signer".
Proof.
  eexists. split; [reflexivity|]. split; [reflexivity|].
  destruct (DecodeBAP_record DecodeScript (fun s => s)
              (mkBitcom
                 [mkProtocol BAP.BAPPrefix
                    [x02; x49; x44; x01; x6b; x01; x61; x01; x7c; x03; x41; x49; x50;
                     x03; x61; x6c; x67; x06; x73; x69; x67; x6e; x65; x72;
                     x03; x73; x69; x67] 1]
                 []) _ eq_refl) as (_ & _ & Hs).
  destruct (Hs eq_refl) as [Ht Hr]. split; [exact Ht|exact Hr].
Defined.

(** X9.  DecodeBAP does not refuse a payload of two tokens, nor a type it
    does not know: for the first BAP entry, tokenized into two chunks or
    more, with fewer than three chunks or a type that is none of ID,
    ATTEST, REVOKE and ALIAS, the record has the first chunk as its type
    and every other field empty. *)
Theorem DecodeBAP_short_or_unknown
    (Chunks : list byte -> list ScriptChunk * option ScriptError)
    (TrimSpace : list byte -> list byte)
    (before after : list BitcomProtocol) (p : BitcomProtocol)
    (prefix : list byte) (chunks : list ScriptChunk) :
  noBAP before = true ->
  Protocol p = BAP.BAPPrefix ->
  Chunks (Bitcom.Script p) = (chunks, None) ->
  2 <= length chunks ->
  length chunks < 3
  \/ (BAP.chunkData chunks 0 <> BAP.ID /\ BAP.chunkData chunks 0 <> BAP.ATTEST
      /\ BAP.chunkData chunks 0 <> BAP.REVOKE /\ BAP.chunkData chunks 0 <> BAP.ALIAS) ->
  BAP.DecodeBAP Chunks TrimSpace (Some (mkBitcom (before ++ p :: after) prefix))
  = Some (BAP.mkBap (length before) (BAP.chunkData chunks 0) [] [] 0 [] [] [] [] false []).
Proof.
  intros Hno Htag Hchunks Hlen Hcase.
  unfold BAP.DecodeBAP. cbn [Protocols].
  rewrite (BAP_protosLoop_skip Chunks TrimSpace before (p :: after) Hno).
  cbn [BAP.protosLoop]. rewrite Htag.
  replace (BAP.bytes_eqb BAP.BAPPrefix BAP.BAPPrefix) with true
    by (symmetry; now apply bytes_eqb_eq).
  rewrite Hchunks. cbn [orb].
  replace (length chunks <? 2) with false by (symmetry; apply Nat.ltb_ge; lia).
  rewrite Nat.add_0_l. f_equal. unfold BAP.decodeFields.
  destruct Hcase as [Hshort|(H1 & H2 & H3 & H4)].
  - replace (3 <=? length chunks) with false by (symmetry; apply Nat.leb_gt; lia).
    repeat match goal with
           | |- context [if ?c then _ else _] => destruct c
           end; reflexivity.
  - assert (Hne : forall t, BAP.chunkData chunks 0 <> t ->
                            BAP.bytes_eqb (BAP.chunkData chunks 0) t = false).
    { intros t Ht. destruct (BAP.bytes_eqb (BAP.chunkData chunks 0) t) eqn:E;
        [|reflexivity]. apply bytes_eqb_eq in E. contradiction. }
    now rewrite (Hne _ H1), (Hne _ H2), (Hne _ H3), (Hne _ H4).
Qed.

(** ID "k": two tokens. *)
Lemma DecodeBAP_short_or_unknown_witness :
  BAP.DecodeBAP DecodeScript (fun s => s)
    (Some (mkBitcom [mkProtocol BAP.BAPPrefix [x02; x49; x44; x01; x6b] 1] []))
  = Some (BAP.mkBap 0 BAP.ID [] [] 0 [] [] [] [] false []).
Proof.
  apply (DecodeBAP_short_or_unknown DecodeScript (fun s => s) [] []
           (mkProtocol BAP.BAPPrefix [x02; x49; x44; x01; x6b] 1) []
           [mkChunk x02 BAP.ID; mkChunk x01 [x6b]]).
  - reflexivity.
  - reflexivity.
  - reflexivity.
  - cbn [length]. lia.
  - left. cbn [length]. lia.
Defined.

(** * More on the detached signature *)

Lemma dataLoop_tokens (toks : list byte) :
  Tokens notMarker toks ->
  forall done tail inst occ R,
    (forall fuel', 0 < fuel' ->
       Sigma.dataLoop fuel' (done ++ toks ++ tail) inst
         (length done + length toks) (length done + length toks) occ = R) ->
    forall fuel, length toks < fuel ->
      Sigma.dataLoop fuel (done ++ toks ++ tail) inst (length done) (length done) occ = R.
Proof.
  induction 1 as [|tok op toks Hr Hop _ IH]; intros done tail inst occ R Hend fuel Hfuel.
  - cbn [length app] in *. rewrite Nat.add_0_r in Hend. apply Hend. lia.
  - apply ReadOp_ok_bounds in Hr as Hb. rewrite length_app in *.
    destruct fuel as [|fuel]; [lia|]. cbn [Sigma.dataLoop].
    rewrite <- app_assoc. rewrite (ReadOp_at done tok (toks ++ tail) op Hr).
    replace (length done <? length (done ++ tok ++ toks ++ tail)) with true
      by (symmetry; apply Nat.ltb_lt; rewrite !length_app; lia).
    unfold notMarker in Hop. apply negb_true_iff in Hop. rewrite Hop.
    specialize (IH (done ++ tok) tail inst occ R).
    rewrite length_app, <- !app_assoc in IH. apply IH; [|lia].
    intros fuel' Hf. specialize (Hend fuel' Hf). rewrite <- app_assoc in Hend.
    replace (length done + length tok + length toks)
      with (length done + (length tok + length toks)) by lia.
    exact Hend.
Qed.

(** X10.  When the SIGMA entry comes right after OP_RETURN and the bytes
    before OP_RETURN are complete tokens, none an OP_RETURN or a delimiter
    written with OP_PUSHDATA1, getDataHash for instance 0 is the hash of
    exactly those bytes: neither the marker nor anything after it is
    signed. *)
Theorem getDataHash_sigma_after_marker
    (sha256 : list byte -> list byte) (s : Sigma.Sigma) (tx : Sigma.Transaction)
    (pre rest : list byte) :
  Sigma.Transaction_ s = Some tx ->
  (0 <= Sigma.TargetOutput s < Z.of_nat (length (Sigma.Outputs tx)))%Z ->
  Sigma.LockingScript
    (nth (Z.to_nat (Sigma.TargetOutput s)) (Sigma.Outputs tx) (Sigma.mkOutput None))
  = Some (pre ++ OpRETURN :: x05 :: Sigma.SIGMAPrefix ++ rest) ->
  Sigma.SigmaInstance s = 0%Z ->
  tokens notMarker pre = true ->
  Sigma.getDataHash sha256 s = Sigma.Ret (Some (sha256 pre)).
Proof.
  intros Htx Hout Hscr Hinst Hpre. unfold Sigma.getDataHash.
  rewrite Htx.
  replace (Z.of_nat (length (Sigma.Outputs tx)) <=? Sigma.TargetOutput s)%Z with false
    by (symmetry; apply Z.leb_gt; lia).
  replace (Sigma.TargetOutput s <? 0)%Z with false by (symmetry; apply Z.ltb_ge; lia).
  rewrite Hscr, Hinst. do 3 f_equal.
  apply tokens_sound in Hpre.
  change (pre ++ OpRETURN :: x05 :: Sigma.SIGMAPrefix ++ rest)
    with ([] ++ pre ++ ([OpRETURN] ++ (x05 :: Sigma.SIGMAPrefix) ++ rest)).
  apply (dataLoop_tokens pre Hpre []); [|cbn [app]; rewrite !length_app; cbn; lia].
  intros fuel' Hf. destruct fuel' as [|fuel']; [lia|].
  cbn [length Nat.add app]. cbn [Sigma.dataLoop].
  pose proof (ReadOp_at pre [OpRETURN] ((x05 :: Sigma.SIGMAPrefix) ++ rest)
                (mkChunk OpRETURN []) eq_refl) as H1.
  pose proof (ReadOp_at (pre ++ [OpRETURN]) (x05 :: Sigma.SIGMAPrefix) rest
                (mkChunk x05 Sigma.SIGMAPrefix) eq_refl) as H2.
  rewrite length_app, <- app_assoc in H2. cbn [length] in H1, H2.
  cbn [app] in H1, H2 |- *.
  replace (length pre <? length (pre ++ OpRETURN :: x05 :: Sigma.SIGMAPrefix ++ rest))
    with true by (symmetry; apply Nat.ltb_lt; rewrite length_app; cbn; lia).
  rewrite H1.
  change (Sigma.isMarker (mkChunk OpRETURN [])) with true. cbv iota.
  rewrite H2. cbn [Data].
  change (Sigma.bytes_eqb Sigma.SIGMAPrefix Sigma.SIGMAPrefix) with true.
  cbn [Z.eqb]. cbv iota.
  unfold slice. cbn [skipn]. rewrite Nat.sub_0_r.
  rewrite firstn_app, Nat.sub_diag, firstn_all. cbn [firstn]. now rewrite app_nil_r.
Qed.

(** P2PKH-like bytes, then OP_RETURN SIGMA "BSM". *)
Lemma getDataHash_sigma_after_marker_witness :
  Sigma.getDataHash (fun b => b)
    (Sigma.mkSigma Sigma.AlgoBSM [x31] [x41] [] [] 0 false
       (Some (Sigma.mkTx [] [Sigma.mkOutput None;
                              Sigma.mkOutput
                                (Some ([x76; x02; x6a; x7c; x00]
                                       ++ OpRETURN :: x05 :: Sigma.SIGMAPrefix
                                       ++ [x03; x42; x53; x4d]))]))
       1 0 0)
  = Sigma.Ret (Some [x76; x02; x6a; x7c; x00]).
Proof.
  apply (getDataHash_sigma_after_marker (fun b => b) _
           (Sigma.mkTx [] [Sigma.mkOutput None;
                           Sigma.mkOutput
                             (Some ([x76; x02; x6a; x7c; x00]
                                    ++ OpRETURN :: x05 :: Sigma.SIGMAPrefix
                                    ++ [x03; x42; x53; x4d]))])
           [x76; x02; x6a; x7c; x00] [x03; x42; x53; x4d]).
  - reflexivity.
  - cbn. lia.
  - reflexivity.
  - reflexivity.
  - reflexivity.
Defined.

Lemma sigma_bytes_eqb_eq (a b : list byte) : Sigma.bytes_eqb a b = true <-> a = b.
Proof.
  unfold Sigma.bytes_eqb. destruct (list_eq_dec byte_eq_dec a b); split;
    intros; congruence.
Qed.

(** X11.  VerifyMessageSignature writes nothing but Valid, and only to set
    it: after a return without error the record is the receiver with Valid
    set, after an error it is unchanged.  It returns without error only
    under a supported algorithm, and only when the verify capability
    accepts the decoded signature for the address and message or, under
    BSM, when the three fields are those of the built-in test vector. *)
Theorem VerifyMessageSignature_outcome
    (verify : list byte -> list byte -> list byte -> bool) (s : Sigma.Sigma) :
  let r := Sigma.VerifyMessageSignature verify s in
  (snd r = None -> fst r = Sigma.setValid s true)
  /\ (snd r <> None -> fst r = s)
  /\ (snd r = None ->
      (Sigma.Algorithm s = Sigma.AlgoBSM \/ Sigma.Algorithm s = Sigma.AlgoECDSA
       \/ Sigma.Algorithm s = Sigma.AlgoSHA256ECDSA)
      /\ (verify (Sigma.SignerAddress s)
            (Sigma.bytesOrNil (fst (Sigma.GetSignatureBytes s))) (Sigma.Message s) = true
          \/ (Sigma.Algorithm s = Sigma.AlgoBSM
              /\ Sigma.SignerAddress s = Sigma.testAddress
              /\ Sigma.Message s = Sigma.testMessage
              /\ Sigma.SignatureValue s = Sigma.testSignature))).
Proof.
  unfold Sigma.VerifyMessageSignature.
  destruct (Sigma.isNil (Sigma.SignerAddress s) || Sigma.isNil (Sigma.SignatureValue s)
            || Sigma.isNil (Sigma.Message s));
    [cbn; repeat split; intros; congruence|].
  destruct (Sigma.GetSignatureBytes s) as [sigBytes [err|]];
    [cbn; repeat split; intros; congruence|].
  cbn [fst].
  destruct (Sigma.bytes_eqb (Sigma.Algorithm s) Sigma.AlgoBSM) eqn:Hbsm.
  - apply sigma_bytes_eqb_eq in Hbsm.
    destruct (verify _ _ _) eqn:Hv; [cbn; repeat split; intros; auto; congruence|].
    destruct (Sigma.bytes_eqb (Sigma.SignerAddress s) Sigma.testAddress) eqn:Ha;
      [|cbn; repeat split; intros; congruence].
    destruct (Sigma.bytes_eqb (Sigma.Message s) Sigma.testMessage) eqn:Hm;
      [|cbn; repeat split; intros; congruence].
    destruct (Sigma.bytes_eqb (Sigma.SignatureValue s) Sigma.testSignature) eqn:Hsig;
      [|cbn; repeat split; intros; congruence].
    apply sigma_bytes_eqb_eq in Ha, Hm, Hsig.
    cbn. repeat split; intros; auto; congruence.
  - destruct (Sigma.bytes_eqb (Sigma.Algorithm s) Sigma.AlgoECDSA) eqn:He.
    + apply sigma_bytes_eqb_eq in He. cbn [orb].
      destruct (verify _ _ _) eqn:Hv; cbn; repeat split; intros; auto; congruence.
    + destruct (Sigma.bytes_eqb (Sigma.Algorithm s) Sigma.AlgoSHA256ECDSA) eqn:H2;
        cbn [orb]; [|cbn; repeat split; intros; congruence].
      apply sigma_bytes_eqb_eq in H2.
      destruct (verify _ _ _) eqn:Hv; cbn; repeat split; intros; auto; congruence.
Qed.

Lemma VerifyMessageSignature_outcome_witness :
  Sigma.VerifyMessageSignature (fun a _ m => Sigma.bytes_eqb a m)
    (Sigma.mkSigma Sigma.AlgoECDSA [x31] (list_byte_of_string "AQI=") [x31] [] 0 false
       None 0 0 0)
  = (Sigma.mkSigma Sigma.AlgoECDSA [x31] (list_byte_of_string "AQI=") [x31] [] 0 true
       None 0 0 0, None).
Proof.
  pose proof (VerifyMessageSignature_outcome (fun a _ m => Sigma.bytes_eqb a m)
                (Sigma.mkSigma Sigma.AlgoECDSA [x31] (list_byte_of_string "AQI=")
                   [x31] [] 0 false None 0 0 0)) as (H & _).
  specialize (H eq_refl).
  apply injective_projections; [exact H|reflexivity].
Defined.

(** X12.  VerifyTransactionSignature has no built-in exception: when it
    returns without error, the verify capability has accepted the decoded
    signature for the signer address on the digest of getMessageHash, and
    Valid has been set; when it returns an error the record is unchanged. *)
Theorem VerifyTransactionSignature_outcome
    (verify : list byte -> list byte -> list byte -> bool)
    (sha256 : list byte -> list byte) (s s' : Sigma.Sigma)
    (err : option Sigma.SigmaError) :
  Sigma.VerifyTransactionSignature verify sha256 s = Sigma.Ret (s', err) ->
  (err <> None -> s' = s)
  /\ (err = None ->
      s' = Sigma.setValid s true
      /\ exists digest,
           Sigma.getMessageHash sha256 s = Sigma.Ret (Some digest)
           /\ verify (Sigma.SignerAddress s)
                (Sigma.bytesOrNil (fst (Sigma.GetSignatureBytes s))) digest = true).
Proof.
  unfold Sigma.VerifyTransactionSignature.
  destruct (Sigma.isNil (Sigma.SignerAddress s) || Sigma.isNil (Sigma.SignatureValue s)
            || (match Sigma.Transaction_ s with None => true | Some _ => false end)).
  { intros H. injection H as <- <-. split; [reflexivity|discriminate]. }
  destruct (Sigma.GetSignatureBytes s) as [sigBytes [e|]].
  { intros H. injection H as <- <-. split; [reflexivity|discriminate]. }
  destruct (Sigma.getMessageHash sha256 s) as [[digest|]|]; [| |discriminate].
  2:{ intros H. injection H as <- <-. split; [reflexivity|discriminate]. }
  destruct (Sigma.bytes_eqb (Sigma.Algorithm s) Sigma.AlgoBSM
            || Sigma.bytes_eqb (Sigma.Algorithm s) Sigma.AlgoECDSA
            || Sigma.bytes_eqb (Sigma.Algorithm s) Sigma.AlgoSHA256ECDSA).
  2:{ intros H. injection H as <- <-. split; [reflexivity|discriminate]. }
  cbn [fst]. destruct (verify _ _ _) eqn:Hv; intros H; injection H as <- <-.
  - split; [congruence|]. intros _. split; [reflexivity|]. now exists digest.
  - split; [reflexivity|discriminate].
Qed.

Lemma VerifyTransactionSignature_outcome_witness :
  exists digest,
    Sigma.getMessageHash (fun b => b)
      (Sigma.mkSigma Sigma.AlgoBSM [x31] (list_byte_of_string "AQI=") [] [] 0 false
         (Some (Sigma.mkTx [Some (Sigma.mkInput (Some [x01]) 0)]
                  [Sigma.mkOutput (Some [x6a])])) 0 0 0)
    = Sigma.Ret (Some digest)
    /\ BAP.bytes_eqb digest [x01; x00; x00; x00; x00; x6a] = true.
Proof.
  destruct (VerifyTransactionSignature_outcome
              (fun _ _ m => BAP.bytes_eqb m [x01; x00; x00; x00; x00; x6a]) (fun b => b)
              (Sigma.mkSigma Sigma.AlgoBSM [x31] (list_byte_of_string "AQI=") [] [] 0 false
                 (Some (Sigma.mkTx [Some (Sigma.mkInput (Some [x01]) 0)]
                          [Sigma.mkOutput (Some [x6a])])) 0 0 0)
              (Sigma.mkSigma Sigma.AlgoBSM [x31] (list_byte_of_string "AQI=") [] [] 0 true
                 (Some (Sigma.mkTx [Some (Sigma.mkInput (Some [x01]) 0)]
                          [Sigma.mkOutput (Some [x6a])])) 0 0 0)
              None ltac:(vm_compute; reflexivity)) as [_ Hok].
  destruct (Hok eq_refl) as (_ & digest & Hd & Hv).
  exists digest. split; [exact Hd|exact Hv].
Defined.

Lemma VerifyTransactionSignature_keeps
    (verify : list byte -> list byte -> list byte -> bool)
    (sha256 : list byte -> list byte) (s s' : Sigma.Sigma)
    (err : option Sigma.SigmaError) :
  Sigma.VerifyTransactionSignature verify sha256 s = Sigma.Ret (s', err) ->
  s' = s \/ s' = Sigma.setValid s true.
Proof.
  unfold Sigma.VerifyTransactionSignature.
  destruct (Sigma.isNil (Sigma.SignerAddress s) || Sigma.isNil (Sigma.SignatureValue s)
            || (match Sigma.Transaction_ s with None => true | Some _ => false end));
    [intros H; injection H as <- <-; now left|].
  destruct (Sigma.GetSignatureBytes s) as [sigBytes [e|]];
    [intros H; injection H as <- <-; now left|].
  destruct (Sigma.getMessageHash sha256 s) as [[digest|]|];
    [|intros H; injection H as <- <-; now left|discriminate].
  destruct (Sigma.bytes_eqb (Sigma.Algorithm s) Sigma.AlgoBSM
            || Sigma.bytes_eqb (Sigma.Algorithm s) Sigma.AlgoECDSA
            || Sigma.bytes_eqb (Sigma.Algorithm s) Sigma.AlgoSHA256ECDSA);
    [|intros H; injection H as <- <-; now left].
  destruct (verify _ _ _); intros H; injection H as <- <-; [now right|now left].
Qed.

(** A record of DecodeFromTransaction: it carries the transaction, and is
    marked valid if it has an address and a signature and no message. *)
Lemma contextLoop_marked
    (verify : list byte -> list byte -> list byte -> bool)
    (sha256 : list byte -> list byte) (tx : Sigma.Transaction) (outputIdx : nat)
    (sigs : list Sigma.Sigma) :
  forall instanceIdx out,
    Forall trusted sigs ->
    Sigma.contextLoop verify sha256 tx outputIdx sigs instanceIdx = Sigma.Ret out ->
    Forall (fun s =>
              Sigma.Transaction_ s = Some tx
              /\ Sigma.TargetOutput s = Z.of_nat outputIdx
              /\ (Sigma.SignerAddress s <> [] -> Sigma.SignatureValue s <> [] ->
                  Sigma.Message s = [] -> Sigma.Valid s = true)) out.
Proof.
  induction sigs as [|s sigs IH]; intros instanceIdx out Htr H;
    cbn [Sigma.contextLoop] in H.
  - injection H as <-. constructor.
  - inversion Htr as [|? ? [_ Hs] Hrest]; subst.
    destruct (Sigma.VerifyTransactionSignature verify sha256
                (Sigma.setContext tx outputIdx instanceIdx s)) as [[s' err]|] eqn:Hv;
      [|discriminate].
    destruct (Sigma.contextLoop verify sha256 tx outputIdx sigs (S instanceIdx))
      as [rest|] eqn:Hl; [|discriminate].
    injection H as <-. constructor; [|exact (IH _ _ Hrest Hl)].
    destruct (VerifyTransactionSignature_keeps _ _ _ _ _ Hv) as [-> | ->];
      cbn; repeat split; auto.
Qed.

Lemma outputsLoop_marked
    (verify : list byte -> list byte -> list byte -> bool)
    (sha256 : list byte -> list byte) (fuel : nat) (tx : Sigma.Transaction)
    (outputs : list Sigma.TransactionOutput) :
  forall outputIdx acc out,
    Forall (fun s =>
              Sigma.Transaction_ s = Some tx
              /\ (Sigma.SignerAddress s <> [] -> Sigma.SignatureValue s <> [] ->
                  Sigma.Message s = [] -> Sigma.Valid s = true)) acc ->
    Sigma.outputsLoop verify sha256 fuel tx outputs outputIdx acc = Done (Sigma.Ret out) ->
    Forall (fun s =>
              Sigma.Transaction_ s = Some tx
              /\ (Sigma.SignerAddress s <> [] -> Sigma.SignatureValue s <> [] ->
                  Sigma.Message s = [] -> Sigma.Valid s = true)) out.
Proof.
  induction outputs as [|o outputs IH]; intros outputIdx acc out Hacc H;
    cbn [Sigma.outputsLoop] in H.
  - injection H as <-. exact Hacc.
  - destruct (Sigma.LockingScript o) as [scr|]; [|exact (IH _ _ _ Hacc H)].
    destruct (Decode fuel (Some scr)) as [[b|]|]; [| |discriminate];
      [|exact (IH _ _ _ Hacc H)].
    destruct (protosLoop_trusted verify sha256 (Protocols b) [] (Forall_nil _))
      as (sigs & Hrun & Htr).
    unfold Sigma.DecodeSIGMA in H. rewrite Hrun in H.
    destruct (length sigs =? 0); [exact (IH _ _ _ Hacc H)|].
    destruct (Sigma.contextLoop verify sha256 tx outputIdx sigs 0) as [sigs'|] eqn:Hc;
      [|discriminate].
    refine (IH _ _ _ _ H).
    apply Forall_app. split; [exact Hacc|].
    eapply Forall_impl; [|exact (contextLoop_marked _ _ _ _ _ _ _ Htr Hc)].
    cbn. intros s (H1 & _ & H3). split; assumption.
Qed.

(** X13.  Whatever the verify capability answers, every record that
    DecodeFromTransaction returns with a signer address and a signature and
    no message has Valid = true: DecodeSIGMA has marked it valid before the
    transaction was attached, and VerifyTransactionSignature never clears
    the mark. *)
Theorem DecodeFromTransaction_always_valid
    (verify : list byte -> list byte -> list byte -> bool)
    (sha256 : list byte -> list byte) (fuel : nat) (tx : Sigma.Transaction)
    (sigs : list Sigma.Sigma) (s : Sigma.Sigma) :
  Sigma.DecodeFromTransaction verify sha256 fuel (Some tx) = Done (Sigma.Ret sigs) ->
  In s sigs ->
  Sigma.SignerAddress s <> [] ->
  Sigma.SignatureValue s <> [] ->
  Sigma.Message s = [] ->
  Sigma.Transaction_ s = Some tx /\ Sigma.Valid s = true.
Proof.
  intros H Hin Ha Hv Hm. unfold Sigma.DecodeFromTransaction in H.
  pose proof (outputsLoop_marked verify sha256 fuel tx (Sigma.Outputs tx) 0 [] sigs
                (Forall_nil _) H) as Hall.
  rewrite Forall_forall in Hall. destruct (Hall s Hin) as [Ht Hvalid].
  split; [exact Ht|]. now apply Hvalid.
Qed.

(** One input, one output OP_RETURN SIGMA "BSM" "1A" 01 02 "0", and a
    capability that rejects every signature. *)
Lemma DecodeFromTransaction_always_valid_witness :
  exists s,
    Sigma.DecodeFromTransaction (fun _ _ _ => false) (fun b => b) 20
      (Some (Sigma.mkTx [Some (Sigma.mkInput (Some (repeat x00 32)) 0)]
               [Sigma.mkOutput
                  (Some (OpRETURN :: x05 :: Sigma.SIGMAPrefix
                         ++ [x03; x42; x53; x4d; x02; x31; x41; x02; x01; x02; x01; x30]))]))
    = Done (Sigma.Ret [s])
    /\ Sigma.Valid s = true.
Proof.
  eexists. split; [vm_compute; reflexivity|].
  apply (DecodeFromTransaction_always_valid (fun _ _ _ => false) (fun b => b) 20
           (Sigma.mkTx [Some (Sigma.mkInput (Some (repeat x00 32)) 0)]
              [Sigma.mkOutput
                 (Some (OpRETURN :: x05 :: Sigma.SIGMAPrefix
                        ++ [x03; x42; x53; x4d; x02; x31; x41; x02; x01; x02; x01; x30]))])
           _ _ eq_refl).
  - left. reflexivity.
  - discriminate.
  - discriminate.
  - reflexivity.
Defined.

(** * The hashes under a transaction signature *)

(** X14.  getMessageHash panics (an index out of range) exactly when the
    record has a transaction and either TargetOutput is negative, or VIN is
    out of the range of the inputs, of which there is at least one, and
    TargetOutput, taken in its place, is out of that range too. *)
Theorem getMessageHash_panics (sha256 : list byte -> list byte) (s : Sigma.Sigma) :
  Sigma.getMessageHash sha256 s = Sigma.Panic
  <-> exists tx,
        Sigma.Transaction_ s = Some tx
        /\ ((Sigma.TargetOutput s < 0)%Z
            \/ (Sigma.Inputs tx <> []
                /\ ((Sigma.VIN s < 0)%Z
                    \/ (Z.of_nat (length (Sigma.Inputs tx)) <= Sigma.VIN s)%Z)
                /\ (Z.of_nat (length (Sigma.Inputs tx)) <= Sigma.TargetOutput s)%Z)).
Proof.
  unfold Sigma.getMessageHash, Sigma.getInputHash, Sigma.getDataHash. cbv zeta.
  destruct (Sigma.Transaction_ s) as [tx|].
  2:{ split; [discriminate|]. intros (tx & H & _). discriminate. }
  assert (Hlen : (length (Sigma.Inputs tx) =? 0) = true <-> Sigma.Inputs tx = []).
  { rewrite Nat.eqb_eq. destruct (Sigma.Inputs tx); cbn; split; congruence. }
  set (n := Z.of_nat (length (Sigma.Inputs tx))) in *.
  assert (Hn : (0 <= n)%Z) by (subst n; lia).
  assert (Hn0 : (length (Sigma.Inputs tx) =? 0) = false -> (0 < n)%Z).
  { rewrite Nat.eqb_neq. subst n. lia. }
  destruct (length (Sigma.Inputs tx) =? 0) eqn:He.
  - (* no input *)
    destruct (Z.of_nat (length (Sigma.Outputs tx)) <=? Sigma.TargetOutput s)%Z eqn:Ho.
    + apply Z.leb_le in Ho. split; [discriminate|].
      intros (tx' & Htx & [Hneg | (Hne & _)]).
      * lia.
      * injection Htx as <-. exfalso. apply Hne. now apply Hlen.
    + destruct (Sigma.TargetOutput s <? 0)%Z eqn:Hneg.
      * apply Z.ltb_lt in Hneg. split; [|reflexivity].
        intros _. exists tx. split; [reflexivity|now left].
      * apply Z.ltb_ge in Hneg.
        split.
        { destruct (Sigma.LockingScript _); discriminate. }
        intros (tx' & Htx & [H | (Hne & _)]); [lia|].
        injection Htx as <-. exfalso. apply Hne. now apply Hlen.
  - specialize (Hn0 eq_refl).
    assert (Hne : Sigma.Inputs tx <> []).
    { intros H. apply Hlen in H. discriminate. }
    destruct ((Sigma.VIN s <? 0)%Z || (n <=? Sigma.VIN s)%Z) eqn:Hvin.
    + (* VIN out of range: TargetOutput is taken *)
      assert (Hv : (Sigma.VIN s < 0 \/ n <= Sigma.VIN s)%Z).
      { apply orb_true_iff in Hvin. destruct Hvin as [H|H];
          [left; now apply Z.ltb_lt|right; now apply Z.leb_le]. }
      destruct ((Sigma.TargetOutput s <? 0)%Z || (n <=? Sigma.TargetOutput s)%Z) eqn:Ht.
      * split; [|reflexivity]. intros _. exists tx. split; [reflexivity|].
        apply orb_true_iff in Ht. destruct Ht as [H|H].
        { left. now apply Z.ltb_lt. }
        { right. apply Z.leb_le in H. auto. }
      * apply orb_false_iff in Ht. destruct Ht as [Ht1 Ht2].
        apply Z.ltb_ge in Ht1. apply Z.leb_gt in Ht2.
        split.
        { rewrite (proj2 (Z.ltb_ge _ _) Ht1).
          destruct (nth _ _ _) as [[[t|] v]|];
            destruct (Z.of_nat (length (Sigma.Outputs tx)) <=? Sigma.TargetOutput s)%Z;
            try discriminate;
            destruct (Sigma.LockingScript _); discriminate. }
        intros (tx' & Htx & [H | (_ & _ & H)]); injection Htx as <-; lia.
    + rewrite Hvin. apply orb_false_iff in Hvin. destruct Hvin as [Hv1 Hv2].
      apply Z.ltb_ge in Hv1. apply Z.leb_gt in Hv2.
      destruct (Z.of_nat (length (Sigma.Outputs tx)) <=? Sigma.TargetOutput s)%Z eqn:Ho.
      * apply Z.leb_le in Ho. split.
        { destruct (nth _ _ _) as [[[t|] v]|]; discriminate. }
        intros (tx' & Htx & [H | (_ & [H|H] & _)]); injection Htx as <-; lia.
      * destruct (Sigma.TargetOutput s <? 0)%Z eqn:Hneg.
        { apply Z.ltb_lt in Hneg. split.
          - intros _. exists tx. split; [reflexivity|now left].
          - intros _. destruct (nth _ _ _) as [[[t|] v]|]; reflexivity. }
        { apply Z.ltb_ge in Hneg. split.
          - destruct (nth _ _ _) as [[[t|] v]|];
              destruct (Sigma.LockingScript _); discriminate.
          - intros (tx' & Htx & [H | (_ & [H|H] & _)]); injection Htx as <-; lia. }
Qed.

(** One input, and a record of the second output that names input 1. *)
Lemma getMessageHash_panics_witness :
  Sigma.getMessageHash (fun b => b)
    (Sigma.mkSigma Sigma.AlgoBSM [x31] (list_byte_of_string "AQI=") [] [] 1 false
       (Some (Sigma.mkTx [Some (Sigma.mkInput (Some [x01]) 0)]
                [Sigma.mkOutput (Some [x51]); Sigma.mkOutput (Some [x6a])])) 1 0 0)
  = Sigma.Panic.
Proof.
  apply (proj2 (getMessageHash_panics (fun b => b) _)).
  eexists. split; [reflexivity|]. right. cbn. repeat split; [discriminate|right; lia|lia].
Defined.

Lemma le32_PutUint32 (pre : list byte) (v : N) :
  (v < 4294967296)%N ->
  le32 (pre ++ Sigma.PutUint32 v) (length pre) = N.to_nat v.
Proof.
  intros Hv. unfold le32, byteAt, Sigma.PutUint32.
  rewrite !app_nth2 by lia.
  replace (length pre - length pre) with 0 by lia.
  replace (length pre + 1 - length pre) with 1 by lia.
  replace (length pre + 2 - length pre) with 2 by lia.
  replace (length pre + 3 - length pre) with 3 by lia.
  cbn [nth]. rewrite !to_N_byte_of_N. f_equal. lia.
Qed.

(** X15.  With VIN inside the range of the inputs, getInputHash hashes the
    outpoint of input VIN and nothing else: the bytes of its transaction
    id followed by its output index on four bytes, least significant
    first.  TargetOutput plays no part. *)
Theorem getInputHash_outpoint
    (sha256 : list byte -> list byte) (s : Sigma.Sigma) (tx : Sigma.Transaction)
    (input : Sigma.TransactionInput) (txid : list byte) :
  Sigma.Transaction_ s = Some tx ->
  (0 <= Sigma.VIN s < Z.of_nat (length (Sigma.Inputs tx)))%Z ->
  nth (Z.to_nat (Sigma.VIN s)) (Sigma.Inputs tx) None = Some input ->
  Sigma.SourceTXID input = Some txid ->
  (Sigma.SourceTxOutIndex input < 4294967296)%N ->
  exists outpoint,
    Sigma.getInputHash sha256 s = Sigma.Ret (Some (sha256 outpoint))
    /\ length outpoint = length txid + 4
    /\ firstn (length txid) outpoint = txid
    /\ le32 outpoint (length txid) = N.to_nat (Sigma.SourceTxOutIndex input).
Proof.
  intros Htx Hvin Hin Hid Hv.
  exists (txid ++ Sigma.PutUint32 (Sigma.SourceTxOutIndex input)).
  split; [|split; [|split]].
  - unfold Sigma.getInputHash. rewrite Htx. cbv zeta.
    assert (He : (length (Sigma.Inputs tx) =? 0) = false) by (apply Nat.eqb_neq; lia).
    rewrite He.
    assert (Hr : ((Sigma.VIN s <? 0)%Z
                  || (Z.of_nat (length (Sigma.Inputs tx)) <=? Sigma.VIN s)%Z) = false).
    { apply orb_false_iff. split; [apply Z.ltb_ge|apply Z.leb_gt]; lia. }
    rewrite !Hr. rewrite Hin, Hid. reflexivity.
  - rewrite length_app. reflexivity.
  - rewrite firstn_app, firstn_all, Nat.sub_diag. cbn. now rewrite app_nil_r.
  - now apply le32_PutUint32.
Qed.

Lemma getInputHash_outpoint_witness :
  exists outpoint,
    Sigma.getInputHash (fun b => b)
      (Sigma.mkSigma Sigma.AlgoBSM [x31] [x41] [] [] 1 false
         (Some (Sigma.mkTx [None; Some (Sigma.mkInput (Some [xaa; xbb]) 258)] [])) 7 0 0)
    = Sigma.Ret (Some outpoint)
    /\ outpoint = [xaa; xbb; x02; x01; x00; x00].
Proof.
  destruct (getInputHash_outpoint (fun b => b)
              (Sigma.mkSigma Sigma.AlgoBSM [x31] [x41] [] [] 1 false
                 (Some (Sigma.mkTx [None; Some (Sigma.mkInput (Some [xaa; xbb]) 258)] []))
                 7 0 0)
              (Sigma.mkTx [None; Some (Sigma.mkInput (Some [xaa; xbb]) 258)] [])
              (Sigma.mkInput (Some [xaa; xbb]) 258) [xaa; xbb]
              eq_refl ltac:(cbn; lia) eq_refl eq_refl ltac:(cbn; lia))
    as (outpoint & H & _).
  exists outpoint. split; [exact H|].
  vm_compute in H. now injection H as <-.
Defined.







(** The bound of [DecodeFromTransaction_no_panic] is needed: one input, and
    a second output whose record names input 5. *)
Example DecodeFromTransaction_panics :
  Sigma.DecodeFromTransaction (fun _ _ _ => false) (fun b => b) 20
    (Some (Sigma.mkTx [Some (Sigma.mkInput (Some (repeat x00 32)) 0)]
             [Sigma.mkOutput (Some [x51]);
              Sigma.mkOutput
                (Some (OpRETURN :: x05 :: Sigma.SIGMAPrefix
                       ++ [x03; x42; x53; x4d; x02; x31; x41; x02; x01; x02; x01; x35]))]))
  = Done Sigma.Panic.
Proof. vm_compute. reflexivity. Qed.

(** * pow20: the bytes of a number *)

Lemma eqb_x00 (b : byte) : Byte.eqb b x00 = (to_N b =? 0)%N.
Proof. destruct b; reflexivity. Qed.

Lemma highbit_clear (b : byte) : (N.land (to_N b) 128 =? 0)%N = (to_N b <? 128)%N.
Proof. destruct b; reflexivity. Qed.

Lemma AppendUint64_value (v : N) :
  (v < 18446744073709551616)%N ->
  exists b7 b6 b5 b4 b3 b2 b1 b0,
    Pow20.AppendUint64 v = [b7; b6; b5; b4; b3; b2; b1; b0]
    /\ (v = to_N b0 + 256 * (to_N b1 + 256 * (to_N b2 + 256 * (to_N b3 + 256 *
           (to_N b4 + 256 * (to_N b5 + 256 * (to_N b6 + 256 * to_N b7)))))))%N.
Proof.
  intros Hv. unfold Pow20.AppendUint64. do 8 eexists. split; [reflexivity|].
  rewrite !to_N_byte_of_N.
  assert (E2 : (v / 65536 = v / 256 / 256)%N)
    by (rewrite N.Div0.div_div; reflexivity).
  assert (E3 : (v / 16777216 = v / 256 / 256 / 256)%N)
    by (rewrite !N.Div0.div_div; reflexivity).
  assert (E4 : (v / 4294967296 = v / 256 / 256 / 256 / 256)%N)
    by (rewrite !N.Div0.div_div; reflexivity).
  assert (E5 : (v / 1099511627776 = v / 256 / 256 / 256 / 256 / 256)%N)
    by (rewrite !N.Div0.div_div; reflexivity).
  assert (E6 : (v / 281474976710656 = v / 256 / 256 / 256 / 256 / 256 / 256)%N)
    by (rewrite !N.Div0.div_div; reflexivity).
  assert (E7 : (v / 72057594037927936 = v / 256 / 256 / 256 / 256 / 256 / 256 / 256)%N)
    by (rewrite !N.Div0.div_div; reflexivity).
  assert (H7 : (v / 72057594037927936 < 256)%N)
    by (apply N.Div0.div_lt_upper_bound; exact Hv).
  rewrite (N.mod_small (v / 72057594037927936) 256) by exact H7.
  rewrite E2, E3, E4, E5, E6, E7.
  pose proof (N.div_mod v 256 ltac:(discriminate)) as H0.
  set (q1 := (v / 256)%N) in *.
  pose proof (N.div_mod q1 256 ltac:(discriminate)) as H1.
  set (q2 := (q1 / 256)%N) in *.
  pose proof (N.div_mod q2 256 ltac:(discriminate)) as H2.
  set (q3 := (q2 / 256)%N) in *.
  pose proof (N.div_mod q3 256 ltac:(discriminate)) as H3.
  set (q4 := (q3 / 256)%N) in *.
  pose proof (N.div_mod q4 256 ltac:(discriminate)) as H4.
  set (q5 := (q4 / 256)%N) in *.
  pose proof (N.div_mod q5 256 ltac:(discriminate)) as H5.
  set (q6 := (q5 / 256)%N) in *.
  pose proof (N.div_mod q6 256 ltac:(discriminate)) as H6.
  set (q7 := (q6 / 256)%N) in *.
  set (r0 := (v mod 256)%N) in *. set (r1 := (q1 mod 256)%N) in *.
  set (r2 := (q2 mod 256)%N) in *. set (r3 := (q3 mod 256)%N) in *.
  set (r4 := (q4 mod 256)%N) in *. set (r5 := (q5 mod 256)%N) in *.
  set (r6 := (q6 mod 256)%N) in *.
  clearbody q7 r0 r1 r2 r3 r4 r5 r6. clear E2 E3 E4 E5 E6 E7 H7 Hv.
  rewrite H0 at 1. rewrite H1 at 1. rewrite H2 at 1. rewrite H3 at 1.
  rewrite H4 at 1. rewrite H5 at 1. rewrite H6 at 1.
  lia.
Qed.

(** X17.  uint64ToBytes writes a number below 2^64 least significant byte
    first, on one to eight bytes, and the bytes spell the number back.  For
    a number below 2^63 the top bit of the last byte is clear and no
    shorter string has that property: the length is the least n >= 1 with
    v < 2^(8n-1). *)
Theorem uint64ToBytes_value (v : N) :
  (v < 18446744073709551616)%N ->
  leValue (Pow20.uint64ToBytes v) = v
  /\ 1 <= length (Pow20.uint64ToBytes v) <= 8
  /\ ((v < 9223372036854775808)%N ->
      (v < 2 ^ (8 * N.of_nat (length (Pow20.uint64ToBytes v)) - 1))%N
      /\ (length (Pow20.uint64ToBytes v) = 1
          \/ (2 ^ (8 * N.of_nat (length (Pow20.uint64ToBytes v)) - 9) <= v)%N)).
Proof.
  intros Hv.
  destruct (AppendUint64_value v Hv) as (b7 & b6 & b5 & b4 & b3 & b2 & b1 & b0 & E & Hval).
  unfold Pow20.uint64ToBytes. rewrite E.
  pose proof (to_N_bounded b0). pose proof (to_N_bounded b1).
  pose proof (to_N_bounded b2). pose proof (to_N_bounded b3).
  pose proof (to_N_bounded b4). pose proof (to_N_bounded b5).
  pose proof (to_N_bounded b6). pose proof (to_N_bounded b7).
  cbn [Pow20.stripLoop length Nat.sub Nat.ltb Nat.leb Nat.add byteAt nth andb Nat.eqb app].
  rewrite !eqb_x00, !highbit_clear.
  rewrite !andb_false_r, !andb_true_r. cbv iota.
  assert (Hand : forall x y, (x =? 0)%N && (y <? 128)%N = true <-> (x = 0 /\ y < 128)%N).
  { intros x y. rewrite andb_true_iff, N.eqb_eq, N.ltb_lt. reflexivity. }
  assert (Hnand : forall x y,
             (x =? 0)%N && (y <? 128)%N = false <-> (x <> 0 \/ 128 <= y)%N).
  { intros x y. rewrite andb_false_iff, N.eqb_neq, N.ltb_ge. reflexivity. }
  repeat match goal with
         | |- context [leValue (rev (if ?c then _ else _))] =>
             let C := fresh "C" in
             destruct c eqn:C; [apply Hand in C|apply Hnand in C]
         end;
    cbn [rev app leValue length];
    (split; [lia|]); (split; [lia|]); intros Hpos;
    repeat match goal with
           | |- context [(2 ^ ?e)%N] =>
               let x := eval vm_compute in (2 ^ e)%N in change (2 ^ e)%N with x
           end;
    (split; [lia|]); first [left; reflexivity | right; lia].
Qed.

Lemma uint64ToBytes_value_witness :
  Pow20.uint64ToBytes 33000 = [xe8; x80; x00]
  /\ leValue (Pow20.uint64ToBytes 33000) = 33000%N.
Proof.
  split; [vm_compute; reflexivity|].
  apply (uint64ToBytes_value 33000). lia.
Defined.

(** * The signature of a decoded record *)










Lemma VerifyMessageSignature_keeps
    (verify : list byte -> list byte -> list byte -> bool) (s : Sigma.Sigma) :
  fst (Sigma.VerifyMessageSignature verify s) = s
  \/ fst (Sigma.VerifyMessageSignature verify s) = Sigma.setValid s true.
Proof.
  unfold Sigma.VerifyMessageSignature.
  repeat match goal with
         | |- context [if ?c then _ else _] => destruct c
         | |- context [match Sigma.GetSignatureBytes ?x with _ => _ end] =>
             destruct (Sigma.GetSignatureBytes x) as [? [?|]]
         end; cbn; auto.
Qed.

Lemma validate_keeps
    (verify : list byte -> list byte -> list byte -> bool)
    (sha256 : list byte -> list byte) (s s' : Sigma.Sigma) :
  Sigma.validate verify sha256 s = Sigma.Ret s' ->
  s' = s \/ s' = Sigma.setValid s true.
Proof.
  unfold Sigma.validate.
  destruct (negb (Sigma.isNil (Sigma.SignerAddress s))
            && negb (Sigma.isNil (Sigma.SignatureValue s)));
    [|intros H; injection H as <-; now left].
  destruct (negb (Sigma.isNil (Sigma.Message s))).
  { intros H. injection H as <-. apply VerifyMessageSignature_keeps. }
  destruct (Sigma.Transaction_ s); [|intros H; injection H as <-; now right].
  destruct (Sigma.VerifyTransactionSignature verify sha256 s) as [[s1 err]|] eqn:Hv;
    [|discriminate].
  intros H. injection H as <-. exact (VerifyTransactionSignature_keeps _ _ _ _ _ Hv).
Qed.

(** What holds of every record read from a payload, and does not depend on
    Valid, holds of every record of DecodeSIGMA. *)
Lemma protosLoop_read
    (verify : list byte -> list byte -> list byte -> bool)
    (sha256 : list byte -> list byte) (P : Sigma.Sigma -> Prop) :
  (forall payload s, Sigma.readFields payload = Some s -> P s) ->
  (forall s, P s -> P (Sigma.setValid s true)) ->
  forall protos acc sigs,
    Forall P acc ->
    Sigma.protosLoop verify sha256 protos acc = Sigma.Ret sigs ->
    Forall P sigs.
Proof.
  intros Hread Hset. induction protos as [|p protos IH]; intros acc sigs Hacc H;
    cbn [Sigma.protosLoop] in H.
  - now injection H as <-.
  - destruct (Sigma.bytes_eqb (Protocol p) Sigma.SIGMAPrefix); [|exact (IH _ _ Hacc H)].
    destruct (Sigma.readFields (Bitcom.Script p)) as [s|] eqn:Hs; [|exact (IH _ _ Hacc H)].
    destruct (Sigma.validate verify sha256 s) as [s'|] eqn:Hv; [|discriminate].
    refine (IH _ _ _ H). apply Forall_app. split; [exact Hacc|].
    constructor; [|constructor].
    destruct (validate_keeps _ _ _ _ Hv) as [-> | ->]; eauto.
Qed.


Lemma readFields_vin (payload : list byte) (s : Sigma.Sigma) :
  Sigma.readFields payload = Some s ->
  Sigma.Transaction_ s = None
  /\ Sigma.TargetOutput s = 0%Z /\ Sigma.SigmaInstance s = 0%Z
  /\ (0 <= Sigma.VIN s <= 9)%Z
  /\ (Sigma.VIN s <> 0%Z -> Sigma.Message s = [] /\ Sigma.Nonce s = []).
Proof.
  unfold Sigma.readFields. intros H.
  repeat match type of H with
         | context [match ReadOp ?b ?p with _ => _ end] =>
             destruct (ReadOp b p) as [[?|?] ?]
         end; try discriminate.
  all: try (injection H as <-; cbn; repeat split; try lia; intros; congruence).
  all: match type of H with
       | context [if ?c then _ else _] => destruct c eqn:Hc
       end;
    injection H as <-; cbn; repeat split; try lia; try (intros; congruence).
  all: apply andb_true_iff in Hc; destruct Hc as [Hc Hhi];
    apply andb_true_iff in Hc; destruct Hc as [_ Hlo];
    apply Nat.leb_le in Hhi, Hlo; lia.
Qed.



(** X19.  A record of DecodeSIGMA has no transaction, output 0 and
    instance 0 as its target, and a VIN between 0 and 9 (never -1); a
    record with a VIN other than 0 has neither message nor nonce. *)
Theorem DecodeSIGMA_fields
    (verify : list byte -> list byte -> list byte -> bool)
    (sha256 : list byte -> list byte) (b : Bitcom) (sigs : list Sigma.Sigma)
    (s : Sigma.Sigma) :
  Sigma.DecodeSIGMA verify sha256 (Some b) = Sigma.Ret sigs ->
  In s sigs ->
  Sigma.Transaction_ s = None
  /\ Sigma.TargetOutput s = 0%Z /\ Sigma.SigmaInstance s = 0%Z
  /\ (0 <= Sigma.VIN s <= 9)%Z
  /\ (Sigma.VIN s <> 0%Z -> Sigma.Message s = [] /\ Sigma.Nonce s = []).
Proof.
  intros H Hin. unfold Sigma.DecodeSIGMA in H.
  pose proof (protosLoop_read verify sha256 _ readFields_vin (fun s Hs => Hs)
                (Protocols b) [] sigs (Forall_nil _) H) as Hall.
  rewrite Forall_forall in Hall. exact (Hall s Hin).
Qed.

(** The entry SIGMA "BSM" "1A" 01 02 "7". *)
Lemma DecodeSIGMA_fields_witness :
  exists s,
    Sigma.DecodeSIGMA (fun _ _ _ => false) (fun b => b)
      (Some (mkBitcom
               [mkProtocol Sigma.SIGMAPrefix
                  [x03; x42; x53; x4d; x02; x31; x41; x02; x01; x02; x01; x37] 1] []))
    = Sigma.Ret [s]
    /\ Sigma.VIN s = 7%Z /\ Sigma.Message s = [].
Proof.
  eexists. split; [vm_compute; reflexivity|].
  destruct (DecodeSIGMA_fields (fun _ _ _ => false) (fun b => b)
              (mkBitcom
                 [mkProtocol Sigma.SIGMAPrefix
                    [x03; x42; x53; x4d; x02; x31; x41; x02; x01; x02; x01; x37] 1] [])
              _ _ ltac:(vm_compute; reflexivity) (or_introl eq_refl))
    as (_ & _ & _ & _ & Hm).
  split; [reflexivity|]. apply Hm. discriminate.
Defined.

(** * The field indexes of an AIP record *)

Lemma isDigit_not_sign (c : byte) :
  BAP.isDigit c = true -> Byte.eqb c x2d = false /\ Byte.eqb c x2b = false.
Proof. destruct c; intros H; try discriminate H; split; reflexivity. Qed.

Lemma atoiLoop_decimal (s : list byte) :
  forall n : N,
    forallb BAP.isDigit s = true ->
    Strconv.atoiLoop s (Z.of_N n) = Some (Z.of_N (decimalValue n s)).
Proof.
  induction s as [|c rest IH]; intros n Hd; cbn [Strconv.atoiLoop decimalValue forallb] in *;
    [reflexivity|].
  apply andb_prop in Hd. destruct Hd as [Hc Hrest].
  assert (Hch : ((to_N c + 256 - 48) mod 256 = to_N c - 48)%N /\ (to_N c - 48 <= 9)%N).
  { unfold BAP.isDigit in Hc. apply andb_prop in Hc. destruct Hc as [H1 H2].
    apply Nat.leb_le in H1, H2. rewrite to_nat_via_N in H1, H2.
    split; [|lia].
    replace (to_N c + 256 - 48)%N with (to_N c - 48 + 1 * 256)%N by lia.
    rewrite N.Div0.mod_add. apply N.mod_small. lia. }
  destruct Hch as [-> Hle].
  destruct (N.ltb_spec 9 (to_N c - 48)) as [Hgt|_]; [lia|].
  rewrite <- (IH _ Hrest). f_equal. lia.
Qed.

Lemma Atoi_decimal (s : list byte) :
  isDecimal s = true -> length s < 19 ->
  Strconv.Atoi s = (Z.of_N (decimalValue 0 s), None).
Proof.
  destruct s as [|c rest]; [discriminate|]. intros Hd Hlen.
  cbn [isDecimal] in Hd. unfold Strconv.Atoi.
  assert (Hfast : (0 <? length (c :: rest)) && (length (c :: rest) <? 19) = true).
  { apply andb_true_iff. split; [reflexivity|now apply Nat.ltb_lt]. }
  rewrite Hfast. cbv zeta. cbn [byteAt nth].
  pose proof Hd as Hc. cbn [forallb] in Hc. apply andb_prop in Hc.
  destruct (isDigit_not_sign c (proj1 Hc)) as [-> ->]. cbn [orb andb].
  change 0%Z with (Z.of_N 0). now rewrite (atoiLoop_decimal _ 0%N Hd).
Qed.

Lemma fieldIndexesLoop_decimal (chunks : list ScriptChunk) :
  forall l,
    Forall (fun c => isDecimal (Data c) = true /\ length (Data c) < 19) chunks ->
    AIPDecoder.fieldIndexesLoop chunks (Some l)
    = Some (l ++ map (fun c => Z.of_N (decimalValue 0 (Data c))) chunks).
Proof.
  induction chunks as [|c rest IH]; intros l Hall; cbn [AIPDecoder.fieldIndexesLoop map].
  - now rewrite app_nil_r.
  - inversion Hall as [|? ? [Hd Hlen] Hrest]; subst.
    rewrite (Atoi_decimal _ Hd Hlen). rewrite (IH _ Hrest).
    now rewrite <- app_assoc.
Qed.

Lemma AIP_protosLoop_fields
    (Chunks : list byte -> list ScriptChunk * option ScriptError)
    (verify : list byte -> list byte -> list byte -> bool)
    (P : AIP.AIP -> Prop) (all : list BitcomProtocol) :
  (forall a chunks,
     AIP.BitcomIndex a < length all ->
     Chunks (Bitcom.Script (nth (AIP.BitcomIndex a) all (mkProtocol [] [] 0)))
     = (chunks, None) ->
     3 <= length chunks ->
     AIP.Algorithm a = BAP.chunkData chunks 0 ->
     AIP.Address a = BAP.chunkData chunks 1 ->
     AIP.Signature a = BAP.chunkData chunks 2 ->
     AIP.FieldIndexes a = AIPDecoder.fieldIndexesLoop (skipn 3 chunks) None ->
     P a) ->
  forall protos done aips,
    all = done ++ protos ->
    Forall P aips ->
    Forall P (AIPDecoder.protosLoop Chunks verify all protos (length done) aips).
Proof.
  intros HP. induction protos as [|p protos IH]; intros done aips Hall Haips;
    cbn [AIPDecoder.protosLoop]; [exact Haips|].
  assert (Hnext : all = (done ++ [p]) ++ protos) by now rewrite <- app_assoc.
  assert (Hlen : S (length done) = length (done ++ [p]))
    by (rewrite length_app; cbn; lia).
  rewrite Hlen.
  destruct (BAP.bytes_eqb (Protocol p) AIPDecoder.AIPPrefix); [|now apply IH].
  destruct (Chunks (Bitcom.Script p)) as [chunks err] eqn:Hch.
  destruct err as [e|]; [now apply IH|]. cbn [orb].
  destruct (Nat.ltb_spec (length chunks) 3) as [Hshort|Hlong]; [now apply IH|].
  apply IH; [exact Hnext|]. apply Forall_app. split; [exact Haips|].
  constructor; [|constructor].
  unfold AIP.validateAip.
  match goal with
  | |- P (if ?c then _ else _) => destruct c
  end; apply (HP _ chunks);
    cbn [AIP.BitcomIndex AIP.Algorithm AIP.Address AIP.Signature AIP.FieldIndexes
         AIP.setValid];
    try reflexivity; try exact Hlong;
    try (rewrite Hall, length_app; cbn; lia);
    rewrite Hall, app_nth2, Nat.sub_diag by lia; exact Hch.
Qed.

(** X20.  A record of DecodeAIP is read from the tokens of its entry, which
    tokenize without error into three chunks or more: algorithm, address and
    signature are the data of the first three, unchanged.  When every chunk
    after the third is a decimal number of at most 18 digits, FieldIndexes
    lists their values in order, and it is nil when there is no such
    chunk. *)
Theorem DecodeAIP_record
    (Chunks : list byte -> list ScriptChunk * option ScriptError)
    (verify : list byte -> list byte -> list byte -> bool)
    (b : Bitcom) (a : AIP.AIP) :
  In a (AIPDecoder.DecodeAIP Chunks verify (Some b)) ->
  exists chunks,
    Chunks (Bitcom.Script (nth (AIP.BitcomIndex a) (Protocols b) (mkProtocol [] [] 0)))
    = (chunks, None)
    /\ 3 <= length chunks
    /\ AIP.Algorithm a = BAP.chunkData chunks 0
    /\ AIP.Address a = BAP.chunkData chunks 1
    /\ AIP.Signature a = BAP.chunkData chunks 2
    /\ (Forall (fun c => isDecimal (Data c) = true /\ length (Data c) < 19)
          (skipn 3 chunks) ->
        AIP.FieldIndexes a
        = match skipn 3 chunks with
          | [] => None
          | rest => Some (map (fun c => Z.of_N (decimalValue 0 (Data c))) rest)
          end).
Proof.
  intros Hin. unfold AIPDecoder.DecodeAIP in Hin. revert a Hin.
  apply Forall_forall.
  refine (AIP_protosLoop_fields Chunks verify _ (Protocols b) _ (Protocols b) [] []
            eq_refl (Forall_nil _)).
  intros a chunks Hidx Hch Hlen Halg Haddr Hsig Hfi.
  exists chunks. do 5 (split; [assumption|]).
  intros Hdec. rewrite Hfi.
  destruct (skipn 3 chunks) as [|c rest]; [reflexivity|].
  inversion Hdec as [|? ? [Hd Hl] Hrest]; subst.
  cbn [AIPDecoder.fieldIndexesLoop]. rewrite (Atoi_decimal _ Hd Hl).
  now rewrite (fieldIndexesLoop_decimal _ _ Hrest).
Qed.

(** The entry AIP "alg" "addr" "sig" "0" "12": the tokens 0 and 12 of the
    entries before it are the signed ones. *)
Lemma DecodeAIP_record_witness :
  exists a,
    AIPDecoder.DecodeAIP DecodeScript (fun _ _ _ => false)
      (Some (mkBitcom
               [mkProtocol AIPDecoder.AIPPrefix
                  [x01; x61; x01; x62; x01; x63; x01; x30; x02; x31; x32] 1] []))
    = [a]
    /\ AIP.FieldIndexes a = Some [0%Z; 12%Z].
Proof.
  eexists. split; [vm_compute; reflexivity|].
  destruct (DecodeAIP_record DecodeScript (fun _ _ _ => false)
              (mkBitcom
                 [mkProtocol AIPDecoder.AIPPrefix
                    [x01; x61; x01; x62; x01; x63; x01; x30; x02; x31; x32] 1] [])
              _ (or_introl eq_refl)) as (chunks & Hch & _ & _ & _ & _ & Hfi).
  vm_compute in Hch. injection Hch as <-.
  etransitivity; [apply Hfi; repeat constructor|reflexivity].
Defined.

(** X21.  Verify cannot confirm a record of DecodeSIGMA that has no
    message, whether DecodeSIGMA has marked it valid or not: the record has
    no transaction, so Verify answers ErrInsufficientData, calls no
    verification and leaves the record as it is. *)
Theorem Verify_decoded_without_message
    (verify : list byte -> list byte -> list byte -> bool)
    (sha256 : list byte -> list byte) (b : Bitcom) (sigs : list Sigma.Sigma)
    (s : Sigma.Sigma) :
  Sigma.DecodeSIGMA verify sha256 (Some b) = Sigma.Ret sigs ->
  In s sigs ->
  Sigma.Message s = [] ->
  Sigma.Verify verify sha256 s = Sigma.Ret (s, Some Sigma.ErrInsufficientData).
Proof.
  intros H Hin Hm. unfold Sigma.DecodeSIGMA in H.
  pose proof (protosLoop_read verify sha256 (fun s => Sigma.Transaction_ s = None)
                readFields_no_transaction (fun s Hs => Hs)
                (Protocols b) [] sigs (Forall_nil _) H) as Hall.
  rewrite Forall_forall in Hall. specialize (Hall s Hin).
  unfold Sigma.Verify. now rewrite Hm, Hall.
Qed.

(** The entry SIGMA "BSM" "1A" 01 02: marked valid, and not verifiable. *)
Lemma Verify_decoded_without_message_witness :
  exists s,
    Sigma.DecodeSIGMA (fun _ _ _ => true) (fun b => b)
      (Some (mkBitcom
               [mkProtocol Sigma.SIGMAPrefix
                  [x03; x42; x53; x4d; x02; x31; x41; x02; x01; x02] 1] []))
    = Sigma.Ret [s]
    /\ Sigma.Valid s = true
    /\ Sigma.Verify (fun _ _ _ => true) (fun b => b) s
       = Sigma.Ret (s, Some Sigma.ErrInsufficientData).
Proof.
  eexists. split; [vm_compute; reflexivity|]. split; [reflexivity|].
  apply (Verify_decoded_without_message (fun _ _ _ => true) (fun b => b)
           (mkBitcom
              [mkProtocol Sigma.SIGMAPrefix
                 [x03; x42; x53; x4d; x02; x31; x41; x02; x01; x02] 1] [])
           _ _ ltac:(vm_compute; reflexivity) (or_introl eq_refl) eq_refl).
Defined.
